(** * Voxel carving: a shallow embedding of [src/voxeling.py], of the
      cropping, padding, channel selection and segmentation of
      [src/processing.py], and of the axes of [src/data_saver.py]

    The development has two layers.

    - A value layer: every NumPy kernel the source calls ([np.meshgrid],
      [@], [np.round], boolean and integer-array indexing, [np.vstack],
      [np.sum], ...) is a total function on lists, and every Python
      function of the source is the composition the source writes, in an
      error monad that carries the exceptions NumPy raises.
    - A reference layer (module [Ref]): arrays live in a store and are
      passed by location, in-place operators ([/=], indexed assignment)
      are writes, and everything else allocates.  It is linked to the
      value layer by an adequacy lemma.

    Numbers.  [float64] scalars are kept abstract behind the class
    [Float64], which is instantiated twice: by [xq], exact rationals
    extended with the IEEE special values (what the program computes when
    no rounding error occurs), and by Rocq's primitive [float], which is
    IEEE binary64 itself.  [int64] values are [Z]; overflow of [int64]
    arithmetic on grid indices is not modelled.  The vote and occupancy
    arrays are [float64] arrays in the source that only ever hold small
    non-negative integers, which binary64 represents exactly; they are
    modelled by [Z]. *)

From Stdlib Require Import ZArith QArith Qround Qabs Lia Lqa List Bool Permutation.
From Stdlib Require Import PrimFloat FloatOps SpecFloat FloatAxioms Uint63.
From stdpp Require Import base tactics option list.

Set Default Proof Using "Type".
Local Open Scope Z_scope.

(* ===================================================================== *)
(** * Exceptions *)
(* ===================================================================== *)

(** The exceptions the modelled code can raise. *)
Inductive exn : Type :=
  | ValueError    (* NumPy: shape mismatch, empty reduction, empty stack,
                     Python: wrong number of values to unpack *)
  | IndexError    (* NumPy: index out of bounds, boolean index of wrong size *)
  | TypeError     (* an object of the wrong kind at a location *)
  | CvError.      (* OpenCV: a failed CV_Assert *)

Inductive result (A : Type) : Type :=
  | Ok (a : A)
  | Raise (e : exn).
Arguments Ok {A} a.
Arguments Raise {A} e.

#[global] Instance result_ret : MRet result := fun _ a => Ok a.
#[global] Instance result_bind : MBind result := fun _ _ f m =>
  match m with
  | Ok a => f a
  | Raise e => Raise e
  end.
#[global] Instance result_fmap : FMap result := fun _ _ f m =>
  match m with
  | Ok a => Ok (f a)
  | Raise e => Raise e
  end.

Definition is_ok {A} (r : result A) : bool :=
  match r with Ok _ => true | Raise _ => false end.

#[global] Instance exn_eq_dec : EqDecision exn.
Proof. solve_decision. Defined.

(* ===================================================================== *)
(** * Scalars *)
(* ===================================================================== *)

(** The operations on [float64] that the source uses. *)
Class Float64 (F : Type) : Type := {
  f_add : F -> F -> F;
  f_sub : F -> F -> F;
  f_mul : F -> F -> F;
  f_div : F -> F -> F;
  f_of_int : Z -> F;      (* conversion of an int64 *)
  f_rint : F -> F;        (* np.round, zero decimals: ties go to even *)
  f_to_int : F -> Z;      (* astype(int) *)
  f_leb : F -> F -> bool  (* <= *)
}.

(** [astype(int)] of a NaN, an infinity or a value out of the range of
    [int64] is what the conversion instruction of x86-64 returns, the
    "integer indefinite" value, which is the least [int64]. *)
Definition int64_min : Z := - 2 ^ 63.
Definition int64_max : Z := 2 ^ 63 - 1.
Definition int64_or_indefinite (z : Z) : Z :=
  if (int64_min <=? z) && (z <=? int64_max) then z else int64_min.

(** ** Exact instance: extended rationals *)

Inductive xq : Type :=
  | Fin (q : Q)
  | PInf
  | NInf
  | NaN.

Definition xq_opp (x : xq) : xq :=
  match x with
  | Fin q => Fin (- q)
  | PInf => NInf
  | NInf => PInf
  | NaN => NaN
  end.

Definition xq_add (x y : xq) : xq :=
  match x, y with
  | NaN, _ | _, NaN => NaN
  | Fin a, Fin b => Fin (a + b)
  | PInf, NInf | NInf, PInf => NaN
  | PInf, _ | _, PInf => PInf
  | NInf, _ | _, NInf => NInf
  end.

Definition xq_sub (x y : xq) : xq := xq_add x (xq_opp y).

(** An infinity [i] scaled by the sign of the rational [a]. *)
Definition xq_scale_inf (i : xq) (a : Q) : xq :=
  match (a ?= 0)%Q with
  | Eq => NaN
  | Gt => i
  | Lt => xq_opp i
  end.

Definition xq_mul (x y : xq) : xq :=
  match x, y with
  | NaN, _ | _, NaN => NaN
  | Fin a, Fin b => Fin (a * b)
  | Fin a, i => xq_scale_inf i a
  | i, Fin a => xq_scale_inf i a
  | PInf, PInf | NInf, NInf => PInf
  | PInf, NInf | NInf, PInf => NInf
  end.

(** Division.  A finite value divided by zero is an infinity of the sign
    of the dividend, and [0 / 0] is NaN.  Zero carries no sign here. *)
Definition xq_div (x y : xq) : xq :=
  match x, y with
  | NaN, _ | _, NaN => NaN
  | Fin a, Fin b =>
      match (b ?= 0)%Q with
      | Eq => match (a ?= 0)%Q with
              | Eq => NaN
              | Gt => PInf
              | Lt => NInf
              end
      | _ => Fin (a / b)
      end
  | Fin _, _ => Fin 0
  | i, Fin b => match (b ?= 0)%Q with Lt => xq_opp i | _ => i end
  | _, _ => NaN
  end.

(** Round to the nearest integer, ties to the even one. *)
Definition round_half_even (q : Q) : Z :=
  let f := Qfloor q in
  match (q - inject_Z f ?= 1 # 2)%Q with
  | Lt => f
  | Gt => f + 1
  | Eq => if Z.even f then f else f + 1
  end.

Definition xq_rint (x : xq) : xq :=
  match x with
  | Fin q => Fin (inject_Z (round_half_even q))
  | _ => x
  end.

(** Truncation toward zero, as the C conversion does. *)
Definition Qtrunc (q : Q) : Z := Z.quot (Qnum q) (Zpos (Qden q)).

Definition xq_to_int (x : xq) : Z :=
  match x with
  | Fin q => int64_or_indefinite (Qtrunc q)
  | _ => int64_min
  end.

Definition xq_leb (x y : xq) : bool :=
  match x, y with
  | NaN, _ | _, NaN => false
  | Fin a, Fin b => Qle_bool a b
  | NInf, _ | _, PInf => true
  | _, _ => false
  end.

#[global] Instance xq_float64 : Float64 xq := {|
  f_add := xq_add;
  f_sub := xq_sub;
  f_mul := xq_mul;
  f_div := xq_div;
  f_of_int := fun z => Fin (inject_Z z);
  f_rint := xq_rint;
  f_to_int := xq_to_int;
  f_leb := xq_leb
|}.

(** Equality of extended rationals, up to the representation of [Q]. *)
Definition xq_eq (x y : xq) : Prop :=
  match x, y with
  | Fin a, Fin b => (a == b)%Q
  | PInf, PInf | NInf, NInf | NaN, NaN => True
  | _, _ => False
  end.

(** ** Binary64 instance: primitive floats *)

Definition b64_of_int (z : Z) : float :=
  match z with
  | Z0 => PrimFloat.zero
  | Zpos _ => PrimFloat.of_uint63 (Uint63.of_Z z)
  | Zneg p => PrimFloat.opp (PrimFloat.of_uint63 (Uint63.of_Z (Zpos p)))
  end.

(** [2^52]: every binary64 of at least this magnitude is an integer, and
    adding then subtracting it rounds a smaller magnitude to an integer
    in the current (nearest, ties to even) rounding mode. *)
Definition b64_two52 : float := Eval compute in b64_of_int (2 ^ 52).

Definition b64_rint (x : float) : float :=
  if PrimFloat.ltb (PrimFloat.abs x) b64_two52 then
    let r := PrimFloat.sub (PrimFloat.add (PrimFloat.abs x) b64_two52) b64_two52 in
    if PrimFloat.get_sign x then PrimFloat.opp r else r
  else x.

Definition b64_to_int (x : float) : Z :=
  match Prim2SF x with
  | S754_zero _ => 0
  | S754_finite s m e =>
      let mag := if 0 <=? e then Zpos m * 2 ^ e else Zpos m / 2 ^ (- e) in
      int64_or_indefinite (if s then - mag else mag)
  | _ => int64_min
  end.

#[global] Instance b64_float64 : Float64 float := {|
  f_add := PrimFloat.add;
  f_sub := PrimFloat.sub;
  f_mul := PrimFloat.mul;
  f_div := PrimFloat.div;
  f_of_int := b64_of_int;
  f_rint := b64_rint;
  f_to_int := b64_to_int;
  f_leb := PrimFloat.leb
|}.

(* ===================================================================== *)
(** * NumPy kernels on lists *)
(* ===================================================================== *)

(** A two-dimensional array is the list of its rows; every array the
    theorems speak about is rectangular ([rect]).  An array with no row
    has no recorded width: [shape1] is then 0. *)
Abbreviation matrix A := (list (list A)).

Definition shape0 {A} (m : matrix A) : nat := length m.
Definition shape1 {A} (m : matrix A) : nat := length (hd [] m).

Definition rect {A} (n k : nat) (m : matrix A) : Prop :=
  length m = n /\ Forall (fun row => length row = k) m.

(** Python's indexing of an axis of length [n] by the integer [i]:
    a negative index counts from the end. *)
Definition py_index (n : nat) (i : Z) : result nat :=
  if (0 <=? i) && (i <? Z.of_nat n) then Ok (Z.to_nat i)
  else if (- Z.of_nat n <=? i) && (i <? 0) then Ok (Z.to_nat (i + Z.of_nat n))
  else Raise IndexError.

(** [a[i]] on a list, for an index already resolved. *)
Definition at_index {A} (l : list A) (i : nat) : result A :=
  match l !! i with
  | Some v => Ok v
  | None => Raise IndexError
  end.

(** [m[i, :]] *)
Definition np_row {A} (m : matrix A) (i : Z) : result (list A) :=
  k ← py_index (shape0 m) i; at_index m k.

(** [np.arange(n)] *)
Definition np_arange (n : Z) : list Z := map Z.of_nat (seq 0 (Z.to_nat n)).

(** [np.meshgrid(xs, ys, zs)] with the default ['xy'] indexing: three
    arrays of shape [(len ys, len xs, len zs)], the first two axes being
    swapped with respect to the order of the arguments. *)
Definition np_meshgrid3 {A} (xs ys zs : list A)
  : list (matrix A) * list (matrix A) * list (matrix A) :=
  (map (fun _ => map (fun x => map (fun _ => x) zs) xs) ys,
   map (fun y => map (fun _ => map (fun _ => y) zs) xs) ys,
   map (fun _ => map (fun _ => zs) xs) ys).

(** [a.flatten()] of a three-dimensional array, in row-major order. *)
Definition np_flatten3 {A} (a : list (matrix A)) : list A := concat (concat a).

(** [a.min()] and [a.max()]: an empty array has no minimum. *)
Definition np_min (a : list Z) : result Z :=
  match a with
  | [] => Raise ValueError
  | x :: xs => Ok (foldl Z.min x xs)
  end.

Definition np_max (a : list Z) : result Z :=
  match a with
  | [] => Raise ValueError
  | x :: xs => Ok (foldl Z.max x xs)
  end.

(** [np.vstack(rows)] of one-dimensional arrays. *)
Definition np_vstack {A} (rows : list (list A)) : result (matrix A) :=
  match rows with
  | [] => Raise ValueError
  | r :: rs =>
      if forallb (fun r' => length r' =? length r)%nat rs then Ok rows
      else Raise ValueError
  end.

(** The columns of an array. *)
Fixpoint transpose {A} (m : matrix A) : matrix A :=
  match m with
  | [] => []
  | [r] => map (fun x => [x]) r
  | r :: rs => zip_with cons r (transpose rs)
  end.

(** [np.where(b)[0]]: the positions of the true entries, increasing. *)
Fixpoint np_where_from (i : nat) (b : list bool) : list nat :=
  match b with
  | [] => []
  | true :: b' => i :: np_where_from (S i) b'
  | false :: b' => np_where_from (S i) b'
  end.
Definition np_where (b : list bool) : list nat := np_where_from 0 b.

(** [row[idx]] for an array [idx] of in-range positions. *)
Definition np_take {A} (row : list A) (idx : list nat) : result (list A) :=
  mapM (at_index row) idx.

(** [m[:, idx]] *)
Definition np_take_cols {A} (m : matrix A) (idx : list nat) : result (matrix A) :=
  mapM (fun row => np_take row idx) m.

(** [m[:-1]] *)
Definition np_drop_last_row {A} (m : matrix A) : matrix A :=
  take (length m - 1) m.

(** [img[ys, xs]] for two integer index arrays of one length (the
    broadcasting of an array of one item against a longer one is left
    out: the voter indexes with two rows of one matrix), each pair
    being resolved as Python resolves indices. *)
Definition np_getitem2 {A} (img : matrix A) (ys xs : list Z) : result (list A) :=
  if (length ys =? length xs)%nat then
    mapM (fun '(y, x) =>
            r ← py_index (shape0 img) y;
            c ← py_index (shape1 img) x;
            row ← at_index img r;
            at_index row c)
         (zip ys xs)
  else Raise IndexError.

(** [a[idx] = vals] for an array [idx] of positions: the assignments are
    made in order, in place. *)
Fixpoint np_setitem {A} (a : list A) (idx : list nat) (vals : list A)
  : result (list A) :=
  match idx, vals with
  | [], [] => Ok a
  | i :: idx', v :: vals' =>
      if decide (i < length a)%nat then np_setitem (<[i:=v]> a) idx' vals'
      else Raise IndexError
  | _, _ => Raise ValueError
  end.

(** [l[mask]] for a boolean mask of the length of [l]. *)
Fixpoint compress {A} (mask : list bool) (l : list A) : list A :=
  match mask, l with
  | b :: mask', x :: l' => if b then x :: compress mask' l' else compress mask' l'
  | _, _ => []
  end.

(** [m[:, mask]]: the mask must be as long as the second axis. *)
Definition np_compress_cols {A} (m : matrix A) (mask : list bool)
  : result (matrix A) :=
  if (length mask =? shape1 m)%nat then Ok (map (compress mask) m)
  else Raise IndexError.

(** [np.sum(m, axis=0)] *)
Definition np_sum_axis0 (m : matrix Z) : list Z :=
  foldl (zip_with Z.add) (replicate (shape1 m) 0) m.

Definition Z_of_bool (b : bool) : Z := if b then 1 else 0.

(* ===================================================================== *)
(** * [voxeling.py] *)
(* ===================================================================== *)

Section Voxeling.
Context {F : Type} `{Float64 F}.

(** [np.ones(n)] *)
Definition np_ones (n : nat) : list F := replicate n (f_of_int 1).

(** The scalar product of a row and a column, summed from the left.
    (The order in which the four products are summed is the BLAS
    routine's; no theorem below depends on it.) *)
Definition dot (u v : list F) : F :=
  foldl f_add (f_of_int 0) (zip_with f_mul u v).

(** [a @ b]: every row of [a] must be as long as [b] has rows. *)
Definition np_matmul (a b : matrix F) : result (matrix F) :=
  if forallb (fun r => length r =? shape0 b)%nat a
  then Ok (map (fun r => map (dot r) (transpose b)) a)
  else Raise ValueError.

(** [m /= m[-1, :]].  NumPy copies the overlapping operand first, so
    every row, the last included, is divided by the last row as it was
    before the assignment. *)
Definition np_idiv_last_row (m : matrix F) : result (matrix F) :=
  d ← np_row m (-1); Ok (map (fun r => zip_with f_div r d) m).

(** [np.round(m).astype(int)] *)
Definition np_round_astype_int (m : matrix F) : matrix Z :=
  map (map f_to_int) (map (map f_rint) m).

Definition _min_max_scale (arr : list Z) (min_value max_value : F)
  : result (list F) :=
  lo ← np_min arr;
  hi ← np_max arr;
  Ok (map (fun v =>
             f_add min_value
               (f_div (f_mul (f_of_int (v - lo)) (f_sub max_value min_value))
                      (f_of_int (hi - lo))))
          arr).

Definition get_voxel_grid_points (mesh_grid_size : Z)
    (x_min x_max y_min y_max z_min z_max : F) : result (matrix F) :=
  let '(x, y, z) := np_meshgrid3 (np_arange mesh_grid_size)
                                 (np_arange mesh_grid_size)
                                 (np_arange mesh_grid_size) in
  let '(x, y, z) := (np_flatten3 x, np_flatten3 y, np_flatten3 z) in
  x ← _min_max_scale x x_min x_max;
  y ← _min_max_scale y y_min y_max;
  z ← _min_max_scale z z_min z_max;
  np_vstack [x; y; z; np_ones (length x)].

Definition get_pixel_points (ppm points : matrix F) : result (matrix Z) :=
  points_2d ← np_matmul ppm points;
  points_2d ← np_idiv_last_row points_2d;
  Ok (np_round_astype_int points_2d).

(** The body of the loop of
    [get_voxel_points_projection_is_in_images_mask]: the votes of one
    view. *)
Definition points_in_mask_of_view (ppm : matrix F) (img : matrix Z)
    (voxel_points : matrix F) : result (list Z) :=
  let image_width := Z.of_nat (shape1 img) in
  let image_height := Z.of_nat (shape0 img) in
  points_2d ← get_pixel_points ppm voxel_points;
  px ← np_row points_2d 0;
  let x_in_image :=
    zip_with andb (map (fun v => 0 <=? v) px) (map (fun v => v <? image_width) px) in
  py ← np_row points_2d 1;
  let y_in_image :=
    zip_with andb (map (fun v => 0 <=? v) py) (map (fun v => v <? image_height) py) in
  let points_in_image := zip_with andb x_in_image y_in_image in
  let indices_in_image := np_where points_in_image in
  let points_in_mask := replicate (shape1 points_2d) 0 in
  points_in_image_coords ←
    np_take_cols (np_drop_last_row points_2d) indices_in_image;
  ys ← np_row points_in_image_coords 1;
  xs ← np_row points_in_image_coords 0;
  res ← np_getitem2 img ys xs;
  let res := map (fun v => negb (v =? 0)) res in
  np_setitem points_in_mask indices_in_image (map Z_of_bool res).

Definition get_voxel_points_projection_is_in_images_mask
    (images_masks : list (matrix Z)) (ppms : list (matrix F))
    (voxel_points : matrix F) : result (matrix Z) :=
  voxel_points_in_mask ←
    mapM (fun '(ppm, img) => points_in_mask_of_view ppm img voxel_points)
         (zip ppms images_masks);
  np_vstack voxel_points_in_mask.

Definition get_voxel_points_occupancy (voxel_points_in_masks : matrix Z)
  : list Z :=
  np_sum_axis0 voxel_points_in_masks.

Definition get_voxel_points_by_minimum_occupancy
    (voxel_points : matrix F) (occupancy : list Z) (min_occupancy : Z)
  : result (matrix F) :=
  np_compress_cols voxel_points (map (fun o => min_occupancy <=? o) occupancy).

End Voxeling.

(* ===================================================================== *)
(** * [processing.py]: cropping and padding *)
(* ===================================================================== *)

(** An image is a three-dimensional array (rows, columns, channels).  Its
    shape is recorded next to its items, as NumPy does, so that an image
    with no row still has a width. *)
Record image : Type := Image {
  im_rows : nat;
  im_cols : nat;
  im_chans : nat;
  im_items : list (matrix Z)
}.

Definition image_wf (img : image) : Prop :=
  length (im_items img) = im_rows img /\
  Forall (fun row => length row = im_cols img /\
                     Forall (fun px => length px = im_chans img) row)
         (im_items img).

(** Python's resolution of one bound of a slice of a sequence of length
    [n]: a negative bound counts from the end, and the result is clipped
    to [0 .. n]. *)
Definition py_slice_bound (n : nat) (i : Z) : nat :=
  if i <? 0 then Z.to_nat (Z.max (i + Z.of_nat n) 0)
  else Z.to_nat (Z.min i (Z.of_nat n)).

(** The number of items of [a[start:stop]] when [a] has [n] items. *)
Definition py_slice_len (n : nat) (start stop : Z) : nat :=
  (py_slice_bound n stop - py_slice_bound n start)%nat.

(** [a[start:stop]] *)
Definition py_slice {A} (a : list A) (start stop : Z) : list A :=
  take (py_slice_len (length a) start stop)
       (drop (py_slice_bound (length a) start) a).

(** [img[r0:r1, c0:c1]] *)
Definition np_slice2 (img : image) (r0 r1 c0 c1 : Z) : image :=
  {| im_rows := py_slice_len (im_rows img) r0 r1;
     im_cols := py_slice_len (im_cols img) c0 c1;
     im_chans := im_chans img;
     im_items := map (fun row => py_slice row c0 c1) (py_slice (im_items img) r0 r1) |}.

Definition get_cropped_images (images : list image) (top bottom left right : Z)
  : list image :=
  match images with
  | [] => images
  | img0 :: _ =>
      let image_height := Z.of_nat (im_rows img0) in
      let image_width := Z.of_nat (im_cols img0) in
      map (fun img => np_slice2 img top (image_height - bottom)
                                    left (image_width - right))
          images
  end.

(** A two-dimensional array with its shape: a mask, or one channel of an
    image. *)
Record gray : Type := Gray {
  g_rows : nat;
  g_cols : nat;
  g_items : matrix Z
}.

Definition gray_wf (g : gray) : Prop :=
  length (g_items g) = g_rows g /\
  Forall (fun row => length row = g_cols g) (g_items g).

(** ** OpenCV through its Python bindings *)

(** An array as a function of [cv2] receives and returns it: of two
    dimensions (a mask, an image of one channel) or of three. *)
Inductive ndarray : Type :=
  | Arr2 (g : gray)
  | Arr3 (img : image).

Definition nd_rows (a : ndarray) : nat :=
  match a with Arr2 g => g_rows g | Arr3 img => im_rows img end.
Definition nd_cols (a : ndarray) : nat :=
  match a with Arr2 g => g_cols g | Arr3 img => im_cols img end.

(** [CV_CN_MAX], the greatest number of channels of a [cv::Mat]. *)
Definition CV_CN_MAX : nat := 512.

(** The number of dimensions of the [cv::Mat] that the bindings make of
    an array.  The last axis of an array of three dimensions is read as
    the channels of a matrix of two dimensions when it has at most
    [CV_CN_MAX] items; a longer one gives a matrix of three dimensions
    and one channel. *)
Definition cv_dims (a : ndarray) : nat :=
  match a with
  | Arr2 _ => 2
  | Arr3 img => if (im_chans img <=? CV_CN_MAX)%nat then 2 else 3
  end.

(** The matrix of two dimensions that the bindings make of an array,
    as rows of pixels of [channels] numbers: an array of two dimensions
    has one channel.  (An array whose last axis is empty has no matrix
    type; what the bindings do with it is not documented, the model
    takes them to refuse it, and the theorems below are about arrays
    with channels.  Of an array that [cv_dims] gives three dimensions
    the functions below only look at the number of dimensions.) *)
Definition cv_mat (a : ndarray) : result image :=
  match a with
  | Arr2 g =>
      Ok {| im_rows := g_rows g; im_cols := g_cols g; im_chans := 1;
            im_items := map (map (fun v => [v])) (g_items g) |}
  | Arr3 img => if (1 <=? im_chans img)%nat then Ok img else Raise CvError
  end.

(** The array that the bindings return for a matrix of two dimensions:
    a matrix of one channel comes back as an array of two dimensions,
    without a last axis of length 1. *)
Definition cv_ndarray (m : image) : ndarray :=
  if (im_chans m =? 1)%nat
  then Arr2 {| g_rows := im_rows m; g_cols := im_cols m;
               g_items := map (map (fun px => nth 0 px 0)) (im_items m) |}
  else Arr3 m.

(** The pixel that [cv.copyMakeBorder] writes in the margins.  [value]
    is read as a [cv::Scalar], four numbers of which the missing ones
    are 0.  Up to four channels take the first numbers of the scalar;
    more channels need the four numbers to be equal (a [CV_Assert]) and
    all take that number. *)
Definition cv_border_pixel (chans : nat) (value : list Z) : result (list Z) :=
  let scalar := take 4 (value ++ replicate 4 0) in
  if (chans <=? 4)%nat then Ok (take chans scalar)
  else
    let v0 := nth 0 scalar 0 in
    if forallb (Z.eqb v0) scalar then Ok (replicate chans v0)
    else Raise CvError.

(** A matrix with [t] rows above, [b] below, [l] columns to the left
    and [r] to the right, all of the pixel [px]. *)
Definition mat_with_border (m : image) (t b l r : nat) (px : list Z) : image :=
  let cols := (im_cols m + l + r)%nat in
  let border_row := replicate cols px in
  {| im_rows := im_rows m + t + b;
     im_cols := cols;
     im_chans := im_chans m;
     im_items :=
       replicate t border_row
       ++ map (fun row => replicate l px ++ row ++ replicate r px) (im_items m)
       ++ replicate b border_row |}.

(** [cv.copyMakeBorder(src, top, bottom, left, right, cv.BORDER_CONSTANT,
    value)], after OpenCV's documentation and [copy.cpp].  Its
    [CV_Assert] wants the four margins not to be negative and the source
    to have at most two dimensions; the result has [rows + top + bottom]
    rows and [cols + left + right] columns, and the margins hold the
    border pixel. *)
Definition cv_copyMakeBorder_constant (src : ndarray) (top bottom left right : Z)
    (value : list Z) : result ndarray :=
  m ← cv_mat src;
  if (0 <=? top) && (0 <=? bottom) && (0 <=? left) && (0 <=? right)
     && (cv_dims src <=? 2)%nat
  then
    px ← cv_border_pixel (im_chans m) value;
    Ok (cv_ndarray (mat_with_border m (Z.to_nat top) (Z.to_nat bottom)
                                      (Z.to_nat left) (Z.to_nat right) px))
  else Raise CvError.

Definition get_images_to_original_dimensions (images : list ndarray)
    (top bottom left right : Z) : result (list ndarray) :=
  mapM (fun img => cv_copyMakeBorder_constant img top bottom left right [0; 0; 0])
       images.

(** [img[..., channel]]: the index is checked against the last axis,
    whatever the other two. *)
Definition np_last_axis_item (img : image) (channel : Z) : result gray :=
  c ← py_index (im_chans img) channel;
  items ← mapM (mapM (fun px => at_index px c)) (im_items img);
  Ok {| g_rows := im_rows img; g_cols := im_cols img; g_items := items |}.

Definition get_images_channel (images : list image) (channel : Z)
  : result (list gray) :=
  mapM (fun img => np_last_axis_item img channel) images.

(** The conjunction of two matrices of one shape under a mask, into a
    matrix that was cleared: a pixel is the conjunction of the two
    pixels where the mask is not zero, and stays zero elsewhere. *)
Definition mat_and_masked (m1 m2 : image) (mask : gray) : image :=
  {| im_rows := im_rows m1;
     im_cols := im_cols m1;
     im_chans := im_chans m1;
     im_items :=
       zip_with (fun rows mrow =>
                   zip_with (fun pxs m =>
                               if m =? 0 then map (fun _ => 0) pxs.1
                               else zip_with Z.land pxs.1 pxs.2)
                            (zip rows.1 rows.2) mrow)
                (zip (im_items m1) (im_items m2)) (g_items mask) |}.

(** [cv.bitwise_and(src1, src2, mask=mask)] into a new array, after
    OpenCV's documentation and [arithm.cpp]: the two sources must be
    matrices of one size and type, and the mask, an array of two
    dimensions, must have the size of the sources (a [CV_Assert]), which
    a matrix of three dimensions has not; the destination is cleared
    when it is created, and receives the conjunction where the mask is
    not zero. *)
Definition cv_bitwise_and_masked (src1 src2 : ndarray) (mask : gray)
  : result ndarray :=
  m1 ← cv_mat src1;
  m2 ← cv_mat src2;
  if (cv_dims src1 <=? 2)%nat && (cv_dims src2 <=? 2)%nat
     && (im_rows m1 =? im_rows m2)%nat && (im_cols m1 =? im_cols m2)%nat
     && (im_chans m1 =? im_chans m2)%nat
     && (g_rows mask =? im_rows m1)%nat && (g_cols mask =? im_cols m1)%nat
  then Ok (cv_ndarray (mat_and_masked m1 m2 mask))
  else Raise CvError.

Definition get_segmented_images (images : list ndarray) (masks : list gray)
  : result (list ndarray) :=
  mapM (fun '(img, mask) => cv_bitwise_and_masked img img mask) (zip images masks).

(* ===================================================================== *)
(** * [data_saver.py]: the axes of the rectilinear grid *)
(* ===================================================================== *)

(** The items of [a[start:stop:step]], as Python adjusts the bounds of
    a slice of a sequence of [n] items: a missing bound is the end that
    the step walks from or to, a negative one counts from the end, and
    both are clipped. *)
Definition py_adjust_bound (n : Z) (step : Z) (b : option Z) (is_start : bool) : Z :=
  let lower := if step <? 0 then -1 else 0 in
  let upper := if step <? 0 then n - 1 else n in
  match b with
  | None => if xorb is_start (step <? 0) then lower else upper
  | Some i =>
      if i <? 0 then Z.max (i + n) lower else Z.min i upper
  end.

Definition py_slice_indices (n : nat) (start stop : option Z) (step : Z)
  : result (list Z) :=
  if step =? 0 then Raise ValueError
  else
    let a := py_adjust_bound (Z.of_nat n) step start true in
    let b := py_adjust_bound (Z.of_nat n) step stop false in
    let len :=
      if step <? 0 then (if b <? a then (a - b - 1) / (- step) + 1 else 0)
      else (if a <? b then (b - a - 1) / step + 1 else 0) in
    Ok (map (fun i => a + Z.of_nat i * step) (seq 0 (Z.to_nat len))).

Definition py_slice_step {A} (a : list A) (start stop : option Z) (step : Z)
  : result (list A) :=
  idx ← py_slice_indices (length a) start stop step;
  mapM (fun i => at_index a (Z.to_nat i)) idx.

(** The three coordinate arrays that [save_voxels_as_rectilinear_grid]
    takes from the grid, under the names the source gives them, before
    it hands them to VTK (the conversion to VTK arrays and the writing
    of the file are left out). *)
Definition rectilinear_grid_axes {F : Type} (voxel_points : matrix F)
    (mesh_grid_size : Z) : result (list F * list F * list F) :=
  r0 ← np_row voxel_points 0;
  y ← py_slice_step r0 None (Some (mesh_grid_size * mesh_grid_size)) mesh_grid_size;
  r1 ← np_row voxel_points 1;
  z ← py_slice_step r1 None None (mesh_grid_size * mesh_grid_size);
  r2 ← np_row voxel_points 2;
  x ← py_slice_step r2 None (Some mesh_grid_size) 1;
  Ok (x, y, z).

(* ===================================================================== *)
(** * The reference layer: arrays in a store *)
(* ===================================================================== *)

(** The arrays that the functions receive, return or assign to in place
    are objects of a store, named by locations; a new array takes the
    next free location.  The boolean and index arrays of the voter,
    which are built, read once and dropped, stay plain values.  An
    indexed assignment that raises is taken to have written nothing:
    it only ever targets an array that the same call allocated. *)

Module Ref.
Section Store.
Context {F : Type} `{Float64 F}.

(** What a location holds. *)
Inductive obj : Type :=
  | OFloat (m : matrix F)   (* a two-dimensional float64 array *)
  | OInt (m : matrix Z)     (* a two-dimensional integer array *)
  | OVec (v : list Z).      (* a one-dimensional array *)

Definition loc : Type := nat.
Definition store : Type := list obj.

(** Computations that read and write the store and may raise; the
    store survives an exception. *)
Definition M (A : Type) : Type := store -> result A * store.

Definition ret {A} (a : A) : M A := fun s => (Ok a, s).
Definition bind {A B} (m : M A) (k : A -> M B) : M B := fun s =>
  match m s with
  | (Ok a, s') => k a s'
  | (Raise e, s') => (Raise e, s')
  end.
Definition lift {A} (r : result A) : M A := fun s => (r, s).

(** A new array. *)
Definition alloc (o : obj) : M loc := fun s => (Ok (length s), s ++ [o]).

Definition load (l : loc) : M obj := fun s =>
  match s !! l with
  | Some o => (Ok o, s)
  | None => (Raise TypeError, s)
  end.

(** An assignment in place. *)
Definition write (l : loc) (o : obj) : M unit := fun s =>
  if decide (l < length s)%nat then (Ok tt, <[l:=o]> s)
  else (Raise TypeError, s).

Definition as_float (o : obj) : result (matrix F) :=
  match o with OFloat m => Ok m | _ => Raise TypeError end.
Definition as_int (o : obj) : result (matrix Z) :=
  match o with OInt m => Ok m | _ => Raise TypeError end.
Definition as_vec (o : obj) : result (list Z) :=
  match o with OVec v => Ok v | _ => Raise TypeError end.

Definition load_float (l : loc) : M (matrix F) := bind (load l) (fun o => lift (as_float o)).
Definition load_int (l : loc) : M (matrix Z) := bind (load l) (fun o => lift (as_int o)).
Definition load_vec (l : loc) : M (list Z) := bind (load l) (fun o => lift (as_vec o)).

Notation "x <- m ;; k" := (bind m (fun x => k))
  (at level 100, m at next level, right associativity).
Notation "m ;; k" := (bind m (fun _ => k))
  (at level 100, right associativity).

Fixpoint for_each {A B} (f : A -> M B) (l : list A) : M (list B) :=
  match l with
  | [] => ret []
  | a :: l' => b <- f a;; bs <- for_each f l';; ret (b :: bs)
  end.

Definition get_pixel_points (ppm points : loc) : M loc :=
  a <- load_float ppm;;
  b <- load_float points;;
  c <- lift (np_matmul a b);;
  points_2d <- alloc (OFloat c);;                   (* ppm @ points *)
  m <- load_float points_2d;;
  m <- lift (np_idiv_last_row m);;
  write points_2d (OFloat m);;                      (* points_2d /= ... *)
  m <- load_float points_2d;;
  rounded <- alloc (OFloat (map (map f_rint) m));;  (* np.round(points_2d) *)
  m <- load_float rounded;;
  alloc (OInt (map (map f_to_int) m)).              (* .astype(int) *)

Definition points_in_mask_of_view (ppm img voxel_points : loc) : M loc :=
  mask <- load_int img;;
  let image_width := Z.of_nat (shape1 mask) in
  let image_height := Z.of_nat (shape0 mask) in
  points_2d <- get_pixel_points ppm voxel_points;;
  p2d <- load_int points_2d;;
  px <- lift (np_row p2d 0);;
  let x_in_image :=
    zip_with andb (map (fun v => 0 <=? v) px) (map (fun v => v <? image_width) px) in
  py <- lift (np_row p2d 1);;
  let y_in_image :=
    zip_with andb (map (fun v => 0 <=? v) py) (map (fun v => v <? image_height) py) in
  let points_in_image := zip_with andb x_in_image y_in_image in
  let indices_in_image := np_where points_in_image in
  points_in_mask <- alloc (OVec (replicate (shape1 p2d) 0));;   (* np.zeros *)
  points_in_image_coords <-
    lift (np_take_cols (np_drop_last_row p2d) indices_in_image);;
  ys <- lift (np_row points_in_image_coords 1);;
  xs <- lift (np_row points_in_image_coords 0);;
  mask <- load_int img;;
  res <- lift (np_getitem2 mask ys xs);;
  let res := map (fun v => negb (v =? 0)) res in
  v <- load_vec points_in_mask;;
  v <- lift (np_setitem v indices_in_image (map Z_of_bool res));;
  write points_in_mask (OVec v);;                   (* points_in_mask[...] = res *)
  ret points_in_mask.

Definition get_voxel_points_projection_is_in_images_mask
    (images_masks ppms : list loc) (voxel_points : loc) : M loc :=
  voxel_points_in_mask <-
    for_each (fun '(ppm, img) => points_in_mask_of_view ppm img voxel_points)
             (zip ppms images_masks);;
  rows <- for_each load_vec voxel_points_in_mask;;
  stacked <- lift (np_vstack rows);;
  alloc (OInt stacked).

(** A sequence of calls of the voter, each with its own arguments; a
    call that raises does not stop the ones after it. *)
Fixpoint voter_calls (calls : list (list loc * list loc * loc)) : M unit :=
  match calls with
  | [] => ret tt
  | (images_masks, ppms, voxel_points) :: calls' => fun s =>
      voter_calls calls'
        (snd (get_voxel_points_projection_is_in_images_mask
                images_masks ppms voxel_points s))
  end.

End Store.
End Ref.

Arguments Ref.obj F : clear implicits.
Arguments Ref.store F : clear implicits.
Arguments Ref.M F A : clear implicits.

(* ===================================================================== *)
(** * Notions used to state the properties *)
(* ===================================================================== *)

(** An array all of whose rows are as long as the first. *)
Definition is_rect {A} (m : matrix A) : Prop :=
  Forall (fun row => length row = shape1 m) m.

(** [mask[py, px]] for indices known to be in range (0 elsewhere). *)
Definition mask_at (img : matrix Z) (py px : Z) : Z :=
  nth (Z.to_nat px) (nth (Z.to_nat py) img []) 0.

(** A pixel is in the frame of an [h] by [w] image. *)
Definition in_frame (h w : nat) (px py : Z) : bool :=
  ((0 <=? px) && (px <? Z.of_nat w)) && ((0 <=? py) && (py <? Z.of_nat h)).

Section PointwiseSpec.
Context {F : Type} `{Float64 F}.

(** The pixel coordinate that the row [r] of a projection matrix gives
    to the homogeneous point [c], [w] being the last row of the
    matrix: product, perspective division, rounding, conversion. *)
Definition pixel_coord (r w c : list F) : Z :=
  f_to_int (f_rint (f_div (dot r c) (dot w c))).


(** The vote of one view for one homogeneous point. *)
Definition vote_of_point (ppm : matrix F) (img : matrix Z) (c : list F) : Z :=
  let w := List.last ppm [] in
  let px := pixel_coord (nth 0 ppm []) w c in
  let py := pixel_coord (nth 1 ppm []) w c in
  if in_frame (shape0 img) (shape1 img) px py
  then Z_of_bool (negb (mask_at img py px =? 0))
  else 0.

(** The least and the greatest item of an array. *)
Definition observed_min (l : list F) : option F :=
  match l with
  | [] => None
  | x :: xs => Some (foldl (fun a b => if f_leb b a then b else a) x xs)
  end.
Definition observed_max (l : list F) : option F :=
  match l with
  | [] => None
  | x :: xs => Some (foldl (fun a b => if f_leb a b then b else a) x xs)
  end.
End PointwiseSpec.

(** Exact matrices from rational ones. *)
Definition qmat (m : matrix Q) : matrix xq := map (map Fin) m.


(** [m[r][i]] *)
Definition entry {A} (m : matrix A) (r i : nat) : option A :=
  m !! r ≫= (.!! i).

(** A camera that reads [x], [y] and [w] off a homogeneous point. *)
Definition sample_ppm : matrix Q :=
  [[1; 0; 0; 0]; [0; 1; 0; 0]; [0; 0; 0; 1]]%Q.

(** Four points: two inside a 2 by 3 image, one to its right, and one
    whose last coordinate is zero. *)
Definition sample_points : matrix Q :=
  [[0; 1; 5 # 2; 7]; [0; 1; 0; 1]; [0; 0; 0; 0]; [1; 1; 1; 0]]%Q.

Definition sample_mask : matrix Z := [[255; 0; 255]; [0; 255; 0]].


(** A 3 by 2 image of one channel. *)
Definition sample_image : image :=
  Image 3 2 1 [[[1]; [2]]; [[3]; [4]]; [[5]; [6]]].

(** A 3 by 2 image of three channels. *)
Definition sample_bgr_image : image :=
  Image 3 2 3 [[[1; 2; 3]; [4; 5; 6]];
               [[7; 8; 9]; [10; 11; 12]];
               [[13; 14; 15]; [16; 17; 18]]].

(** C10 as it is stated: the offsets are only constrained by their sums. *)
Definition crop_pad_roundtrip_as_stated (images : list image)
    (top bottom left right : Z) (H W : nat) : Prop :=
  images <> [] ->
  Forall (fun im => image_wf im /\ im_rows im = H /\ im_cols im = W /\
                    im_chans im = 3%nat)
         images ->
  0 <= top + bottom <= Z.of_nat H -> 0 <= left + right <= Z.of_nat W ->
  exists out,
    get_images_to_original_dimensions
      (map Arr3 (get_cropped_images images top bottom left right))
      top bottom left right
      = Ok out /\
    Forall (fun a => nd_rows a = H /\ nd_cols a = W) out.

(** What assigning [G i] at every position [i] selected by [b] leaves
    in an array, positions being counted from [k]. *)
Fixpoint where_fill {A} (G : nat -> A) (k : nat) (b : list bool) (a : list A) : list A :=
  match b, a with
  | bi :: b', x :: a' => (if bi then G k else x) :: where_fill G (S k) b' a'
  | _, _ => a
  end.

(** The three arrays of [np.meshgrid] are instances of one scheme. *)
Definition mesh {A} (h : A -> A -> A -> A) (xs ys zs : list A)
  : list (matrix A) :=
  map (fun y => map (fun x => map (fun z => h x y z) zs) xs) ys.

(** One of the three coordinate projections. *)
Definition is_proj (h : Z -> Z -> Z -> Z) : Prop :=
  h = (fun x _ _ => x) \/ h = (fun _ y _ => y) \/ h = (fun _ _ z => z).

(** What [_min_max_scale] makes of the index [v] of a grid of size [S]. *)
Definition grid_scale {F : Type} `{Float64 F} (S : Z) (lo hi : F) (v : Z) : F :=
  f_add lo (f_div (f_mul (f_of_int (v - 0)) (f_sub hi lo)) (f_of_int (S - 1 - 0))).

(** The exact value of [grid_scale]. *)
Definition grid_scale_q (S : Z) (lo hi : Q) (v : Z) : Q :=
  (lo + (inject_Z (v - 0) * (hi + - lo)) / inject_Z (S - 1 - 0))%Q.

(** The least and greatest items of an axis are the bounds [lo] and
    [hi], up to the equality [eqF] of the scalars. *)
Definition axis_spans {F : Type} `{Float64 F} (eqF : F -> F -> Prop)
    (row : list F) (lo hi : F) : Prop :=
  exists a b, observed_min row = Some a /\ eqF a lo /\
              observed_max row = Some b /\ eqF b hi.

(** C3 as the specification states it, over scalars compared by [eqF]. *)
Definition grid_as_specified {F : Type} `{Float64 F} (eqF : F -> F -> Prop)
    (S : Z) (x_min x_max y_min y_max z_min z_max : F) : Prop :=
  exists xs ys zs,
    get_voxel_grid_points S x_min x_max y_min y_max z_min z_max
      = Ok [xs; ys; zs; replicate (Z.to_nat (S ^ 3)) (f_of_int 1)] /\
    length xs = Z.to_nat (S ^ 3) /\
    length ys = Z.to_nat (S ^ 3) /\
    length zs = Z.to_nat (S ^ 3) /\
    axis_spans eqF xs x_min x_max /\
    axis_spans eqF ys y_min y_max /\
    axis_spans eqF zs z_min z_max.

(** An exact value that is zero, and a binary64 number that is a zero
    of either sign. *)
Definition xq_is_zero (y : xq) : Prop := xq_eq y (Fin 0).
Definition b64_is_zero (y : float) : Prop := PrimFloat.eqb y 0%float = true.

(** C6, over an arithmetic [F] whose zero divisors are told by
    [is_zero]: when the third projected component of voxel [j] under the
    camera of view [k] is zero, the voter still returns its matrix of
    votes, the vote of view [k] for voxel [j] is 0, the votes for every
    other voxel, in every view, are what they are for any grid that
    differs from this one at voxel [j] only, and the votes of every
    other view, for every voxel, are what they are for any cameras that
    differ from these at view [k] only. *)
Definition zero_divisor_policy (F : Type) `{Float64 F} (is_zero : F -> Prop)
  : Prop :=
  forall (images_masks : list (matrix Z)) (ppms : list (matrix F))
         (voxel_points : matrix F) (M k j : nat) (ppm : matrix F) (c : list F),
    Forall is_rect images_masks -> Forall (rect 3 4) ppms ->
    rect 4 M voxel_points ->
    ppms !! k = Some ppm -> (k < length images_masks)%nat ->
    transpose voxel_points !! j = Some c ->
    is_zero (dot (nth 2 ppm []) c) ->
    exists votes,
      get_voxel_points_projection_is_in_images_mask images_masks ppms voxel_points
        = Ok votes /\
      entry votes k j = Some 0 /\
      (forall voxel_points', rect 4 M voxel_points' ->
         (forall i, i <> j ->
            transpose voxel_points' !! i = transpose voxel_points !! i) ->
         exists votes',
           get_voxel_points_projection_is_in_images_mask
             images_masks ppms voxel_points' = Ok votes' /\
           forall k' i, i <> j -> entry votes' k' i = entry votes k' i) /\
      (forall ppms', Forall (rect 3 4) ppms' -> ppms' <> [] ->
         (forall k', k' <> k -> ppms' !! k' = ppms !! k') ->
         exists votes',
           get_voxel_points_projection_is_in_images_mask
             images_masks ppms' voxel_points = Ok votes' /\
           forall k' i, k' <> k -> entry votes' k' i = entry votes k' i).

(** Equality of binary64 numbers, as [==] decides it. *)
Definition b64_eq (a b : float) : Prop := PrimFloat.eqb a b = true.

(** A computation started in a store of at least [n] objects leaves the
    first [n] objects as they are, does not shrink the store, and
    returns a result satisfying [Q]. *)
Definition framed {F : Type} `{Float64 F} {A} (n : nat) (m : Ref.M F A)
    (Q : A -> Prop) : Prop :=
  forall s : Ref.store F, (n <= length s)%nat ->
    (length s <= length (m s).2)%nat /\
    take n (m s).2 = take n s /\
    forall a, (m s).1 = Ok a -> Q a.

(** The locations [ls] hold the arrays [ms]. *)
Definition holds_floats {F : Type} (s : list (Ref.obj F)) (ls : list Ref.loc)
    (ms : list (matrix F)) : Prop :=
  Forall2 (fun l m => s !! l = Some (Ref.OFloat m)) ls ms.
Definition holds_ints {F : Type} (s : list (Ref.obj F)) (ls : list Ref.loc)
    (ms : list (matrix Z)) : Prop :=
  Forall2 (fun l m => s !! l = Some (Ref.OInt m)) ls ms.
Definition holds_vecs {F : Type} (s : list (Ref.obj F)) (ls : list Ref.loc)
    (vs : list (list Z)) : Prop :=
  Forall2 (fun l v => s !! l = Some (Ref.OVec v)) ls vs.

(* ===================================================================== *)
(** * Lemmas on lists and on the kernels *)
(* ===================================================================== *)

Lemma result_bind_ok {A B} (a : A) (f : A -> result B) : (Ok a ≫= f) = f a.
Proof. reflexivity. Qed.

Lemma result_bind_raise {A B} (e : exn) (f : A -> result B) :
  (Raise e ≫= f) = Raise e.
Proof. reflexivity. Qed.

Section ListFacts.
Context {A B C : Type}.

Lemma mapM_ok_map (f : A -> result B) (g : A -> B) (l : list A) :
  (forall x, x ∈ l -> f x = Ok (g x)) -> mapM f l = Ok (map g l).
Proof.
  induction l as [|x l IH]; intros Hf; [reflexivity|].
  cbn. rewrite (Hf x) by left. cbn.
  rewrite IH; [reflexivity|]. intros y Hy. apply Hf. by right.
Qed.

Lemma mapM_ok_length (f : A -> result B) (l : list A) (r : list B) :
  mapM f l = Ok r -> length r = length l.
Proof.
  revert r. induction l as [|x l IH]; intros r; cbn.
  - intros [= <-]. reflexivity.
  - destruct (f x); cbn; [|discriminate].
    destruct (mapM f l); cbn; [|discriminate].
    intros [= <-]. cbn. f_equal. by apply IH.
Qed.

Lemma mapM_ok_Forall2 (f : A -> result B) (l : list A) (r : list B) :
  mapM f l = Ok r -> Forall2 (fun a b => f a = Ok b) l r.
Proof.
  revert r. induction l as [|x l IH]; intros r; cbn.
  - intros [= <-]. constructor.
  - destruct (f x) eqn:Hx; cbn; [|discriminate].
    destruct (mapM f l); cbn; [|discriminate].
    intros [= <-]. constructor; [done|]. by apply IH.
Qed.

Lemma zip_with_map_diag {D} (f : B -> C -> D) (g : A -> B) (h : A -> C) (l : list A) :
  zip_with f (map g l) (map h l) = map (fun x => f (g x) (h x)) l.
Proof. induction l; cbn; congruence. Qed.

Lemma nth_map_lookup (f : A -> B) (l : list A) (i : nat) (c : A) (d : B) :
  l !! i = Some c -> nth i (map f l) d = f c.
Proof.
  intros Hc. apply nth_lookup_Some. by rewrite list_lookup_fmap, Hc.
Qed.

Lemma length_concat_uniform (k : nat) (l : list (list A)) :
  Forall (fun r => length r = k) l -> length (concat l) = (length l * k)%nat.
Proof.
  induction 1 as [|r l Hr _ IH]; cbn; [reflexivity|].
  rewrite length_app, IH, Hr. reflexivity.
Qed.
End ListFacts.

Section TransposeFacts.
Context {A : Type}.
Implicit Types (m : matrix A) (r : list A).

Lemma transpose_cons r m :
  m <> [] -> transpose (r :: m) = zip_with cons r (transpose m).
Proof. destruct m; [done|reflexivity]. Qed.

Lemma transpose_length n k m :
  (0 < n)%nat -> rect n k m -> length (transpose m) = k.
Proof.
  intros Hn [Hlen Hrows]. revert n Hn Hlen.
  induction Hrows as [|r m Hr Hrows IH]; intros n Hn Hlen; cbn in Hlen; [lia|].
  destruct m as [|r' m].
  - cbn. by rewrite length_map.
  - rewrite transpose_cons by done.
    rewrite length_zip_with, (IH (length (r' :: m))); cbn; [lia|lia|done].
Qed.

(** The [i]-th column holds the [i]-th item of every row. *)
Lemma transpose_lookup n k m i :
  (0 < n)%nat -> rect n k m -> (i < k)%nat ->
  exists c, transpose m !! i = Some c /\ Forall2 (fun row x => row !! i = Some x) m c.
Proof.
  intros Hn [Hlen Hrows] Hi. revert n Hn Hlen.
  induction Hrows as [|r m Hr Hrows IH]; intros n Hn Hlen; cbn in Hlen; [lia|].
  destruct (lookup_lt_is_Some_2 r i) as [x Hx]; [lia|].
  destruct m as [|r' m].
  - exists [x]. cbn. rewrite list_lookup_fmap, Hx. split; [done|].
    by repeat constructor.
  - destruct (IH (length (r' :: m))) as (c & Hc & Hall); [cbn; lia|done|].
    exists (x :: c). rewrite transpose_cons by done.
    generalize dependent (transpose (r' :: m)). intros t _ Hc. split.
    + rewrite lookup_zip_with, Hx. cbn. by rewrite Hc.
    + by constructor.
Qed.
End TransposeFacts.

Section IndexFacts.
Context {A : Type}.

Lemma py_index_nonneg (n : nat) (i : nat) :
  (i < n)%nat -> py_index n (Z.of_nat i) = Ok i.
Proof.
  intros Hi. unfold py_index.
  replace ((0 <=? Z.of_nat i) && (Z.of_nat i <? Z.of_nat n)) with true
    by (symmetry; apply andb_true_iff; split; [apply Z.leb_le|apply Z.ltb_lt]; lia).
  by rewrite Nat2Z.id.
Qed.

Lemma py_index_in_range (n : nat) (i : Z) :
  0 <= i < Z.of_nat n -> py_index n i = Ok (Z.to_nat i).
Proof.
  intros Hi. rewrite <- (Z2Nat.id i) at 1 by lia. apply py_index_nonneg. lia.
Qed.

Lemma py_index_minus_one (n : nat) :
  (0 < n)%nat -> py_index n (-1) = Ok (n - 1)%nat.
Proof.
  intros Hn. unfold py_index. cbn [Z.leb Z.compare andb].
  replace ((- Z.of_nat n <=? -1) && (-1 <? 0)) with true
    by (symmetry; apply andb_true_iff; split; [apply Z.leb_le|apply Z.ltb_lt]; lia).
  f_equal. lia.
Qed.

Lemma at_index_nth (l : list A) (i : nat) (d : A) :
  (i < length l)%nat -> at_index l i = Ok (nth i l d).
Proof.
  intros [x Hx]%lookup_lt_is_Some_2. unfold at_index.
  by rewrite Hx, (nth_lookup_Some _ _ _ _ Hx).
Qed.

Lemma lookup_last_default (l : list A) (d : A) :
  l <> [] -> l !! (length l - 1)%nat = Some (List.last l d).
Proof.
  induction l as [|x [|y l] IH]; intros Hl; [done|reflexivity|].
  change (List.last (x :: y :: l) d) with (List.last (y :: l) d).
  rewrite <- IH by done. cbn. by rewrite Nat.sub_0_r.
Qed.

Lemma last_map_default {B} (f : A -> B) (l : list A) (d : A) (d' : B) :
  l <> [] -> List.last (map f l) d' = f (List.last l d).
Proof.
  induction l as [|x [|y l] IH]; intros Hl; [done|reflexivity|].
  by apply IH.
Qed.

End IndexFacts.

Section RowFacts.
Context {A : Type}.

Lemma np_row_lookup (m : matrix A) (i : nat) (r : list A) :
  m !! i = Some r -> np_row m (Z.of_nat i) = Ok r.
Proof.
  intros Hr. unfold np_row, shape0.
  rewrite py_index_nonneg by (by eapply lookup_lt_Some). cbn.
  unfold at_index. by rewrite Hr.
Qed.

Lemma np_row_last (m : matrix A) :
  m <> [] -> np_row m (-1) = Ok (List.last m []).
Proof.
  intros Hm. unfold np_row, shape0.
  rewrite py_index_minus_one by (destruct m; [done|cbn; lia]). cbn.
  unfold at_index. by rewrite (lookup_last_default m []).
Qed.
End RowFacts.

Section ProjectionFacts.
Context {F : Type} `{Float64 F}.
Implicit Types (ppm points : matrix F).

Lemma np_matmul_ok (a b : matrix F) :
  Forall (fun r => length r = shape0 b) a ->
  np_matmul a b = Ok (map (fun r => map (dot r) (transpose b)) a).
Proof.
  intros Ha. unfold np_matmul.
  replace (forallb _ a) with true; [reflexivity|].
  symmetry. apply Is_true_true, forallb_True.
  eapply Forall_impl; [exact Ha|]. intros r Hr. cbn beta.
  apply Is_true_true, Nat.eqb_eq, Hr.
Qed.

(** The projection, entry by entry: every row of the matrix yields a
    row of pixel coordinates, the last one included. *)
Lemma get_pixel_points_pointwise ppm points :
  ppm <> [] ->
  Forall (fun r => length r = shape0 points) ppm ->
  get_pixel_points ppm points =
    Ok (map (fun r => map (pixel_coord r (List.last ppm [])) (transpose points)) ppm).
Proof.
  intros Hne Hppm. unfold get_pixel_points.
  rewrite np_matmul_ok, result_bind_ok by done.
  unfold np_idiv_last_row.
  rewrite np_row_last, !result_bind_ok by (by destruct ppm).
  f_equal. unfold np_round_astype_int. rewrite !map_map.
  apply map_ext. intros r.
  rewrite (last_map_default (fun r => map (dot r) (transpose points)) ppm [])
    by done.
  cbv beta. rewrite zip_with_map_diag, !map_map. reflexivity.
Qed.

End ProjectionFacts.

Section ScatterFacts.
Context {A : Type}.

Lemma np_where_from_bound (k : nat) (b : list bool) (i : nat) :
  i ∈ np_where_from k b ->
  (k <= i < k + length b)%nat /\ b !! (i - k)%nat = Some true.
Proof.
  revert k. induction b as [|bi b IH]; intros k; cbn; [by intros ?%elem_of_nil|].
  destruct bi.
  - intros [->|Hi]%elem_of_cons.
    + rewrite Nat.sub_diag. split; [lia|reflexivity].
    + destruct (IH _ Hi) as [Hk Hb]. split; [lia|].
      replace (i - k)%nat with (S (i - S k)) by lia. exact Hb.
  - intros Hi. destruct (IH _ Hi) as [Hk Hb]. split; [lia|].
    replace (i - k)%nat with (S (i - S k)) by lia. exact Hb.
Qed.

Lemma np_setitem_where (G : nat -> A) (b : list bool) (pre a : list A) :
  (length b <= length a)%nat ->
  np_setitem (pre ++ a) (np_where_from (length pre) b)
             (map G (np_where_from (length pre) b))
  = Ok (pre ++ where_fill G (length pre) b a).
Proof.
  revert pre a. induction b as [|bi b IH]; intros pre a Hlen; [reflexivity|].
  destruct a as [|x a]; [cbn in Hlen; lia|]. cbn in Hlen.
  assert (Hstep : forall y, np_setitem ((pre ++ [y]) ++ a)
                   (np_where_from (S (length pre)) b)
                   (map G (np_where_from (S (length pre)) b))
                 = Ok (pre ++ y :: where_fill G (S (length pre)) b a)).
  { intros y. specialize (IH (pre ++ [y]) a).
    rewrite length_app, Nat.add_1_r in IH. rewrite IH by lia.
    by rewrite <- app_assoc. }
  destruct bi; cbn.
  - rewrite decide_True by (rewrite length_app; cbn; lia).
    rewrite insert_app_r_alt, Nat.sub_diag by lia. cbn.
    rewrite <- Hstep, <- app_assoc. reflexivity.
  - rewrite <- Hstep, <- app_assoc. reflexivity.
Qed.

Lemma where_fill_map {B} (G : nat -> A) (d : A) (g : B -> A) (p : B -> bool)
    (k : nat) (cols : list B) :
  (forall j c, cols !! j = Some c -> p c = true -> G (k + j)%nat = g c) ->
  where_fill G k (map p cols) (replicate (length cols) d)
  = map (fun c => if p c then g c else d) cols.
Proof.
  revert k. induction cols as [|c cols IH]; intros k HG; [reflexivity|].
  cbn. f_equal.
  - destruct (p c) eqn:Hp; [|reflexivity].
    rewrite <- (HG 0%nat c); [by rewrite Nat.add_0_r|reflexivity|done].
  - apply IH. intros j c' Hj Hp. rewrite <- (HG (S j) c'); [f_equal; lia|done..].
Qed.

Lemma np_setitem_Forall (P : A -> Prop) (a : list A) idx vals r :
  Forall P a -> Forall P vals -> np_setitem a idx vals = Ok r -> Forall P r.
Proof.
  revert a vals. induction idx as [|i idx IH]; intros a vals Ha Hv; cbn.
  - destruct vals; [by intros [= <-]|discriminate].
  - destruct vals as [|v vals]; [discriminate|].
    destruct (decide _); [|discriminate].
    apply Forall_cons in Hv as [Hv Hvals].
    apply IH; [|done]. by apply Forall_insert.
Qed.

Lemma np_setitem_length (a : list A) idx vals r :
  np_setitem a idx vals = Ok r -> length r = length a.
Proof.
  revert a vals. induction idx as [|i idx IH]; intros a vals; cbn.
  - destruct vals; [by intros [= <-]|discriminate].
  - destruct vals as [|v vals]; [discriminate|].
    destruct (decide _); [|discriminate].
    intros Hr%IH. by rewrite length_insert in Hr.
Qed.
End ScatterFacts.

Section VoterFacts.
Context {F : Type} `{Float64 F}.
Implicit Types (ppm points : matrix F) (img : matrix Z).

Lemma in_frame_lookup img (px py : Z) :
  is_rect img -> in_frame (shape0 img) (shape1 img) px py = true ->
  (r ← py_index (shape0 img) py;
   c ← py_index (shape1 img) px;
   row ← at_index img r;
   at_index row c) = Ok (mask_at img py px).
Proof.
  intros Hrect Hin. unfold in_frame in Hin.
  apply andb_true_iff in Hin as [[Hx1 Hx2]%andb_true_iff [Hy1 Hy2]%andb_true_iff].
  apply Z.leb_le in Hx1, Hy1. apply Z.ltb_lt in Hx2, Hy2.
  rewrite !py_index_in_range by lia. rewrite !result_bind_ok.
  unfold shape0 in Hy2.
  destruct (lookup_lt_is_Some_2 img (Z.to_nat py)) as [row Hrow]; [lia|].
  unfold at_index. rewrite Hrow, result_bind_ok.
  assert (Hlen : length row = shape1 img).
  { eapply (proj1 (Forall_forall _ _) Hrect), list_elem_of_lookup_2, Hrow. }
  destruct (lookup_lt_is_Some_2 row (Z.to_nat px)) as [v Hv]; [lia|].
  rewrite Hv. unfold mask_at.
  by rewrite (nth_lookup_Some _ _ _ _ Hrow), (nth_lookup_Some _ _ _ _ Hv).
Qed.

(** The votes of one view, voxel by voxel. *)
Lemma points_in_mask_of_view_pointwise ppm img points (M : nat) :
  rect 3 4 ppm -> rect 4 M points -> is_rect img ->
  points_in_mask_of_view ppm img points
  = Ok (map (vote_of_point ppm img) (transpose points)).
Proof.
  intros [Hppm Hrows] Hpts Himg.
  destruct ppm as [|r0 [|r1 [|r2 [|? ?]]]]; try discriminate. clear Hppm.
  assert (Hcols : length (transpose points) = M) by (eapply transpose_length; [|done]; lia).
  unfold points_in_mask_of_view.
  rewrite get_pixel_points_pointwise; [|done|].
  2:{ eapply Forall_impl; [exact Hrows|]. intros r Hr. cbv beta.
      unfold shape0. destruct Hpts as [-> _]. exact Hr. }
  rewrite result_bind_ok.
  change (List.last [r0; r1; r2] []) with r2.
  set (cols := transpose points) in *.
  set (a := pixel_coord r0 r2). set (b := pixel_coord r1 r2).
  cbn [map].
  rewrite (np_row_lookup _ 0 (map a cols)), result_bind_ok by reflexivity.
  rewrite (np_row_lookup _ 1 (map b cols)), result_bind_ok by reflexivity.
  rewrite !zip_with_map_diag, !map_map, zip_with_map_diag.
  set (inside := fun c => _ && _).
  assert (Hinside : forall c, inside c = in_frame (shape0 img) (shape1 img) (a c) (b c))
    by reflexivity.
  unfold np_where.
  set (idx := np_where_from 0 (map inside cols)).
  assert (Hidx : forall i, i ∈ idx ->
            exists c, cols !! i = Some c /\ inside c = true).
  { intros i [_ Hi]%np_where_from_bound. rewrite Nat.sub_0_r in Hi.
    rewrite list_lookup_fmap in Hi.
    destruct (cols !! i) as [c|]; [|discriminate]. exists c.
    split; [reflexivity|]. by injection Hi. }
  change (np_drop_last_row _) with [map a cols; map b cols].
  unfold np_take_cols, np_take. cbn [mapM].
  rewrite (mapM_ok_map (at_index (map a cols)) (fun i => nth i (map a cols) 0)),
          result_bind_ok.
  2:{ intros i (c & Hc & _)%Hidx. apply at_index_nth.
      rewrite length_map. by eapply lookup_lt_Some. }
  rewrite (mapM_ok_map (at_index (map b cols)) (fun i => nth i (map b cols) 0)),
          result_bind_ok.
  2:{ intros i (c & Hc & _)%Hidx. apply at_index_nth.
      rewrite length_map. by eapply lookup_lt_Some. }
  change (mret [] ≫= _) with (Ok [map (fun i => nth i (map b cols) 0) idx]).
  rewrite !result_bind_ok.
  rewrite (np_row_lookup _ 1 (map (fun i => nth i (map b cols) 0) idx)),
          result_bind_ok by reflexivity.
  rewrite (np_row_lookup _ 0 (map (fun i => nth i (map a cols) 0) idx)),
          result_bind_ok by reflexivity.
  unfold np_getitem2. rewrite !length_map, Nat.eqb_refl.
  rewrite (zip_with_map_diag pair (fun i => nth i (map b cols) 0)
             (fun i => nth i (map a cols) 0) idx).
  rewrite (mapM_ok_map _ (fun p => mask_at img p.1 p.2)), result_bind_ok.
  2:{ intros [y x] (i & [= -> ->] & (c & Hc & Hin)%Hidx)%list_elem_of_fmap.
      apply in_frame_lookup; [done|].
      rewrite !(nth_map_lookup _ _ _ _ _ Hc). cbn [fst snd].
      by rewrite <- Hinside. }
  rewrite !map_map. cbn [fst snd].
  set (G := fun i : nat => Z_of_bool _).
  change (shape1 _) with (length (map a cols)). rewrite length_map.
  pose proof (np_setitem_where G (map inside cols) [] (replicate (length cols) 0))
    as Hset.
  cbn [app length] in Hset. fold idx in Hset.
  rewrite Hset by (by rewrite length_map, length_replicate).
  f_equal.
  rewrite (where_fill_map G 0
             (fun c => Z_of_bool (negb (mask_at img (b c) (a c) =? 0))) inside).
  - apply map_ext. intros c. unfold vote_of_point. cbn [nth List.last].
    fold a b. by rewrite <- Hinside.
  - intros j c Hc _. unfold G. cbn [Nat.add].
    by rewrite !(nth_map_lookup _ _ _ _ _ Hc).
Qed.
End VoterFacts.

Lemma result_bind_inv {A B} (m : result A) (f : A -> result B) (b : B) :
  (m ≫= f) = Ok b -> exists a, m = Ok a /\ f a = Ok b.
Proof. destruct m as [a|e]; [|discriminate]. intros Hf. by exists a. Qed.

Ltac bind_inv H :=
  repeat match type of H with
         | (_ ≫= _) = Ok _ =>
             let a := fresh "a" in
             let Ha := fresh "Ha" in
             apply result_bind_inv in H as (a & Ha & H)
         end.

Section WholeVoterFacts.
Context {F : Type} `{Float64 F}.
Implicit Types (ppms : list (matrix F)) (images_masks : list (matrix Z)).

Lemma np_vstack_ok {A} (rows : list (list A)) (n : nat) :
  rows <> [] -> Forall (fun r => length r = n) rows -> np_vstack rows = Ok rows.
Proof.
  intros Hne Hrows. destruct rows as [|r rs]; [done|]. cbn.
  apply Forall_cons in Hrows as [Hr Hrs].
  replace (forallb _ rs) with true; [reflexivity|].
  symmetry. apply Is_true_true, forallb_True.
  eapply Forall_impl; [exact Hrs|]. intros r' Hr'. cbv beta.
  apply Is_true_true, Nat.eqb_eq. congruence.
Qed.

Lemma np_vstack_inv {A} (rows m : list (list A)) :
  np_vstack rows = Ok m -> m = rows /\ rows <> [].
Proof.
  destruct rows as [|r rs]; [discriminate|]. cbn.
  destruct (forallb _ rs); [|discriminate]. by intros [= <-].
Qed.

(** The whole vote matrix, view by view and voxel by voxel. *)
Lemma voter_pointwise images_masks ppms (voxel_points : matrix F) (M : nat) :
  Forall is_rect images_masks -> Forall (rect 3 4) ppms ->
  rect 4 M voxel_points -> images_masks <> [] -> ppms <> [] ->
  get_voxel_points_projection_is_in_images_mask images_masks ppms voxel_points
  = Ok (map (fun p => map (vote_of_point p.1 p.2) (transpose voxel_points))
            (zip ppms images_masks)).
Proof.
  intros Hmasks Hppms Hpts Hm Hp.
  unfold get_voxel_points_projection_is_in_images_mask.
  rewrite (mapM_ok_map _
             (fun p => map (vote_of_point p.1 p.2) (transpose voxel_points))).
  - rewrite result_bind_ok. apply (np_vstack_ok _ M).
    + destruct ppms, images_masks; done.
    + apply Forall_map, Forall_forall. intros p _. rewrite length_map.
      eapply transpose_length; [|done]. lia.
  - intros [ppm img] Hin. cbn [fst snd].
    apply (points_in_mask_of_view_pointwise _ _ _ M); [|done|].
    + eapply (proj1 (Forall_forall _ _) Hppms), elem_of_zip_l, Hin.
    + eapply (proj1 (Forall_forall _ _) Hmasks), elem_of_zip_r, Hin.
Qed.

Lemma points_in_mask_of_view_binary ppm img (points : matrix F) row :
  points_in_mask_of_view ppm img points = Ok row ->
  Forall (fun v => v = 0 \/ v = 1) row.
Proof.
  unfold points_in_mask_of_view. intros Hrow. bind_inv Hrow.
  eapply np_setitem_Forall; [| |exact Hrow].
  - apply Forall_replicate. by left.
  - rewrite Forall_map. apply Forall_forall. intros b _.
    destruct b; [by right|by left].
Qed.

Lemma voter_binary images_masks ppms (voxel_points : matrix F) votes :
  get_voxel_points_projection_is_in_images_mask images_masks ppms voxel_points
  = Ok votes ->
  Forall (Forall (fun v => v = 0 \/ v = 1)) votes.
Proof.
  unfold get_voxel_points_projection_is_in_images_mask. intros Hv.
  bind_inv Hv. apply np_vstack_inv in Hv as [-> _].
  apply mapM_ok_Forall2 in Ha.
  induction Ha as [|[ppm img] row ps rows Hrow _ IH]; constructor; [|exact IH].
  by eapply points_in_mask_of_view_binary.
Qed.
End WholeVoterFacts.

Section SumFacts.
Lemma zip_with_add_bounds (n : Z) (acc row : list Z) :
  Forall (fun c => 0 <= c <= n) acc ->
  Forall (fun v => v = 0 \/ v = 1) row ->
  Forall (fun c => 0 <= c <= n + 1) (zip_with Z.add acc row).
Proof.
  intros Hacc. revert row.
  induction Hacc as [|c acc Hc _ IH]; intros row Hrow; [constructor|].
  destruct Hrow as [|v row Hv Hrow]; [constructor|]. cbn.
  constructor; [lia|]. by apply IH.
Qed.

Lemma foldl_add_bounds (rows : matrix Z) (n : Z) (acc : list Z) :
  Forall (fun c => 0 <= c <= n) acc ->
  Forall (Forall (fun v => v = 0 \/ v = 1)) rows ->
  Forall (fun c => 0 <= c <= n + Z.of_nat (length rows))
         (foldl (zip_with Z.add) acc rows).
Proof.
  intros Hacc Hrows. revert n acc Hacc.
  induction Hrows as [|row rows Hrow _ IH]; intros n acc Hacc; cbn [foldl length].
  - eapply Forall_impl; [exact Hacc|]. cbv beta. lia.
  - replace (n + Z.of_nat (S (length rows))) with (n + 1 + Z.of_nat (length rows)) by lia.
    apply IH. by apply zip_with_add_bounds.
Qed.

Lemma zip_with_add_swap (acc x y : list Z) :
  zip_with Z.add (zip_with Z.add acc x) y = zip_with Z.add (zip_with Z.add acc y) x.
Proof.
  revert x y. induction acc as [|a acc IH]; intros [|u x] [|v y]; cbn;
    try reflexivity.
  f_equal; [lia|apply IH].
Qed.

Lemma foldl_add_perm (rows rows' : matrix Z) (acc : list Z) :
  rows ≡ₚ rows' ->
  foldl (zip_with Z.add) acc rows = foldl (zip_with Z.add) acc rows'.
Proof.
  intros Hperm. revert acc.
  induction Hperm as [|x l l' _ IH|x y l|l l' l'' _ IH1 _ IH2]; intros acc; cbn.
  - reflexivity.
  - apply IH.
  - by rewrite zip_with_add_swap.
  - by rewrite IH1.
Qed.
End SumFacts.

Section CompressFacts.
Context {A : Type}.

Lemma compress_filter (t : Z) (occ : list Z) (l : list A) :
  compress (map (fun o => t <=? o) occ) l
  = (filter (fun p => t <= p.2) (zip l occ)).*1.
Proof.
  revert l. induction occ as [|o occ IH]; intros [|x l]; cbn [map compress zip_with];
    try reflexivity.
  destruct (Z.leb_spec t o) as [Hle|Hlt].
  - rewrite filter_cons_True by done. cbn. by rewrite IH.
  - rewrite filter_cons_False by (cbn; lia). apply IH.
Qed.

Lemma compress_sublist (mask : list bool) (l : list A) :
  sublist (compress mask l) l.
Proof.
  revert l. induction mask as [|b mask IH]; intros [|x l]; cbn;
    try apply sublist_nil_l.
  destruct b; [by apply sublist_skip|by apply sublist_cons].
Qed.

Lemma compress_map {B} (f : A -> B) (mask : list bool) (l : list A) :
  compress mask (map f l) = map f (compress mask l).
Proof.
  revert l. induction mask as [|b mask IH]; intros [|x l]; cbn; try reflexivity.
  destruct b; cbn; by rewrite IH.
Qed.

Lemma compress_zip_with {B C} (f : A -> B -> C) (mask : list bool)
    (u : list A) (v : list B) :
  compress mask (zip_with f u v) = zip_with f (compress mask u) (compress mask v).
Proof.
  revert u v. induction mask as [|b mask IH]; intros [|x u] [|y v]; cbn;
    try reflexivity.
  - by destruct b; cbn; rewrite ?zip_with_nil_r.
  - destruct b; cbn; by rewrite IH.
Qed.
End CompressFacts.

Lemma transpose_compress {A} (mask : list bool) (m : matrix A) :
  transpose (map (compress mask) m) = compress mask (transpose m).
Proof.
  induction m as [|r [|r' m] IH]; [by destruct mask| |].
  - cbn. by rewrite compress_map.
  - change (map (compress mask) (r :: r' :: m))
      with (compress mask r :: map (compress mask) (r' :: m)).
    rewrite !transpose_cons by done. rewrite IH. by rewrite compress_zip_with.
Qed.

Lemma foldl_zip_with_length (rows : matrix Z) (acc : list Z) :
  Forall (fun r => length r = length acc) rows ->
  length (foldl (zip_with Z.add) acc rows) = length acc.
Proof.
  intros Hrows. revert acc Hrows.
  induction rows as [|r rows IH]; intros acc Hrows; [reflexivity|].
  apply Forall_cons in Hrows as [Hr Hrows]. cbn.
  rewrite IH; rewrite length_zip_with; [lia|].
  eapply Forall_impl; [exact Hrows|]. cbv beta. lia.
Qed.

Section ExactFacts.
Implicit Types (q a b : Q) (u v : list Q).


Lemma xq_div_fin a b : ~ (b == 0)%Q -> xq_div (Fin a) (Fin b) = Fin (a / b).
Proof.
  intros Hb. unfold xq_div.
  destruct (b ?= 0)%Q eqn:Hcmp; try reflexivity.
  by apply Qeq_alt in Hcmp.
Qed.

Lemma xq_div_by_zero (x : xq) b :
  (b == 0)%Q -> exists y, xq_div x (Fin b) = y /\ xq_to_int (xq_rint y) = int64_min.
Proof.
  intros Hb. apply Qeq_alt in Hb. unfold xq_div. rewrite Hb.
  destruct x as [a| | |]; [destruct (a ?= 0)%Q|..]; eexists; split; reflexivity.
Qed.





End ExactFacts.



Section MeshFacts.
Context {A : Type}.
Implicit Types (h : A -> A -> A -> A) (xs ys zs : list A).

Lemma np_meshgrid3_mesh xs ys zs :
  np_meshgrid3 xs ys zs
  = (mesh (fun x _ _ => x) xs ys zs,
     mesh (fun _ y _ => y) xs ys zs,
     mesh (fun _ _ z => z) xs ys zs).
Proof. unfold np_meshgrid3, mesh. by rewrite map_id. Qed.

Lemma length_flatten_mesh h xs ys zs :
  length (np_flatten3 (mesh h xs ys zs)) = (length ys * length xs * length zs)%nat.
Proof.
  unfold np_flatten3, mesh.
  rewrite (length_concat_uniform (length zs)).
  - rewrite (length_concat_uniform (length xs)); [by rewrite length_map|].
    apply Forall_map, Forall_forall. intros y _. by rewrite length_map.
  - apply Forall_concat, Forall_map, Forall_forall. intros y _.
    apply Forall_map, Forall_forall. intros x _. by rewrite length_map.
Qed.

Lemma in_flatten_mesh h xs ys zs (v : A) :
  In v (np_flatten3 (mesh h xs ys zs)) <->
  exists x y z, In x xs /\ In y ys /\ In z zs /\ v = h x y z.
Proof.
  unfold np_flatten3, mesh. rewrite in_concat. split.
  - intros (row & Hrow & Hv). apply in_concat in Hrow as (plane & Hplane & Hrow).
    apply in_map_iff in Hplane as (y & <- & Hy).
    apply in_map_iff in Hrow as (x & <- & Hx).
    apply in_map_iff in Hv as (z & <- & Hz). by exists x, y, z.
  - intros (x & y & z & Hx & Hy & Hz & ->).
    exists (map (fun z => h x y z) zs). split.
    + apply in_concat. exists (map (fun x => map (fun z => h x y z) zs) xs).
      split; [by apply (in_map (fun y => map (fun x => map (fun z => h x y z) zs) xs))|].
      by apply (in_map (fun x => map (fun z => h x y z) zs)).
    + by apply (in_map (fun z => h x y z)).
Qed.
End MeshFacts.

Section ReductionFacts.

Lemma foldl_min_spec (xs : list Z) (x : Z) :
  In (foldl Z.min x xs) (x :: xs) /\
  forall v, In v (x :: xs) -> foldl Z.min x xs <= v.
Proof.
  revert x. induction xs as [|y xs IH]; intros x; cbn [foldl].
  - split; [by left|]. intros v [<-|[]]. lia.
  - destruct (IH (Z.min x y)) as [Hin Hle]. split.
    + destruct Hin as [Heq|Hin]; [|right; by right].
      rewrite <- Heq. destruct (Z.min_spec x y) as [[_ ->]|[_ ->]];
        [by left|right; by left].
    + intros v [<-|[<-|Hv]].
      * etransitivity; [apply Hle; by left|lia].
      * etransitivity; [apply Hle; by left|lia].
      * apply Hle. by right.
Qed.

Lemma foldl_max_spec (xs : list Z) (x : Z) :
  In (foldl Z.max x xs) (x :: xs) /\
  forall v, In v (x :: xs) -> v <= foldl Z.max x xs.
Proof.
  revert x. induction xs as [|y xs IH]; intros x; cbn [foldl].
  - split; [by left|]. intros v [<-|[]]. lia.
  - destruct (IH (Z.max x y)) as [Hin Hle]. split.
    + destruct Hin as [Heq|Hin]; [|right; by right].
      rewrite <- Heq. destruct (Z.max_spec x y) as [[_ ->]|[_ ->]];
        [right; by left|by left].
    + intros v [<-|[<-|Hv]].
      * etransitivity; [|apply Hle; by left]. lia.
      * etransitivity; [|apply Hle; by left]. lia.
      * apply Hle. by right.
Qed.

Lemma np_min_ok (l : list Z) (m : Z) :
  In m l -> (forall v, In v l -> m <= v) -> np_min l = Ok m.
Proof.
  intros Hm Hle. destruct l as [|x xs]; [done|]. cbn. f_equal.
  destruct (foldl_min_spec xs x) as [Hin Hmin].
  apply Z.le_antisymm; [by apply Hmin|by apply Hle].
Qed.

Lemma np_max_ok (l : list Z) (m : Z) :
  In m l -> (forall v, In v l -> v <= m) -> np_max l = Ok m.
Proof.
  intros Hm Hle. destruct l as [|x xs]; [done|]. cbn. f_equal.
  destruct (foldl_max_spec xs x) as [Hin Hmax].
  apply Z.le_antisymm; [by apply Hle|by apply Hmax].
Qed.

Lemma in_np_arange (n v : Z) : In v (np_arange n) <-> 0 <= v < n.
Proof.
  unfold np_arange. rewrite in_map_iff. split.
  - intros (k & <- & Hk). apply in_seq in Hk. lia.
  - intros Hv. exists (Z.to_nat v). split; [lia|]. apply in_seq. lia.
Qed.

Lemma length_np_arange (n : Z) : length (np_arange n) = Z.to_nat n.
Proof. unfold np_arange. by rewrite length_map, length_seq. Qed.
End ReductionFacts.

Section GridFacts.
Context {F : Type} `{Float64 F}.

Lemma flat_mesh_range (S : Z) (h : Z -> Z -> Z -> Z) (v : Z) :
  1 <= S -> is_proj h ->
  In v (np_flatten3 (mesh h (np_arange S) (np_arange S) (np_arange S)))
  <-> 0 <= v < S.
Proof.
  intros HS Hh. rewrite in_flatten_mesh. split.
  - intros (x & y & z & Hx & Hy & Hz & ->).
    apply in_np_arange in Hx, Hy, Hz.
    destruct Hh as [-> | [-> | ->]]; lia.
  - intros Hv.
    assert (H0 : In 0 (np_arange S)) by (apply in_np_arange; lia).
    assert (Hv' : In v (np_arange S)) by (by apply in_np_arange).
    destruct Hh as [-> | [-> | ->]];
      [exists v, 0, 0|exists 0, v, 0|exists 0, 0, v]; done.
Qed.

Lemma min_max_scale_flat (S : Z) (h : Z -> Z -> Z -> Z) (lo hi : F) :
  1 <= S -> is_proj h ->
  _min_max_scale (np_flatten3 (mesh h (np_arange S) (np_arange S) (np_arange S)))
                 lo hi
  = Ok (map (grid_scale S lo hi)
            (np_flatten3 (mesh h (np_arange S) (np_arange S) (np_arange S)))).
Proof.
  intros HS Hh. unfold _min_max_scale.
  rewrite (np_min_ok _ 0), result_bind_ok.
  - rewrite (np_max_ok _ (S - 1)), result_bind_ok; [reflexivity| |].
    + apply flat_mesh_range; [done..|lia].
    + intros v Hv%flat_mesh_range; [lia|done..].
  - apply flat_mesh_range; [done..|lia].
  - intros v Hv%flat_mesh_range; [lia|done..].
Qed.

(** The grid, for a size of at least 1. *)
Lemma get_voxel_grid_points_ok (S : Z) (x_min x_max y_min y_max z_min z_max : F) :
  1 <= S ->
  let ar := np_arange S in
  get_voxel_grid_points S x_min x_max y_min y_max z_min z_max
  = Ok [map (grid_scale S x_min x_max) (np_flatten3 (mesh (fun x _ _ => x) ar ar ar));
        map (grid_scale S y_min y_max) (np_flatten3 (mesh (fun _ y _ => y) ar ar ar));
        map (grid_scale S z_min z_max) (np_flatten3 (mesh (fun _ _ z => z) ar ar ar));
        replicate (Z.to_nat (S ^ 3)) (f_of_int 1)].
Proof.
  intros HS ar. subst ar. unfold get_voxel_grid_points.
  rewrite np_meshgrid3_mesh.
  rewrite !min_max_scale_flat by (done || unfold is_proj; auto).
  rewrite !result_bind_ok.
  unfold np_ones.
  rewrite length_map, !length_flatten_mesh, !length_np_arange.
  replace (Z.to_nat S * Z.to_nat S * Z.to_nat S)%nat with (Z.to_nat (S ^ 3)) by nia.
  apply (np_vstack_ok _ (Z.to_nat (S ^ 3))); [done|].
  repeat constructor;
    rewrite ?length_map, ?length_flatten_mesh, ?length_np_arange, ?length_replicate;
    nia.
Qed.
End GridFacts.

Section ExactGridFacts.
Implicit Types (q lo hi : Q).

Lemma grid_scale_exact (S : Z) lo hi (v : Z) :
  2 <= S -> grid_scale S (Fin lo) (Fin hi) v = Fin (grid_scale_q S lo hi v).
Proof.
  intros HS. unfold grid_scale, grid_scale_q.
  cbn [f_add f_div f_mul f_sub f_of_int xq_float64].
  unfold xq_sub. cbn [xq_opp xq_add xq_mul].
  rewrite xq_div_fin; [reflexivity|].
  change 0%Q with (inject_Z 0). rewrite inject_Z_injective. lia.
Qed.

Lemma grid_scale_q_mono (S : Z) lo hi (v v' : Z) :
  2 <= S -> (lo < hi)%Q -> v <= v' ->
  (grid_scale_q S lo hi v <= grid_scale_q S lo hi v')%Q.
Proof.
  intros HS Hlh Hv. unfold grid_scale_q.
  apply Qplus_le_r. unfold Qdiv.
  apply Qmult_le_compat_r.
  - apply Qmult_le_compat_r; [|lra]. rewrite <- Zle_Qle. lia.
  - apply Qlt_le_weak, Qinv_lt_0_compat.
    change 0%Q with (inject_Z 0). rewrite <- Zlt_Qlt. lia.
Qed.

Lemma grid_scale_q_first (S : Z) lo hi : (grid_scale_q S lo hi 0 == lo)%Q.
Proof. unfold grid_scale_q. change (inject_Z (0 - 0)) with 0%Q. unfold Qdiv. ring. Qed.

Lemma grid_scale_q_last (S : Z) lo hi :
  2 <= S -> (grid_scale_q S lo hi (S - 1) == hi)%Q.
Proof.
  intros HS. unfold grid_scale_q. field.
  change 0%Q with (inject_Z 0). rewrite inject_Z_injective. lia.
Qed.

Lemma fold_min_fin (qs : list Q) (q0 : Q) :
  exists q,
    foldl (fun a b : xq => if f_leb b a then b else a) (Fin q0) (map Fin qs) = Fin q /\
    In q (q0 :: qs) /\ forall q', In q' (q0 :: qs) -> (q <= q')%Q.
Proof.
  revert q0. induction qs as [|y qs IH]; intros q0; cbn [map foldl].
  - exists q0. split; [reflexivity|]. split; [by left|].
    intros q' [<-|[]]. lra.
  - cbn [f_leb xq_float64 xq_leb].
    destruct (Qle_bool y q0) eqn:Hle.
    + apply Qle_bool_iff in Hle.
      destruct (IH y) as (q & Hq & Hin & Hmin). exists q.
      split; [exact Hq|]. split; [by right|].
      intros q' [<-|Hq']; [|by apply Hmin].
      pose proof (Hmin y (or_introl eq_refl)). lra.
    + assert (Hlt : (q0 < y)%Q).
      { apply Qnot_le_lt. intros Hc%Qle_bool_iff. congruence. }
      destruct (IH q0) as (q & Hq & Hin & Hmin). exists q.
      split; [exact Hq|]. split.
      * destruct Hin as [<-|Hin]; [by left|right; by right].
      * intros q' [<-|[<-|Hq']].
        -- apply Hmin. by left.
        -- pose proof (Hmin q0 (or_introl eq_refl)). lra.
        -- apply Hmin. by right.
Qed.

Lemma fold_max_fin (qs : list Q) (q0 : Q) :
  exists q,
    foldl (fun a b : xq => if f_leb a b then b else a) (Fin q0) (map Fin qs) = Fin q /\
    In q (q0 :: qs) /\ forall q', In q' (q0 :: qs) -> (q' <= q)%Q.
Proof.
  revert q0. induction qs as [|y qs IH]; intros q0; cbn [map foldl].
  - exists q0. split; [reflexivity|]. split; [by left|].
    intros q' [<-|[]]. lra.
  - cbn [f_leb xq_float64 xq_leb].
    destruct (Qle_bool q0 y) eqn:Hle.
    + apply Qle_bool_iff in Hle.
      destruct (IH y) as (q & Hq & Hin & Hmax). exists q.
      split; [exact Hq|]. split; [by right|].
      intros q' [<-|Hq']; [|by apply Hmax].
      pose proof (Hmax y (or_introl eq_refl)). lra.
    + assert (Hlt : (y < q0)%Q).
      { apply Qnot_le_lt. intros Hc%Qle_bool_iff. congruence. }
      destruct (IH q0) as (q & Hq & Hin & Hmax). exists q.
      split; [exact Hq|]. split.
      * destruct Hin as [<-|Hin]; [by left|right; by right].
      * intros q' [<-|[<-|Hq']].
        -- apply Hmax. by left.
        -- pose proof (Hmax q0 (or_introl eq_refl)). lra.
        -- apply Hmax. by right.
Qed.

(** An axis scaled exactly spans its bounds. *)
Lemma axis_spans_exact (S : Z) lo hi (flat : list Z) :
  2 <= S -> (lo < hi)%Q ->
  (forall v, In v flat <-> 0 <= v < S) ->
  axis_spans xq_eq (map (grid_scale S (Fin lo) (Fin hi)) flat) (Fin lo) (Fin hi).
Proof.
  intros HS Hlh Hflat.
  rewrite (map_ext_in _ (fun v => Fin (grid_scale_q S lo hi v)))
    by (intros v _; by apply grid_scale_exact).
  rewrite <- (map_map (grid_scale_q S lo hi) Fin).
  assert (Hq : forall q, In q (map (grid_scale_q S lo hi) flat) ->
                 (grid_scale_q S lo hi 0 <= q <= grid_scale_q S lo hi (S - 1))%Q).
  { intros q (v & <- & Hv%Hflat)%in_map_iff.
    split; apply grid_scale_q_mono; (done || lia). }
  assert (H0 : In (grid_scale_q S lo hi 0) (map (grid_scale_q S lo hi) flat))
    by (apply in_map, Hflat; lia).
  assert (H1 : In (grid_scale_q S lo hi (S - 1)) (map (grid_scale_q S lo hi) flat))
    by (apply in_map, Hflat; lia).
  destruct (map (grid_scale_q S lo hi) flat) as [|q0 qs]; [done|].
  destruct (fold_min_fin qs q0) as (a & Ha & Hain & Hamin).
  destruct (fold_max_fin qs q0) as (b & Hb & Hbin & Hbmax).
  exists (Fin a), (Fin b). cbn [map observed_min observed_max].
  rewrite Ha, Hb. repeat split; cbn [xq_eq].
  - rewrite <- (grid_scale_q_first S lo hi).
    apply Qle_antisym; [by apply Hamin|by apply Hq].
  - rewrite <- (grid_scale_q_last S lo hi) by done.
    apply Qle_antisym; [by apply Hq|by apply Hbmax].
Qed.
End ExactGridFacts.

Section CropFacts.

Lemma py_slice_len_crop (n : nat) (lead trail : Z) :
  0 <= lead -> 0 <= trail -> lead + trail <= Z.of_nat n ->
  py_slice_bound n lead = Z.to_nat lead /\
  py_slice_len n lead (Z.of_nat n - trail) = (n - Z.to_nat lead - Z.to_nat trail)%nat.
Proof.
  intros Hl Ht Hsum. unfold py_slice_len, py_slice_bound.
  destruct (Z.ltb_spec lead 0); [lia|].
  destruct (Z.ltb_spec (Z.of_nat n - trail) 0); [lia|].
  split; lia.
Qed.

Lemma length_py_slice_crop {A} (l : list A) (lead trail : Z) :
  0 <= lead -> 0 <= trail -> lead + trail <= Z.of_nat (length l) ->
  length (py_slice l lead (Z.of_nat (length l) - trail))
  = (length l - Z.to_nat lead - Z.to_nat trail)%nat.
Proof.
  intros Hl Ht Hsum. unfold py_slice.
  destruct (py_slice_len_crop (length l) lead trail) as [-> ->]; [done..|].
  rewrite length_take, length_drop. lia.
Qed.

Lemma py_slice_Forall {A} (P : A -> Prop) (l : list A) (start stop : Z) :
  Forall P l -> Forall P (py_slice l start stop).
Proof. intros Hl. unfold py_slice. by apply Forall_take, Forall_drop. Qed.

Lemma cv_border_pixel_black (chans : nat) :
  exists px, cv_border_pixel chans [0; 0; 0] = Ok px /\ length px = chans.
Proof.
  unfold cv_border_pixel. cbn [app replicate take nth forallb Z.eqb andb].
  destruct (Nat.leb_spec chans 4) as [Hle|Hgt]; eexists; (split; [reflexivity|]).
  - rewrite length_take. cbn [length]. lia.
  - apply length_replicate.
Qed.

(** The padding of an image of three channels with black. *)
Lemma cv_copyMakeBorder_bgr (img : image) (top bottom left right : Z) :
  im_chans img = 3%nat ->
  0 <= top -> 0 <= bottom -> 0 <= left -> 0 <= right ->
  cv_copyMakeBorder_constant (Arr3 img) top bottom left right [0; 0; 0]
  = Ok (Arr3 (mat_with_border img (Z.to_nat top) (Z.to_nat bottom)
                                  (Z.to_nat left) (Z.to_nat right) [0; 0; 0])).
Proof.
  intros Hc Ht Hb Hl Hr. unfold cv_copyMakeBorder_constant, cv_mat, cv_dims.
  rewrite Hc. cbn [Nat.leb CV_CN_MAX]. rewrite result_bind_ok, Hc.
  replace ((0 <=? top) && (0 <=? bottom) && (0 <=? left) && (0 <=? right) && true)
    with true
    by (symmetry; repeat (apply andb_true_iff; split); by (done || apply Z.leb_le)).
  change (cv_border_pixel 3 [0; 0; 0]) with (Ok [0; 0; 0] : result (list Z)).
  rewrite result_bind_ok. unfold cv_ndarray.
  change (im_chans (mat_with_border img (Z.to_nat top) (Z.to_nat bottom)
                                    (Z.to_nat left) (Z.to_nat right) [0; 0; 0]))
    with (im_chans img).
  by rewrite Hc.
Qed.

(** Cropping one image, then putting a border of the same margins. *)
Lemma crop_border_wf (img : image) (top bottom left right : Z) (px : list Z) :
  image_wf img -> length px = im_chans img ->
  0 <= top -> 0 <= bottom -> 0 <= left -> 0 <= right ->
  top + bottom <= Z.of_nat (im_rows img) ->
  left + right <= Z.of_nat (im_cols img) ->
  let out := mat_with_border
               (np_slice2 img top (Z.of_nat (im_rows img) - bottom)
                              left (Z.of_nat (im_cols img) - right))
               (Z.to_nat top) (Z.to_nat bottom) (Z.to_nat left) (Z.to_nat right) px in
  image_wf out /\
  im_rows out = im_rows img /\ im_cols out = im_cols img /\
  im_chans out = im_chans img.
Proof.
  intros [Hrows Hitems] Hpx Ht Hb Hl Hr Hv Hh. cbv zeta.
  destruct (py_slice_len_crop (im_rows img) top bottom) as [_ Hlr]; [done..|].
  destruct (py_slice_len_crop (im_cols img) left right) as [_ Hlc]; [done..|].
  unfold image_wf, mat_with_border, np_slice2.
  cbn [im_rows im_cols im_chans im_items].
  rewrite Hlr, Hlc.
  split; [split|lia].
  - rewrite !length_app, !length_replicate, !length_map, <- Hrows.
    rewrite length_py_slice_crop by lia. lia.
  - rewrite !Forall_app. split; [|split].
    + apply Forall_replicate. rewrite length_replicate. split; [reflexivity|].
      by apply Forall_replicate.
    + rewrite !Forall_map. apply py_slice_Forall.
      eapply Forall_impl; [exact Hitems|]. intros row [Hrow Hpxs]. cbv beta.
      rewrite !length_app, !length_replicate, <- Hrow.
      rewrite length_py_slice_crop by lia. split; [lia|].
      rewrite !Forall_app. repeat split;
        [by apply Forall_replicate|by apply py_slice_Forall|by apply Forall_replicate].
    + apply Forall_replicate. rewrite length_replicate. split; [reflexivity|].
      by apply Forall_replicate.
Qed.

(** Cropping one image of three channels, then padding it back. *)
Lemma crop_pad_one (img : image) (top bottom left right : Z) :
  image_wf img -> im_chans img = 3%nat ->
  0 <= top -> 0 <= bottom -> 0 <= left -> 0 <= right ->
  top + bottom <= Z.of_nat (im_rows img) ->
  left + right <= Z.of_nat (im_cols img) ->
  exists out,
    cv_copyMakeBorder_constant
      (Arr3 (np_slice2 img top (Z.of_nat (im_rows img) - bottom)
                           left (Z.of_nat (im_cols img) - right)))
      top bottom left right [0; 0; 0] = Ok (Arr3 out) /\
    image_wf out /\
    im_rows out = im_rows img /\ im_cols out = im_cols img /\
    im_chans out = im_chans img.
Proof.
  intros Hwf Hc Ht Hb Hl Hr Hv Hh.
  eexists. split; [by apply cv_copyMakeBorder_bgr|].
  apply crop_border_wf; done.
Qed.
End CropFacts.

Section FrameFacts.
Context {F : Type} `{Float64 F}.
Implicit Types (n : nat) (l : Ref.loc) (o : Ref.obj F).

Lemma framed_ret {A} n (a : A) (Q : A -> Prop) : Q a -> framed n (Ref.ret a) Q.
Proof. intros Ha s Hs. cbn. repeat split; [lia|]. by intros ? [= <-]. Qed.

Lemma framed_lift {A} n (r : result A) : framed n (Ref.lift r) (fun _ => True).
Proof. intros s Hs. cbn. repeat split. lia. Qed.

Lemma framed_weaken {A} n (m : Ref.M F A) (Q Q' : A -> Prop) :
  (forall a, Q a -> Q' a) -> framed n m Q -> framed n m Q'.
Proof.
  intros HQ Hm s Hs. destruct (Hm s Hs) as (Hlen & Htake & Hres).
  repeat split; [done..|]. intros a Ha. by apply HQ, Hres.
Qed.

Lemma framed_bind {A B} n (m : Ref.M F A) (k : A -> Ref.M F B)
    (Q : A -> Prop) (R : B -> Prop) :
  framed n m Q -> (forall a, Q a -> framed n (k a) R) ->
  framed n (Ref.bind m k) R.
Proof.
  intros Hm Hk s Hs. destruct (Hm s Hs) as (Hlen & Htake & Hres).
  unfold Ref.bind. destruct (m s) as [[a|e] s'] eqn:Hms; cbn in *.
  - destruct (Hk a (Hres a eq_refl) s') as (Hlen' & Htake' & Hres'); [lia|].
    repeat split; [lia|congruence|done].
  - repeat split; [done..|]. intros ? [=].
Qed.

Lemma framed_alloc n o : framed n (Ref.alloc o) (fun l => (n <= l)%nat).
Proof.
  intros s Hs. unfold Ref.alloc. cbn. rewrite length_app. cbn.
  repeat split; [lia| |].
  - by rewrite take_app_le.
  - intros l [= <-]. done.
Qed.

Lemma framed_load n l : framed n (Ref.load l) (fun _ => True).
Proof.
  intros s Hs. unfold Ref.load. destruct (s !! l); cbn; repeat split; lia.
Qed.

(** A write is framed when it goes to a location that did not exist
    at the start. *)
Lemma framed_write n l o : (n <= l)%nat -> framed n (Ref.write l o) (fun _ => True).
Proof.
  intros Hl s Hs. unfold Ref.write. destruct (decide _); cbn [fst snd].
  - unfold Ref.store, Ref.loc in *. rewrite length_insert.
    repeat split; [lia|]. by rewrite take_insert_ge.
  - repeat split. lia.
Qed.

Lemma framed_load_as {A} n l (f : Ref.obj F -> result A) :
  framed n (Ref.bind (Ref.load l) (fun o => Ref.lift (f o))) (fun _ => True).
Proof.
  eapply framed_bind; [apply framed_load|]. intros o _. apply framed_lift.
Qed.

Lemma framed_for_each {A B} n (f : A -> Ref.M F B) (Q : B -> Prop) (xs : list A) :
  (forall a, framed n (f a) Q) -> framed n (Ref.for_each f xs) (Forall Q).
Proof.
  intros Hf. induction xs as [|x xs IH]; cbn [Ref.for_each].
  - by apply framed_ret.
  - eapply framed_bind; [apply Hf|]. intros b Hb.
    eapply framed_bind; [apply IH|]. intros bs Hbs.
    apply framed_ret. by constructor.
Qed.

Ltac framed_step :=
  first [ eapply framed_bind; [apply framed_load_as|intros ? _]
        | eapply framed_bind; [apply framed_lift|intros ? _]
        | eapply framed_bind;
            [apply framed_alloc
            |let Hl := fresh "Hl" in intros ? Hl; cbv beta in Hl]
        | eapply framed_bind; [apply framed_write; lia|intros ? _] ].

Lemma framed_get_pixel_points n (ppm points : Ref.loc) :
  framed n (Ref.get_pixel_points ppm points) (fun l => (n <= l)%nat).
Proof.
  unfold Ref.get_pixel_points, Ref.load_float.
  repeat framed_step. apply framed_alloc.
Qed.

Lemma framed_points_in_mask_of_view n (ppm img voxel_points : Ref.loc) :
  framed n (Ref.points_in_mask_of_view ppm img voxel_points)
         (fun l => (n <= l)%nat).
Proof.
  unfold Ref.points_in_mask_of_view, Ref.load_int, Ref.load_vec.
  framed_step.
  eapply framed_bind; [apply framed_get_pixel_points|intros ? _].
  repeat framed_step. by apply framed_ret.
Qed.

Lemma framed_voter n (images_masks ppms : list Ref.loc) (voxel_points : Ref.loc) :
  framed n (Ref.get_voxel_points_projection_is_in_images_mask
              images_masks ppms voxel_points)
         (fun l => (n <= l)%nat).
Proof.
  unfold Ref.get_voxel_points_projection_is_in_images_mask.
  eapply framed_bind.
  { apply (framed_for_each n _ (fun l => (n <= l)%nat)).
    intros [ppm img]. apply framed_points_in_mask_of_view. }
  intros ls _.
  eapply framed_bind.
  { apply (framed_for_each n _ (fun _ => True)). intros l.
    unfold Ref.load_vec. apply framed_load_as. }
  intros rows _. framed_step. apply framed_alloc.
Qed.

Lemma framed_voter_calls n (calls : list (list Ref.loc * list Ref.loc * Ref.loc)) :
  framed n (Ref.voter_calls calls) (fun _ => True).
Proof.
  induction calls as [|[[images_masks ppms] voxel_points] calls IH];
    cbn [Ref.voter_calls].
  - by apply framed_ret.
  - intros s Hs.
    destruct (framed_voter n images_masks ppms voxel_points s Hs)
      as (Hlen & Htake & _).
    destruct (IH (Ref.get_voxel_points_projection_is_in_images_mask
                    images_masks ppms voxel_points s).2) as (Hlen' & Htake' & _);
      [lia|].
    repeat split; [lia|congruence].
Qed.
End FrameFacts.

Section DegenerateFacts.

Lemma xq_div_zero_indefinite (x y : xq) :
  xq_is_zero y -> xq_to_int (xq_rint (xq_div x y)) = int64_min.
Proof.
  unfold xq_is_zero. destruct y as [b| | |]; try done. cbn [xq_eq]. intros Hb.
  by destruct (xq_div_by_zero x b Hb) as (r & -> & ->).
Qed.

(** A binary64 quotient by a zero is an infinity or NaN. *)
Lemma b64_div_zero_not_finite (x y : float) :
  b64_is_zero y ->
  Prim2SF (x / y)%float = S754_nan \/
  exists s, Prim2SF (x / y)%float = S754_infinity s.
Proof.
  unfold b64_is_zero. rewrite FloatAxioms.eqb_spec, FloatAxioms.div_spec.
  change (Prim2SF 0%float) with (S754_zero false).
  destruct (Prim2SF y) as [sy|sy| |sy my ey]; cbn; try discriminate.
  - intros _. destruct (Prim2SF x) as [sx|sx| |sx mx ex]; cbn; eauto.
  - destruct sy; discriminate.
  - destruct sy; discriminate.
Qed.

Lemma b64_div_zero_indefinite (x y : float) :
  b64_is_zero y -> b64_to_int (b64_rint (x / y)%float) = int64_min.
Proof.
  intros Hy. unfold b64_rint.
  rewrite FloatAxioms.ltb_spec, FloatAxioms.abs_spec.
  change (Prim2SF b64_two52) with (S754_finite false 4503599627370496 0).
  unfold b64_to_int.
  destruct (b64_div_zero_not_finite x y Hy) as [Hr|[s Hr]]; rewrite Hr; cbn;
    by rewrite Hr.
Qed.

Context {F : Type} `{Float64 F}.
Variable is_zero : F -> Prop.
Hypothesis div_zero_indefinite :
  forall x y, is_zero y -> f_to_int (f_rint (f_div x y)) = int64_min.

Lemma vote_of_point_zero_divisor (ppm : matrix F) (img : matrix Z) (c : list F) :
  is_zero (dot (List.last ppm []) c) -> vote_of_point ppm img c = 0.
Proof using div_zero_indefinite.
  intros Hw. unfold vote_of_point, pixel_coord.
  by rewrite div_zero_indefinite.
Qed.

Lemma voter_entry (images_masks : list (matrix Z)) (ppms : list (matrix F))
    (points : matrix F) (k i : nat) :
  entry (map (fun p => map (vote_of_point p.1 p.2) (transpose points))
             (zip ppms images_masks)) k i
  = p ← zip ppms images_masks !! k;
    c ← transpose points !! i;
    Some (vote_of_point p.1 p.2 c).
Proof.
  unfold entry. rewrite list_lookup_fmap.
  destruct (zip ppms images_masks !! k) as [p|]; [|reflexivity]. cbn.
  rewrite list_lookup_fmap. by destruct (transpose points !! i).
Qed.

Lemma zero_divisor_policy_holds : zero_divisor_policy F is_zero.
Proof using div_zero_indefinite.
  intros images_masks ppms voxel_points M k j ppm c
         Hmasks Hppms Hpts Hk Hkm Hc Hw.
  assert (Hm : images_masks <> []) by (destruct images_masks; [cbn in Hkm; lia|done]).
  assert (Hp : ppms <> []) by (by destruct ppms).
  destruct (lookup_lt_is_Some_2 images_masks k Hkm) as [img Himg].
  eexists. split; [by apply (voter_pointwise _ _ _ M)|]. split.
  - rewrite voter_entry, lookup_zip_with, Hk. cbn. rewrite Himg. cbn.
    rewrite Hc. cbn. f_equal. apply vote_of_point_zero_divisor.
    pose proof (proj1 (Forall_forall _ _) Hppms ppm (list_elem_of_lookup_2 _ _ _ Hk))
      as [Hlen _].
    by destruct ppm as [|r0 [|r1 [|r2 [|? ?]]]].
  - split.
    + intros voxel_points' Hpts' Hsame.
      eexists. split; [by apply (voter_pointwise _ _ _ M)|].
      intros k' i Hi. by rewrite !voter_entry, Hsame.
    + intros ppms' Hppms' Hp' Hsame.
      eexists. split; [by apply (voter_pointwise _ _ _ M)|].
      intros k' i Hk'. by rewrite !voter_entry, !lookup_zip_with, Hsame.
Qed.
End DegenerateFacts.

Section ValidationFacts.
Context {F : Type} `{Float64 F}.

Lemma zip_take_min {A B} (l : list A) (k : list B) :
  zip (take (min (length k) (length l)) l) (take (min (length k) (length l)) k)
  = zip l k.
Proof.
  revert k. induction l as [|x l IH]; intros [|y k]; cbn; try reflexivity.
  by rewrite IH.
Qed.

Lemma voter_empty (images_masks : list (matrix Z)) (ppms : list (matrix F))
    (voxel_points : matrix F) :
  images_masks = [] \/ ppms = [] ->
  get_voxel_points_projection_is_in_images_mask images_masks ppms voxel_points
  = Raise ValueError.
Proof.
  unfold get_voxel_points_projection_is_in_images_mask.
  intros [-> | ->]; [by destruct ppms|reflexivity].
Qed.

Lemma grid_size_not_positive (S : Z) (x_min x_max y_min y_max z_min z_max : F) :
  S <= 0 ->
  get_voxel_grid_points S x_min x_max y_min y_max z_min z_max = Raise ValueError.
Proof.
  intros HS. unfold get_voxel_grid_points, np_arange.
  replace (Z.to_nat S) with 0%nat by lia. reflexivity.
Qed.
End ValidationFacts.

Section Adequacy.
Context {F : Type} `{Float64 F}.
Implicit Types (s : Ref.store F) (l : Ref.loc).

Lemma store_lookup_new s (o : Ref.obj F) : (s ++ [o]) !! length s = Some o.
Proof. unfold Ref.store in *. by rewrite list_lookup_middle. Qed.

Lemma store_lookup_old s (t : Ref.store F) l (o : Ref.obj F) :
  s !! l = Some o -> (s ++ t) !! l = Some o.
Proof. unfold Ref.store in *. apply lookup_app_l_Some. Qed.

Lemma store_insert_new s (o o' : Ref.obj F) :
  <[length s:=o']> (s ++ [o]) = s ++ [o'].
Proof.
  unfold Ref.store in *.
  by rewrite insert_app_r_alt, Nat.sub_diag by lia.
Qed.

(** The reference layer computes what the value layer computes. *)
Lemma ref_get_pixel_points_adequate s (lp lv : Ref.loc) (ppm points : matrix F) :
  s !! lp = Some (Ref.OFloat ppm) -> s !! lv = Some (Ref.OFloat points) ->
  exists t,
    (Ref.get_pixel_points lp lv s).2 = s ++ t /\
    match get_pixel_points ppm points with
    | Ok pix => exists l, (Ref.get_pixel_points lp lv s).1 = Ok l /\
                          (s ++ t) !! l = Some (Ref.OInt pix)
    | Raise e => (Ref.get_pixel_points lp lv s).1 = Raise e
    end.
Proof.
  intros Hp Hv.
  unfold Ref.get_pixel_points, get_pixel_points, Ref.load_float, Ref.bind,
    Ref.load, Ref.lift, Ref.alloc, Ref.write.
  rewrite Hp. cbn [Ref.as_float]. rewrite Hv. cbn [Ref.as_float].
  destruct (np_matmul ppm points) as [c|e]; cbn [mbind result_bind];
    [|exists []; by rewrite app_nil_r].
  rewrite store_lookup_new. cbn [Ref.as_float].
  destruct (np_idiv_last_row c) as [d|e]; cbn [mbind result_bind];
    [|exists [Ref.OFloat c]; done].
  rewrite decide_True by (rewrite length_app; cbn; lia).
  rewrite store_insert_new, store_lookup_new. cbn [Ref.as_float].
  rewrite length_app. cbn [length]. rewrite Nat.add_1_r.
  replace (S (length s)) with (length (s ++ [Ref.OFloat d]))
    by (rewrite length_app; cbn; lia).
  rewrite store_lookup_new. cbn [Ref.as_float fst snd].
  exists [Ref.OFloat d; Ref.OFloat (map (map f_rint) d);
          Ref.OInt (map (map f_to_int) (map (map f_rint) d))].
  split; [by rewrite <- !app_assoc|].
  eexists. split; [reflexivity|].
  replace (s ++ [_; _; _])
    with ((s ++ [Ref.OFloat d]) ++ [Ref.OFloat (map (map f_rint) d)]
          ++ [Ref.OInt (map (map f_to_int) (map (map f_rint) d))])
    by (by rewrite <- !app_assoc).
  rewrite app_assoc. apply store_lookup_new.
Qed.
End Adequacy.

Section AdequacyOfView.
Context {F : Type} `{Float64 F}.
Implicit Types (s : Ref.store F) (l : Ref.loc).

Lemma ref_points_in_mask_of_view_adequate s (lp li lv : Ref.loc)
    (ppm : matrix F) (img : matrix Z) (points : matrix F) :
  s !! lp = Some (Ref.OFloat ppm) -> s !! li = Some (Ref.OInt img) ->
  s !! lv = Some (Ref.OFloat points) ->
  exists t,
    (Ref.points_in_mask_of_view lp li lv s).2 = s ++ t /\
    match points_in_mask_of_view ppm img points with
    | Ok votes => exists l, (Ref.points_in_mask_of_view lp li lv s).1 = Ok l /\
                            (s ++ t) !! l = Some (Ref.OVec votes)
    | Raise e => (Ref.points_in_mask_of_view lp li lv s).1 = Raise e
    end.
Proof.
  intros Hp Hi Hv.
  destruct (ref_get_pixel_points_adequate s lp lv ppm points Hp Hv)
    as (t & Hstore & Hres).
  destruct (Ref.points_in_mask_of_view lp li lv s) as [r' s'] eqn:Hrun.
  cbn [fst snd].
  unfold Ref.points_in_mask_of_view in Hrun. unfold points_in_mask_of_view.
  unfold Ref.load_int at 1 in Hrun. unfold Ref.bind at 1 2 in Hrun.
  unfold Ref.load at 1 in Hrun.
  rewrite Hi in Hrun. unfold Ref.lift at 1 in Hrun. cbn [Ref.as_int] in Hrun.
  unfold Ref.bind at 1 in Hrun.
  destruct (Ref.get_pixel_points lp lv s) as [r s1]. cbn [fst snd] in Hstore, Hres.
  subst s1.
  destruct (get_pixel_points ppm points) as [pix|e]; cbn [mbind result_bind].
  2:{ subst r. injection Hrun as <- <-. exists t. split; reflexivity. }
  destruct Hres as (l & -> & Hl).
  unfold Ref.load_int, Ref.load_vec, Ref.bind, Ref.load, Ref.lift, Ref.alloc,
    Ref.write, Ref.ret in Hrun.
  unfold Ref.store, Ref.loc in *.
  rewrite Hl in Hrun. cbn [Ref.as_int] in Hrun.
  destruct (np_row pix 0) as [px|e]; cbn [mbind result_bind];
    [|injection Hrun as <- <-; exists t; split; reflexivity].
  destruct (np_row pix 1) as [py|e]; cbn [mbind result_bind];
    [|injection Hrun as <- <-; exists t; split; reflexivity].
  set (idx := np_where _) in *.
  destruct (np_take_cols (np_drop_last_row pix) idx) as [coords|e];
    cbn [mbind result_bind];
    [|injection Hrun as <- <-; eexists; split; [by rewrite <- app_assoc|reflexivity]].
  destruct (np_row coords 1) as [ys|e]; cbn [mbind result_bind];
    [|injection Hrun as <- <-; eexists; split; [by rewrite <- app_assoc|reflexivity]].
  destruct (np_row coords 0) as [xs|e]; cbn [mbind result_bind];
    [|injection Hrun as <- <-; eexists; split; [by rewrite <- app_assoc|reflexivity]].
  rewrite (store_lookup_old _ _ li (Ref.OInt img)) in Hrun
    by (by apply store_lookup_old).
  cbn [Ref.as_int] in Hrun.
  destruct (np_getitem2 img ys xs) as [res|e]; cbn [mbind result_bind];
    [|injection Hrun as <- <-; eexists; split; [by rewrite <- app_assoc|reflexivity]].
  rewrite store_lookup_new in Hrun. cbn [Ref.as_vec] in Hrun.
  destruct (np_setitem _ idx _) as [votes|e]; cbn [mbind result_bind];
    [|injection Hrun as <- <-; eexists; split; [by rewrite <- app_assoc|reflexivity]].
  rewrite decide_True in Hrun by (rewrite !length_app; cbn [length]; lia).
  rewrite store_insert_new in Hrun. injection Hrun as <- <-.
  eexists. split; [by rewrite <- app_assoc|].
  eexists. split; [reflexivity|]. rewrite app_assoc. apply store_lookup_new.
Qed.
End AdequacyOfView.

Section AdequacyOfVoter.
Context {F : Type} `{Float64 F}.
Implicit Types (s t : list (Ref.obj F)) (l : Ref.loc).

Lemma holds_vecs_app s t ls vs : holds_vecs s ls vs -> holds_vecs (s ++ t) ls vs.
Proof.
  intros Hh. eapply Forall2_impl; [exact Hh|]. intros l v. apply lookup_app_l_Some.
Qed.

Lemma ref_views_adequate s (lppms lmasks : list Ref.loc) (lv : Ref.loc)
    (ppms : list (matrix F)) (masks : list (matrix Z)) (points : matrix F) :
  holds_floats s lppms ppms -> holds_ints s lmasks masks ->
  s !! lv = Some (Ref.OFloat points) ->
  forall t0, exists t,
    let run := Ref.for_each
                 (fun '(ppm, img) => Ref.points_in_mask_of_view ppm img lv)
                 (zip lppms lmasks) (s ++ t0) in
    run.2 = (s ++ t0) ++ t /\
    match mapM (fun '(ppm, img) => points_in_mask_of_view ppm img points)
               (zip ppms masks) with
    | Ok rows => exists ls, run.1 = Ok ls /\ holds_vecs ((s ++ t0) ++ t) ls rows
    | Raise e => run.1 = Raise e
    end.
Proof.
  intros Hp. revert lmasks masks.
  induction Hp as [|lp ppm lppms ppms Hlp _ IH]; intros lmasks masks Hm Hv t0.
  { exists []. rewrite app_nil_r. cbn. split; [reflexivity|].
    exists []. split; [reflexivity|constructor]. }
  destruct Hm as [|li img lmasks masks Hli Hm].
  { exists []. rewrite app_nil_r. cbn. split; [reflexivity|].
    exists []. split; [reflexivity|constructor]. }
  cbn [zip_with Ref.for_each mapM].
  destruct (Ref.bind _ _ (s ++ t0)) as [r' s'] eqn:Hrun. cbn zeta. cbn [fst snd].
  destruct (ref_points_in_mask_of_view_adequate (s ++ t0) lp li lv ppm img points)
    as (t1 & Hst1 & Hr1); [by apply lookup_app_l_Some..|].
  unfold Ref.bind at 1 in Hrun.
  destruct (Ref.points_in_mask_of_view lp li lv (s ++ t0)) as [r1 s1].
  cbn [fst snd] in Hst1, Hr1. subst s1.
  destruct (points_in_mask_of_view ppm img points) as [row|e];
    cbn [mbind result_bind].
  2:{ subst r1. injection Hrun as <- <-. exists t1. split; reflexivity. }
  destruct Hr1 as (l1 & -> & Hl1).
  destruct (IH lmasks masks Hm Hv (t0 ++ t1)) as (t2 & Hst2 & Hr2).
  cbn zeta in Hst2, Hr2. rewrite app_assoc in Hst2, Hr2.
  unfold Ref.bind at 1 in Hrun.
  destruct (Ref.for_each _ (zip lppms lmasks) ((s ++ t0) ++ t1)) as [r2 s2].
  cbn [fst snd] in Hst2, Hr2. subst s2.
  exists (t1 ++ t2). rewrite app_assoc.
  destruct (mapM _ (zip ppms masks)) as [rows|e]; cbn [mbind result_bind].
  - destruct Hr2 as (ls & -> & Hls). injection Hrun as <- <-.
    split; [reflexivity|].
    exists (l1 :: ls). split; [reflexivity|]. constructor; [|exact Hls].
    by apply lookup_app_l_Some.
  - subst r2. injection Hrun as <- <-. split; reflexivity.
Qed.

Lemma ref_load_vecs s (ls : list Ref.loc) (rows : list (list Z)) :
  holds_vecs s ls rows -> Ref.for_each Ref.load_vec ls s = (Ok rows, s).
Proof.
  induction 1 as [|l row ls rows Hl _ IH]; [reflexivity|].
  cbn [Ref.for_each]. unfold Ref.bind at 1.
  unfold Ref.load_vec at 1. unfold Ref.bind at 1. unfold Ref.load.
  unfold Ref.store in *. rewrite Hl. cbn [Ref.lift Ref.as_vec].
  unfold Ref.bind at 1. by rewrite IH.
Qed.

Lemma ref_voter_adequate s (lmasks lppms : list Ref.loc) (lv : Ref.loc)
    (masks : list (matrix Z)) (ppms : list (matrix F)) (points : matrix F) :
  holds_ints s lmasks masks -> holds_floats s lppms ppms ->
  s !! lv = Some (Ref.OFloat points) ->
  exists t,
    let run := Ref.get_voxel_points_projection_is_in_images_mask lmasks lppms lv s in
    run.2 = s ++ t /\
    match get_voxel_points_projection_is_in_images_mask masks ppms points with
    | Ok votes => exists l, run.1 = Ok l /\ (s ++ t) !! l = Some (Ref.OInt votes)
    | Raise e => run.1 = Raise e
    end.
Proof.
  intros Hm Hp Hv.
  destruct (ref_views_adequate s lppms lmasks lv ppms masks points Hp Hm Hv [])
    as (t & Hst & Hr).
  cbn zeta in Hst, Hr. rewrite app_nil_r in Hst, Hr.
  destruct (Ref.get_voxel_points_projection_is_in_images_mask lmasks lppms lv s)
    as [r' s'] eqn:Hrun. cbn zeta. cbn [fst snd].
  unfold Ref.get_voxel_points_projection_is_in_images_mask in Hrun.
  unfold get_voxel_points_projection_is_in_images_mask.
  unfold Ref.bind at 1 in Hrun.
  destruct (Ref.for_each _ (zip lppms lmasks) s) as [r s1].
  cbn [fst snd] in Hst, Hr. subst s1.
  destruct (mapM _ (zip ppms masks)) as [rows|e]; cbn [mbind result_bind].
  2:{ subst r. injection Hrun as <- <-. exists t. split; reflexivity. }
  destruct Hr as (ls & -> & Hls).
  unfold Ref.bind at 1 in Hrun. rewrite (ref_load_vecs _ _ _ Hls) in Hrun.
  unfold Ref.bind, Ref.lift, Ref.alloc in Hrun.
  destruct (np_vstack rows) as [votes|e]; injection Hrun as <- <-.
  - exists (t ++ [Ref.OInt votes]). rewrite app_assoc.
    split; [reflexivity|]. eexists. split; [reflexivity|].
    apply list_lookup_middle. reflexivity.
  - exists t. split; reflexivity.
Qed.
End AdequacyOfVoter.

(* ===================================================================== *)
(** * The functions on the sample inputs *)
(* ===================================================================== *)

(** The grid of size 2 over [0, 1] x [10, 20] x [-1, 1]: the third axis
    varies fastest and the second slowest. *)
Example grid_of_size_2 :
  get_voxel_grid_points 2 (Fin 0) (Fin 1) (Fin 10) (Fin 20) (Fin (-1)) (Fin 1)
  = Ok [[Fin 0; Fin 0; Fin 1; Fin 1; Fin 0; Fin 0; Fin 1; Fin 1];
        [Fin 10; Fin 10; Fin 10; Fin 10; Fin 20; Fin 20; Fin 20; Fin 20];
        [Fin (-1); Fin 1; Fin (-1); Fin 1; Fin (-1); Fin 1; Fin (-1); Fin 1];
        [Fin 1; Fin 1; Fin 1; Fin 1; Fin 1; Fin 1; Fin 1; Fin 1]].
Proof. reflexivity. Qed.

(** The sample points through the sample camera: 5/2 rounds to 2, and
    the point with [w = 0] gets the indefinite integer on every row. *)
Example pixel_points_of_sample :
  get_pixel_points (qmat sample_ppm) (qmat sample_points)
  = Ok [[0; 1; 2; int64_min]; [0; 1; 0; int64_min]; [1; 1; 1; int64_min]].
Proof. reflexivity. Qed.

Example votes_of_sample :
  get_voxel_points_projection_is_in_images_mask
    [sample_mask; sample_mask] [qmat sample_ppm; qmat sample_ppm]
    (qmat sample_points)
  = Ok [[1; 1; 1; 0]; [1; 1; 1; 0]].
Proof. reflexivity. Qed.

Example occupancy_of_sample :
  get_voxel_points_occupancy [[1; 1; 1; 0]; [1; 1; 1; 0]] = [2; 2; 2; 0].
Proof. reflexivity. Qed.

(** The same votes through the reference layer: the store holds the
    camera, the mask and the grid at locations 0, 1 and 2; the call
    allocates nine arrays after them and returns the location of the
    last. *)
Example ref_votes_of_sample :
  let s := [Ref.OFloat (qmat sample_ppm); Ref.OInt sample_mask;
            Ref.OFloat (qmat sample_points)] in
  let run := Ref.get_voxel_points_projection_is_in_images_mask
               [1; 1]%nat [0; 0]%nat 2%nat s in
  run.1 = Ok 11%nat /\
  run.2 !! 11%nat = Some (Ref.OInt [[1; 1; 1; 0]; [1; 1; 1; 0]]) /\
  take 3 run.2 = s.
Proof. vm_compute. repeat split. Qed.

(** Cropping one row at the top, one at the bottom and one column at
    the right of the sample image of three channels, and padding it
    back. *)
Example crop_pad_of_sample :
  get_images_to_original_dimensions
    (map Arr3 (get_cropped_images [sample_bgr_image] 1 1 0 1)) 1 1 0 1
  = Ok [Arr3 (Image 3 2 3 [[[0; 0; 0]; [0; 0; 0]];
                           [[7; 8; 9]; [0; 0; 0]];
                           [[0; 0; 0]; [0; 0; 0]]])].
Proof. reflexivity. Qed.

(** The same on an image of one channel: the result has two
    dimensions. *)
Example crop_pad_of_gray_sample :
  get_images_to_original_dimensions
    (map Arr3 (get_cropped_images [sample_image] 1 1 0 1)) 1 1 0 1
  = Ok [Arr2 (Gray 3 2 [[0; 0]; [3; 0]; [0; 0]])].
Proof. reflexivity. Qed.

(* ===================================================================== *)
(** * The properties *)
(* ===================================================================== *)

(** C1.  For masks, 3 by 4 projection matrices and a grid of [M]
    homogeneous points, the voter returns one row of votes per view, and
    the vote of view [k] for voxel [i] is decided by the pixel
    [(px, py)] that [get_pixel_points] gives the voxel: it is 1 exactly
    when [0 <= px < W], [0 <= py < H] and [mask[py, px]] is set, and 0
    otherwise, so also when [px = W] or [py = H]. *)
Theorem vote_iff_in_frame_and_in_mask {F : Type} `{Float64 F}
    (images_masks : list (matrix Z)) (ppms : list (matrix F))
    (voxel_points : matrix F) (M : nat) :
  Forall is_rect images_masks -> Forall (rect 3 4) ppms ->
  rect 4 M voxel_points -> images_masks <> [] -> ppms <> [] ->
  exists votes,
    get_voxel_points_projection_is_in_images_mask images_masks ppms voxel_points
      = Ok votes /\
    rect (min (length ppms) (length images_masks)) M votes /\
    forall k ppm img, ppms !! k = Some ppm -> images_masks !! k = Some img ->
      exists pix, get_pixel_points ppm voxel_points = Ok pix /\
        forall i, (i < M)%nat ->
          exists px py v,
            entry pix 0 i = Some px /\ entry pix 1 i = Some py /\
            entry votes k i = Some v /\
            (v = 1 <-> (0 <= px < Z.of_nat (shape1 img) /\
                        0 <= py < Z.of_nat (shape0 img) /\
                        mask_at img py px <> 0)) /\
            (v <> 1 -> v = 0).
Proof.
  intros Hmasks Hppms Hpts Hm Hp.
  assert (Hcols : length (transpose voxel_points) = M)
    by (eapply transpose_length; [|done]; lia).
  eexists. split; [by apply (voter_pointwise _ _ _ M)|]. split.
  { split; [by rewrite length_map, length_zip_with|].
    apply Forall_map, Forall_forall. intros p _. by rewrite length_map. }
  intros k ppm img Hk Hk'.
  pose proof (proj1 (Forall_forall _ _) Hppms ppm (list_elem_of_lookup_2 _ _ _ Hk))
    as [Hlen Hrows].
  destruct ppm as [|r0 [|r1 [|r2 [|? ?]]]]; try discriminate.
  eexists. split.
  { apply get_pixel_points_pointwise; [done|].
    eapply Forall_impl; [exact Hrows|]. intros r Hr. cbv beta.
    unfold shape0. destruct Hpts as [-> _]. exact Hr. }
  intros i Hi.
  destruct (lookup_lt_is_Some_2 (transpose voxel_points) i) as [c Hc]; [lia|].
  change (List.last [r0; r1; r2] []) with r2.
  exists (pixel_coord r0 r2 c), (pixel_coord r1 r2 c),
         (vote_of_point [r0; r1; r2] img c).
  unfold entry. cbn [map lookup list_lookup mbind option_bind].
  rewrite !list_lookup_fmap, Hc.
  assert (Hzip : zip ppms images_masks !! k = Some ([r0; r1; r2], img))
    by (by rewrite lookup_zip_with, Hk; cbn; rewrite Hk').
  rewrite Hzip. cbn [fmap option_fmap option_map fst snd mbind option_bind].
  rewrite list_lookup_fmap, Hc. cbn [fmap option_fmap option_map].
  do 3 (split; [reflexivity|]). split; [split|].
  - unfold vote_of_point. cbn [nth List.last].
    destruct (in_frame _ _ _ _) eqn:Hin; [|discriminate].
    unfold in_frame in Hin.
    apply andb_true_iff in Hin as [[Hx1 Hx2]%andb_true_iff [Hy1 Hy2]%andb_true_iff].
    apply Z.leb_le in Hx1, Hy1. apply Z.ltb_lt in Hx2, Hy2.
    intros Hv. repeat split; try lia.
    intros Hz. rewrite Hz in Hv. discriminate.
  - intros (Hx & Hy & Hz). unfold vote_of_point. cbn [nth List.last].
    replace (in_frame _ _ _ _) with true.
    + apply Z.eqb_neq in Hz. by rewrite Hz.
    + symmetry. unfold in_frame.
      repeat (apply andb_true_iff; split);
        first [apply Z.leb_le; lia|apply Z.ltb_lt; lia].
  - unfold vote_of_point. destruct (in_frame _ _ _ _); [|done].
    by destruct (negb _).
Qed.

Lemma vote_iff_in_frame_and_in_mask_witness :
  exists votes,
    get_voxel_points_projection_is_in_images_mask
      [sample_mask] [qmat sample_ppm] (qmat sample_points) = Ok votes /\
    rect (min 1 1) 4 votes /\
    forall k ppm img,
      [qmat sample_ppm] !! k = Some ppm -> [sample_mask] !! k = Some img ->
      exists pix, get_pixel_points ppm (qmat sample_points) = Ok pix /\
        forall i, (i < 4)%nat ->
          exists px py v,
            entry pix 0 i = Some px /\ entry pix 1 i = Some py /\
            entry votes k i = Some v /\
            (v = 1 <-> (0 <= px < Z.of_nat (shape1 img) /\
                        0 <= py < Z.of_nat (shape0 img) /\
                        mask_at img py px <> 0)) /\
            (v <> 1 -> v = 0).
Proof.
  apply (vote_iff_in_frame_and_in_mask [sample_mask] [qmat sample_ppm]
           (qmat sample_points) 4).
  - repeat constructor.
  - repeat constructor.
  - repeat constructor.
  - discriminate.
  - discriminate.
Defined.




(** C3, as the code has it.  For a grid size [S] of at least 2, whatever
    the arithmetic, the grid has four rows of [S^3] items; its fourth
    row is all ones; and each coordinate row holds
    [min + i * (max - min) / (S - 1)], as the arithmetic evaluates it,
    for indices [i] that take every value from 0 to [S - 1].  In exact
    arithmetic, for bounds with [min < max], the least and the greatest
    item of each coordinate row are the bounds of its axis. *)
Theorem grid_shape_and_exact_bounds (S : Z) :
  2 <= S ->
  (forall (F : Type) (HF : Float64 F) (x_min x_max y_min y_max z_min z_max : F),
     exists ix iy iz : list Z,
       get_voxel_grid_points S x_min x_max y_min y_max z_min z_max
         = Ok [map (grid_scale S x_min x_max) ix;
               map (grid_scale S y_min y_max) iy;
               map (grid_scale S z_min z_max) iz;
               replicate (Z.to_nat (S ^ 3)) (f_of_int 1)] /\
       length ix = Z.to_nat (S ^ 3) /\
       length iy = Z.to_nat (S ^ 3) /\
       length iz = Z.to_nat (S ^ 3) /\
       (forall v, In v ix <-> 0 <= v < S) /\
       (forall v, In v iy <-> 0 <= v < S) /\
       (forall v, In v iz <-> 0 <= v < S)) /\
  (forall x_min x_max y_min y_max z_min z_max : Q,
     (x_min < x_max)%Q -> (y_min < y_max)%Q -> (z_min < z_max)%Q ->
     grid_as_specified xq_eq S (Fin x_min) (Fin x_max) (Fin y_min) (Fin y_max)
                       (Fin z_min) (Fin z_max)).
Proof.
  intros HS.
  assert (Hlen : forall h : Z -> Z -> Z -> Z,
            length (np_flatten3 (mesh h (np_arange S) (np_arange S) (np_arange S)))
            = Z.to_nat (S ^ 3)).
  { intros h. rewrite length_flatten_mesh, length_np_arange. nia. }
  split.
  - intros F HF x_min x_max y_min y_max z_min z_max.
    do 3 eexists. split; [apply get_voxel_grid_points_ok; lia|].
    rewrite !Hlen. do 3 (split; [reflexivity|]).
    split; [|split]; intros v; apply flat_mesh_range;
      (lia || unfold is_proj; auto).
  - intros x_min x_max y_min y_max z_min z_max Hx Hy Hz.
    do 3 eexists. split; [apply get_voxel_grid_points_ok; lia|].
    rewrite !length_map, !Hlen. do 3 (split; [reflexivity|]).
    repeat split; apply axis_spans_exact; try done;
      intros v; apply flat_mesh_range; (lia || unfold is_proj; auto).
Qed.

Lemma grid_shape_and_exact_bounds_witness :
  2 <= 2 /\
  grid_as_specified xq_eq 2 (Fin 0) (Fin 1) (Fin (-1)) (Fin 1) (Fin (1 # 2)) (Fin 3).
Proof.
  split; [lia|].
  apply (proj2 (grid_shape_and_exact_bounds 2 ltac:(lia))); reflexivity.
Defined.

(** C3, as the specification states it, fails in binary64: for a grid
    of size 3 whose first axis ranges from -0.1 to 0.2, the greatest
    item of the first row is the binary64 number after 0.2. *)
Lemma grid_bounds_binary64_counterexample :
  ~ grid_as_specified b64_eq 3
      (-0x1.999999999999ap-4)%float (0x1.999999999999ap-3)%float
      0%float 1%float 0%float 1%float.
Proof.
  intros (xs & ys & zs & Hg & _ & _ & _ & (a & b & _ & _ & Hmax & Hb) & _).
  vm_compute in Hg. injection Hg as <- <- <-.
  vm_compute in Hmax. injection Hmax as <-.
  vm_compute in Hb. discriminate Hb.
Qed.

(** C4.  For a grid of [M] columns, [M] occupancy counts and any
    threshold, the filter returns the columns whose count is at least
    the threshold, in their original order: the columns of the result
    are the columns of the grid filtered by their count, a subsequence
    of the columns of the grid. *)
Theorem min_occupancy_filter_is_ordered_subsequence {F : Type} `{Float64 F}
    (voxel_points : matrix F) (occupancy : list Z) (min_occupancy : Z)
    (n M : nat) :
  (0 < n)%nat -> rect n M voxel_points -> length occupancy = M ->
  exists kept,
    get_voxel_points_by_minimum_occupancy voxel_points occupancy min_occupancy
      = Ok kept /\
    transpose kept
      = (filter (fun p => min_occupancy <= p.2)
                (zip (transpose voxel_points) occupancy)).*1 /\
    sublist (transpose kept) (transpose voxel_points).
Proof.
  intros Hn [Hlen Hrows] Hocc.
  unfold get_voxel_points_by_minimum_occupancy, np_compress_cols.
  assert (Hshape : shape1 voxel_points = M).
  { destruct voxel_points as [|r m]; [cbn in Hlen; lia|].
    by apply Forall_cons in Hrows as [Hr _]. }
  rewrite length_map, Hocc, Hshape, Nat.eqb_refl.
  eexists. split; [reflexivity|].
  rewrite transpose_compress. split.
  - apply compress_filter.
  - apply compress_sublist.
Qed.

Lemma min_occupancy_filter_is_ordered_subsequence_witness :
  exists kept,
    get_voxel_points_by_minimum_occupancy (qmat sample_points) [2; 0; 1; 3] 1
      = Ok kept /\
    transpose kept
      = (filter (fun p => 1 <= p.2)
                (zip (transpose (qmat sample_points)) [2; 0; 1; 3])).*1 /\
    sublist (transpose kept) (transpose (qmat sample_points)).
Proof.
  apply (min_occupancy_filter_is_ordered_subsequence
           (qmat sample_points) [2; 0; 1; 3] 1 4 4).
  - lia.
  - repeat constructor.
  - reflexivity.
Defined.

(** C5.  Whatever the voter returns, every vote is 0 or 1, and every
    entry of the aggregated occupancy, of which there is one per voxel,
    lies between 0 and the number of vote vectors. *)
Theorem votes_binary_and_occupancy_bounded {F : Type} `{Float64 F}
    (images_masks : list (matrix Z)) (ppms : list (matrix F))
    (voxel_points : matrix F) (votes : matrix Z) :
  get_voxel_points_projection_is_in_images_mask images_masks ppms voxel_points
    = Ok votes ->
  Forall (Forall (fun v => v = 0 \/ v = 1)) votes /\
  length (get_voxel_points_occupancy votes) = shape1 votes /\
  Forall (fun c => 0 <= c <= Z.of_nat (length votes))
         (get_voxel_points_occupancy votes).
Proof.
  intros Hvotes.
  pose proof (voter_binary _ _ _ _ Hvotes) as Hbin.
  split; [exact Hbin|]. unfold get_voxel_points_occupancy, np_sum_axis0. split.
  - rewrite foldl_zip_with_length; rewrite length_replicate; [reflexivity|].
    unfold get_voxel_points_projection_is_in_images_mask in Hvotes.
    bind_inv Hvotes. unfold np_vstack in Hvotes.
    destruct a as [|r rs]; [discriminate|].
    destruct (forallb _ rs) eqn:Hall; [|discriminate].
    injection Hvotes as <-. constructor; [reflexivity|].
    apply Is_true_true, forallb_True in Hall.
    eapply Forall_impl; [exact Hall|]. intros r' Hr'. cbv beta in Hr'.
    by apply Is_true_true, Nat.eqb_eq in Hr'.
  - apply (foldl_add_bounds votes 0); [|exact Hbin].
    apply Forall_replicate. lia.
Qed.

Lemma votes_binary_and_occupancy_bounded_witness :
  Forall (Forall (fun v => v = 0 \/ v = 1)) [[1; 1; 1; 0]; [1; 1; 1; 0]] /\
  length (get_voxel_points_occupancy [[1; 1; 1; 0]; [1; 1; 1; 0]])
    = shape1 [[1; 1; 1; 0]; [1; 1; 1; 0]] /\
  Forall (fun c => 0 <= c <= Z.of_nat (length [[1; 1; 1; 0]; [1; 1; 1; 0]]))
         (get_voxel_points_occupancy [[1; 1; 1; 0]; [1; 1; 1; 0]]).
Proof.
  apply (votes_binary_and_occupancy_bounded
           [sample_mask; sample_mask] [qmat sample_ppm; qmat sample_ppm]
           (qmat sample_points)).
  vm_compute. reflexivity.
Defined.

(** C6.  In exact arithmetic and in binary64 alike, a perspective
    divisor that is exactly zero does not stop the voter: the quotient
    is an infinity or NaN, its conversion to an integer is the least
    [int64], which lies outside every frame, so the point votes 0 in
    that view, and the votes of the other voxels, which depend on their
    own columns only, are not affected. *)
Theorem zero_divisor_votes_zero_alone :
  zero_divisor_policy xq xq_is_zero /\ zero_divisor_policy float b64_is_zero.
Proof.
  split.
  - apply zero_divisor_policy_holds, xq_div_zero_indefinite.
  - apply zero_divisor_policy_holds, b64_div_zero_indefinite.
Qed.

Lemma zero_divisor_votes_zero_alone_witness :
  exists votes,
    get_voxel_points_projection_is_in_images_mask
      [sample_mask] [qmat sample_ppm] (qmat sample_points) = Ok votes /\
    entry votes 0 3 = Some 0 /\
    (forall voxel_points', rect 4 4 voxel_points' ->
       (forall i, i <> 3%nat ->
          transpose voxel_points' !! i = transpose (qmat sample_points) !! i) ->
       exists votes',
         get_voxel_points_projection_is_in_images_mask
           [sample_mask] [qmat sample_ppm] voxel_points' = Ok votes' /\
         forall k' i, i <> 3%nat -> entry votes' k' i = entry votes k' i) /\
    (forall ppms', Forall (rect 3 4) ppms' -> ppms' <> [] ->
       (forall k', k' <> 0%nat -> ppms' !! k' = [qmat sample_ppm] !! k') ->
       exists votes',
         get_voxel_points_projection_is_in_images_mask
           [sample_mask] ppms' (qmat sample_points) = Ok votes' /\
         forall k' i, k' <> 0%nat -> entry votes' k' i = entry votes k' i).
Proof.
  apply (proj1 zero_divisor_votes_zero_alone [sample_mask] [qmat sample_ppm]
           (qmat sample_points) 4%nat 0%nat 3%nat (qmat sample_ppm)
           [Fin 7; Fin 1; Fin 0; Fin 0]).
  - repeat constructor.
  - repeat constructor.
  - repeat constructor.
  - reflexivity.
  - cbn. lia.
  - reflexivity.
  - vm_compute. reflexivity.
Defined.

(** C7, as the code has it.  Nothing is validated ahead of the work.
    An empty sequence of masks or of matrices makes the final stacking
    raise; a grid size of 0 or less makes the minimum of an empty array
    raise; a grid size of 1 raises nothing and, in exact arithmetic,
    yields one point whose coordinates are NaN; and sequences of
    different lengths are cut to the shorter one. *)
Theorem no_eager_validation :
  (forall (F : Type) (HF : Float64 F) images_masks ppms (voxel_points : matrix F),
     images_masks = [] \/ ppms = [] ->
     get_voxel_points_projection_is_in_images_mask images_masks ppms voxel_points
     = Raise ValueError) /\
  (forall (F : Type) (HF : Float64 F) (S : Z)
          (x_min x_max y_min y_max z_min z_max : F),
     S <= 0 ->
     get_voxel_grid_points S x_min x_max y_min y_max z_min z_max
     = Raise ValueError) /\
  (forall x_min x_max y_min y_max z_min z_max : Q,
     get_voxel_grid_points 1 (Fin x_min) (Fin x_max) (Fin y_min) (Fin y_max)
                             (Fin z_min) (Fin z_max)
     = Ok [[NaN]; [NaN]; [NaN]; [Fin 1]]) /\
  (forall (F : Type) (HF : Float64 F) images_masks ppms (voxel_points : matrix F),
     let n := min (length images_masks) (length ppms) in
     get_voxel_points_projection_is_in_images_mask images_masks ppms voxel_points
     = get_voxel_points_projection_is_in_images_mask
         (take n images_masks) (take n ppms) voxel_points).
Proof.
  split; [|split; [|split]].
  - intros F HF images_masks ppms voxel_points. apply voter_empty.
  - intros F HF S x_min x_max y_min y_max z_min z_max. apply grid_size_not_positive.
  - intros x_min x_max y_min y_max z_min z_max. reflexivity.
  - intros F HF images_masks ppms voxel_points n.
    unfold get_voxel_points_projection_is_in_images_mask. subst n.
    by rewrite zip_take_min.
Qed.

Lemma no_eager_validation_witness :
  get_voxel_points_projection_is_in_images_mask
    [] [qmat sample_ppm] (qmat sample_points) = Raise ValueError /\
  get_voxel_grid_points (-2) (Fin 0) (Fin 1) (Fin 0) (Fin 1) (Fin 0) (Fin 1)
  = Raise ValueError.
Proof.
  destruct no_eager_validation as (Hempty & Hsize & _). split.
  - apply Hempty. left. reflexivity.
  - apply Hsize. lia.
Defined.

(** C7 as the specification states it fails: one mask and two matrices
    do not raise. *)
Lemma mismatched_lengths_counterexample :
  ~ exists e,
      get_voxel_points_projection_is_in_images_mask
        [sample_mask] [qmat sample_ppm; qmat sample_ppm] (qmat sample_points)
      = Raise e.
Proof. intros [e He]. vm_compute in He. discriminate He. Qed.

(** C8.  Permuting a sequence of vote vectors of one length does not
    change the aggregated occupancy. *)
Theorem occupancy_permutation_invariant (votes votes' : matrix Z) (M : nat) :
  Forall (fun row => length row = M) votes ->
  Permutation votes votes' ->
  get_voxel_points_occupancy votes' = get_voxel_points_occupancy votes.
Proof.
  intros Hlen Hperm. unfold get_voxel_points_occupancy, np_sum_axis0.
  assert (Hshape : shape1 votes' = shape1 votes).
  { assert (Hlen' : Forall (fun row => length row = M) votes')
      by (by rewrite <- Hperm).
    destruct votes as [|r rs], votes' as [|r' rs']; try reflexivity.
    - by apply Permutation_nil_cons in Hperm.
    - symmetry in Hperm. by apply Permutation_nil_cons in Hperm.
    - unfold shape1. cbn [hd].
      apply Forall_cons in Hlen as [-> _]. by apply Forall_cons in Hlen' as [-> _]. }
  rewrite Hshape. symmetry. by apply foldl_add_perm.
Qed.

Lemma occupancy_permutation_invariant_witness :
  get_voxel_points_occupancy [[0; 1; 1]; [1; 1; 0]; [1; 0; 0]]
  = get_voxel_points_occupancy [[1; 0; 0]; [0; 1; 1]; [1; 1; 0]].
Proof.
  apply (occupancy_permutation_invariant
           [[1; 0; 0]; [0; 1; 1]; [1; 1; 0]] [[0; 1; 1]; [1; 1; 0]; [1; 0; 0]] 3).
  - repeat constructor.
  - apply (Permutation_cons_append [[0; 1; 1]; [1; 1; 0]] [1; 0; 0]).
Defined.

(** C9.  Whatever the store, [get_pixel_points], on any two locations,
    and any sequence of calls of the voter, on any locations, raising or
    not, leave every array that existed before as it was: in particular
    the grid and the masks they are given. *)
Theorem projection_and_voting_preserve_inputs {F : Type} `{Float64 F}
    (s : Ref.store F) (ppm points : Ref.loc)
    (calls : list (list Ref.loc * list Ref.loc * Ref.loc)) :
  take (length s) (Ref.get_pixel_points ppm points s).2 = s /\
  take (length s) (Ref.voter_calls calls s).2 = s.
Proof.
  split.
  - destruct (framed_get_pixel_points (length s) ppm points s) as (_ & -> & _);
      [done|]. apply firstn_all.
  - destruct (framed_voter_calls (length s) calls s) as (_ & -> & _); [done|].
    apply firstn_all.
Qed.

(** C10, as the code has it.  For a non-empty list of well-formed
    [H] by [W] images of three channels, and crop offsets that are each
    non-negative with [top + bottom <= H] and [left + right <= W],
    cropping and then padding with the same offsets succeeds and yields
    as many well-formed images of three channels, of the original
    height and width. *)
Theorem crop_pad_restores_dimensions (images : list image)
    (top bottom left right : Z) (H W : nat) :
  images <> [] ->
  Forall (fun im => image_wf im /\ im_rows im = H /\ im_cols im = W /\
                    im_chans im = 3%nat)
         images ->
  0 <= top -> 0 <= bottom -> 0 <= left -> 0 <= right ->
  top + bottom <= Z.of_nat H -> left + right <= Z.of_nat W ->
  exists out,
    get_images_to_original_dimensions
      (map Arr3 (get_cropped_images images top bottom left right))
      top bottom left right
      = Ok (map Arr3 out) /\
    length out = length images /\
    Forall (fun im => image_wf im /\ im_rows im = H /\ im_cols im = W /\
                      im_chans im = 3%nat)
           out.
Proof.
  intros Hne Himgs Ht Hb Hl Hr Hh Hw.
  unfold get_images_to_original_dimensions, get_cropped_images.
  destruct images as [|img0 imgs]; [done|]. clear Hne.
  pose proof (Forall_inv Himgs) as (_ & H0 & W0 & _).
  rewrite H0, W0. clear H0 W0.
  induction Himgs as [|img rest (Hwf & Hrows & Hcols & Hchans) _ IH].
  - exists []. by repeat split.
  - destruct IH as (out & Hout & Hlen & Hall).
    destruct (crop_pad_one img top bottom left right)
      as (o & Ho & Hwfo & Hro & Hco & Hcho); try done; try lia.
    rewrite Hrows, Hcols in Ho.
    exists (o :: out). cbn [map mapM]. rewrite Ho, result_bind_ok, Hout.
    split; [reflexivity|]. split; [cbn; by rewrite Hlen|].
    constructor; [|exact Hall].
    split; [exact Hwfo|]. repeat split; congruence.
Qed.

Lemma crop_pad_restores_dimensions_witness :
  exists out,
    get_images_to_original_dimensions
      (map Arr3 (get_cropped_images [sample_bgr_image] 1 1 0 1)) 1 1 0 1
      = Ok (map Arr3 out) /\
    length out = length [sample_bgr_image] /\
    Forall (fun im => image_wf im /\ im_rows im = 3%nat /\ im_cols im = 2%nat /\
                      im_chans im = 3%nat) out.
Proof.
  apply (crop_pad_restores_dimensions [sample_bgr_image] 1 1 0 1 3 2);
    try (cbn; lia).
  - discriminate.
  - repeat constructor.
Defined.

(** C10 as it is stated fails, on an image of three channels: the
    offsets [top = -1], [bottom = 1] have a sum within [0 .. H], the
    crop keeps no row, and the padding is refused. *)
Lemma crop_pad_negative_offset_counterexample :
  ~ crop_pad_roundtrip_as_stated [sample_bgr_image] (-1) 1 0 0 3 2.
Proof.
  intros Hclaim. destruct Hclaim as (out & Hout & _).
  - discriminate.
  - repeat constructor.
  - cbn. lia.
  - cbn. lia.
  - vm_compute in Hout. discriminate Hout.
Qed.


(* ===================================================================== *)
(** * Further properties of the grid *)
(* ===================================================================== *)

Lemma lookup_concat_uniform {A} (k : nat) (l : list (list A)) (i j : nat) :
  Forall (fun r => length r = k) l -> (j < k)%nat ->
  concat l !! (i * k + j)%nat = l !! i ≫= (.!! j).
Proof.
  intros Hl Hj. revert i. induction Hl as [|r l Hr _ IH]; intros i; [by destruct i|].
  destruct i as [|i]; cbn [concat].
  - cbn. by rewrite lookup_app_l by lia.
  - rewrite lookup_app_r by (rewrite Hr; nia).
    replace (S i * k + j - length r)%nat with (i * k + j)%nat by (rewrite Hr; nia).
    apply IH.
Qed.

(** The item of a flattened mesh at the position [(i * |xs| + j) * |zs| + k]. *)
Lemma lookup_flatten_mesh {A} (h : A -> A -> A -> A) (xs ys zs : list A)
    (i j k : nat) (x y z : A) :
  ys !! i = Some y -> xs !! j = Some x -> zs !! k = Some z ->
  np_flatten3 (mesh h xs ys zs) !! ((i * length xs + j) * length zs + k)%nat
  = Some (h x y z).
Proof.
  intros Hy Hx Hz. unfold np_flatten3, mesh.
  rewrite (lookup_concat_uniform (length zs)); [|..|by eapply lookup_lt_Some].
  2:{ apply Forall_concat, Forall_map, Forall_forall. intros y' _.
      apply Forall_map, Forall_forall. intros x' _. by rewrite length_map. }
  rewrite (lookup_concat_uniform (length xs)); [|..|by eapply lookup_lt_Some].
  2:{ apply Forall_map, Forall_forall. intros y' _. by rewrite length_map. }
  rewrite list_lookup_fmap, Hy. cbn.
  rewrite list_lookup_fmap, Hx. cbn.
  by rewrite list_lookup_fmap, Hz.
Qed.

Lemma lookup_np_arange (n : Z) (i : nat) :
  (i < Z.to_nat n)%nat -> np_arange n !! i = Some (Z.of_nat i).
Proof.
  intros Hi. unfold np_arange. rewrite list_lookup_fmap, lookup_seq_lt by done.
  reflexivity.
Qed.

(** The index triple at a position of the flattened lattice. *)
Lemma lookup_flat_grid (S : Z) (h : Z -> Z -> Z -> Z) (n : nat) :
  1 <= S -> (n < Z.to_nat (S ^ 3))%nat ->
  np_flatten3 (mesh h (np_arange S) (np_arange S) (np_arange S)) !! n
  = Some (h ((Z.of_nat n / S) mod S) (Z.of_nat n / (S * S)) (Z.of_nat n mod S)).
Proof.
  intros HS Hn.
  set (i := Z.of_nat n / (S * S)). set (j := (Z.of_nat n / S) mod S).
  set (k := Z.of_nat n mod S).
  assert (Hk : 0 <= k < S) by (apply Z.mod_pos_bound; lia).
  assert (Hj : 0 <= j < S) by (apply Z.mod_pos_bound; lia).
  assert (Hi : 0 <= i < S).
  { split; [apply Z.div_pos; nia|].
    apply Z.div_lt_upper_bound; [nia|]. nia. }
  assert (Hdec : Z.of_nat n = (i * S + j) * S + k).
  { unfold i, j, k. rewrite <- Z.div_div by lia.
    pose proof (Z.div_mod (Z.of_nat n) S ltac:(lia)) as H1.
    pose proof (Z.div_mod (Z.of_nat n / S) S ltac:(lia)) as H2.
    nia. }
  replace n with ((Z.to_nat i * length (np_arange S) + Z.to_nat j)
                  * length (np_arange S) + Z.to_nat k)%nat
    by (rewrite length_np_arange; nia).
  rewrite (lookup_flatten_mesh h _ _ _ _ _ _ j i k);
    [reflexivity|..];
    rewrite lookup_np_arange by lia; f_equal; lia.
Qed.

(** X1.  The order of the lattice.  For a grid size [S] of at least 1,
    in any arithmetic, the point at position [n] has the x of index
    [(n / S) mod S], the y of index [n / S^2] and the z of index
    [n mod S], each scaled into its range, and a last coordinate of 1:
    z varies fastest, then x, then y. *)
Theorem grid_point_at_position {F : Type} `{Float64 F} (S : Z)
    (x_min x_max y_min y_max z_min z_max : F) (n : nat) :
  1 <= S -> (n < Z.to_nat (S ^ 3))%nat ->
  exists g,
    get_voxel_grid_points S x_min x_max y_min y_max z_min z_max = Ok g /\
    entry g 0 n = Some (grid_scale S x_min x_max ((Z.of_nat n / S) mod S)) /\
    entry g 1 n = Some (grid_scale S y_min y_max (Z.of_nat n / (S * S))) /\
    entry g 2 n = Some (grid_scale S z_min z_max (Z.of_nat n mod S)) /\
    entry g 3 n = Some (f_of_int 1).
Proof.
  intros HS Hn. eexists. split; [by apply get_voxel_grid_points_ok|].
  unfold entry. cbn [lookup list_lookup mbind option_bind].
  rewrite !list_lookup_fmap, !lookup_flat_grid by done. cbn.
  repeat split. by rewrite lookup_replicate_2.
Qed.

Lemma grid_point_at_position_witness :
  exists g,
    get_voxel_grid_points 2 (Fin 0) (Fin 1) (Fin 10) (Fin 20) (Fin (-1)) (Fin 1)
      = Ok g /\
    entry g 0 5 = Some (grid_scale 2 (Fin 0) (Fin 1) ((Z.of_nat 5 / 2) mod 2)) /\
    entry g 1 5 = Some (grid_scale 2 (Fin 10) (Fin 20) (Z.of_nat 5 / (2 * 2))) /\
    entry g 2 5 = Some (grid_scale 2 (Fin (-1)) (Fin 1) (Z.of_nat 5 mod 2)) /\
    entry g 3 5 = Some (f_of_int 1).
Proof.
  apply (grid_point_at_position 2 (Fin 0) (Fin 1) (Fin 10) (Fin 20) (Fin (-1)) (Fin 1) 5).
  - lia.
  - cbn. lia.
Defined.

(* ===================================================================== *)
(** * Further properties of the votes, the occupancy and the filter *)
(* ===================================================================== *)

Lemma foldl_add_lookup (rows : matrix Z) (acc : list Z) (i : nat) (a : Z) (c : list Z) :
  acc !! i = Some a ->
  Forall2 (fun row x => row !! i = Some x) rows c ->
  foldl (zip_with Z.add) acc rows !! i = Some (a + foldr Z.add 0 c).
Proof.
  intros Ha Hc. revert acc a Ha.
  induction Hc as [|row x rows c Hx _ IH]; intros acc a Ha; cbn [foldl foldr].
  - rewrite Ha. f_equal. lia.
  - rewrite (IH _ (a + x)); [f_equal; lia|].
    rewrite lookup_zip_with, Ha. cbn. by rewrite Hx.
Qed.

Lemma sum_binary_count {B} (g : B -> Z) (l : list B) :
  Forall (fun p => g p = 0 \/ g p = 1) l ->
  foldr Z.add 0 (map g l) = Z.of_nat (length (filter (fun p => g p = 1) l)).
Proof.
  induction 1 as [|p l Hp _ IH]; [reflexivity|].
  cbn [map foldr]. rewrite IH, filter_cons.
  destruct (decide (g p = 1)) as [->|Hne]; cbn [length]; [lia|].
  destruct Hp as [-> | ?]; [lia|done].
Qed.

(** The sum over the rows of a matrix given by a function of the row and
    of the column. *)
Lemma np_sum_axis0_pointwise {B C} (f : B -> C -> Z) (views : list B) (cols : list C) :
  views <> [] ->
  np_sum_axis0 (map (fun p => map (f p) cols) views)
  = map (fun c => foldr Z.add 0 (map (fun p => f p c) views)) cols.
Proof.
  intros Hne. unfold np_sum_axis0.
  assert (Hsh : shape1 (map (fun p => map (f p) cols) views) = length cols).
  { destruct views; [done|]. unfold shape1. cbn. by rewrite length_map. }
  rewrite Hsh. apply list_eq. intros i.
  rewrite list_lookup_fmap. destruct (cols !! i) as [c|] eqn:Hc; cbn.
  - apply foldl_add_lookup with (a := 0).
    + apply lookup_replicate_2. by eapply lookup_lt_Some.
    + apply Forall2_fmap, Forall_Forall2_diag, Forall_forall. intros p _.
      by rewrite list_lookup_fmap, Hc.
  - apply lookup_ge_None. rewrite foldl_zip_with_length.
    + rewrite length_replicate. by apply lookup_ge_None.
    + apply Forall_map, Forall_forall. intros p _. cbn.
      by rewrite length_map, length_replicate.
Qed.

Lemma compress_bool_decide {A} (P : A -> Prop) `{!forall x, Decision (P x)}
    (l : list A) :
  compress (map (fun x => bool_decide (P x)) l) l = filter P l.
Proof.
  induction l as [|x l IH]; [reflexivity|].
  cbn [map compress]. rewrite filter_cons, IH.
  by destruct (decide (P x)) as [HP|HP];
    [rewrite bool_decide_eq_true_2|rewrite bool_decide_eq_false_2].
Qed.

Lemma vote_of_point_binary {F : Type} `{Float64 F} (ppm : matrix F) (img : matrix Z)
    (c : list F) :
  vote_of_point ppm img c = 0 \/ vote_of_point ppm img c = 1.
Proof.
  unfold vote_of_point. cbv zeta. destruct (in_frame _ _ _ _); [|by left].
  destruct (negb _); cbn; auto.
Qed.

Lemma voter_rect {F : Type} `{Float64 F} images_masks ppms (voxel_points : matrix F)
    votes :
  get_voxel_points_projection_is_in_images_mask images_masks ppms voxel_points
  = Ok votes ->
  votes <> [] /\ Forall (fun r => length r = shape1 votes) votes.
Proof.
  intros Hvotes. unfold get_voxel_points_projection_is_in_images_mask in Hvotes.
  bind_inv Hvotes. unfold np_vstack in Hvotes.
  destruct a as [|r rs]; [discriminate|].
  destruct (forallb _ rs) eqn:Hall; [|discriminate].
  injection Hvotes as <-. split; [done|]. constructor; [reflexivity|].
  apply Is_true_true, forallb_True in Hall.
  eapply Forall_impl; [exact Hall|]. intros r' Hr'. cbv beta in Hr'.
  by apply Is_true_true, Nat.eqb_eq in Hr'.
Qed.

(** The occupancy of the votes of the views, and what the filter keeps
    of the grid, in terms of the vote of a view for a point. *)
Lemma carve_at_threshold {F : Type} `{Float64 F}
    (images_masks : list (matrix Z)) (ppms : list (matrix F))
    (voxel_points : matrix F) (M : nat) (t : Z) :
  Forall is_rect images_masks -> Forall (rect 3 4) ppms ->
  rect 4 M voxel_points -> images_masks <> [] -> ppms <> [] ->
  let count c :=
    Z.of_nat (length (filter (fun p => vote_of_point p.1 p.2 c = 1)
                             (zip ppms images_masks))) in
  exists votes kept,
    get_voxel_points_projection_is_in_images_mask images_masks ppms voxel_points
      = Ok votes /\
    get_voxel_points_occupancy votes = map count (transpose voxel_points) /\
    get_voxel_points_by_minimum_occupancy voxel_points
      (get_voxel_points_occupancy votes) t = Ok kept /\
    kept = map (compress (map (fun c => bool_decide (t <= count c))
                              (transpose voxel_points))) voxel_points /\
    transpose kept = filter (fun c => t <= count c) (transpose voxel_points).
Proof.
  intros Hmasks Hppms Hgrid Hm Hp count.
  assert (Hocc : get_voxel_points_occupancy
                   (map (fun p => map (vote_of_point p.1 p.2) (transpose voxel_points))
                        (zip ppms images_masks))
                 = map count (transpose voxel_points)).
  { unfold get_voxel_points_occupancy.
    rewrite (np_sum_axis0_pointwise (fun p c => vote_of_point p.1 p.2 c)).
    - apply map_ext. intros c. apply sum_binary_count.
      apply Forall_forall. intros p _. apply vote_of_point_binary.
    - destruct ppms, images_masks; done. }
  do 2 eexists. split; [by eapply voter_pointwise|].
  split; [exact Hocc|]. rewrite Hocc.
  unfold get_voxel_points_by_minimum_occupancy, np_compress_cols.
  assert (Hshape : shape1 voxel_points = M).
  { destruct Hgrid as [Hlen Hrows].
    destruct voxel_points as [|r m]; [cbn in Hlen; lia|].
    by apply Forall_cons in Hrows as [Hr _]. }
  rewrite !length_map, (transpose_length 4 M), Hshape, Nat.eqb_refl by (done || lia).
  assert (Hmask : map (fun o => t <=? o) (map count (transpose voxel_points))
                  = map (fun c => bool_decide (t <= count c)) (transpose voxel_points)).
  { rewrite map_map. apply map_ext. intros c.
    destruct (t <=? count c) eqn:Hle.
    - symmetry. apply bool_decide_eq_true_2. lia.
    - symmetry. apply bool_decide_eq_false_2. lia. }
  rewrite Hmask. split; [reflexivity|]. split; [reflexivity|].
  rewrite transpose_compress. apply compress_bool_decide.
Qed.

Lemma length_filter_all {A} (P : A -> Prop) `{!forall x, Decision (P x)} (l : list A) :
  (length l <= length (filter P l))%nat <-> Forall P l.
Proof.
  induction l as [|x l IH]; [by split; [constructor|]|].
  rewrite filter_cons. pose proof (length_filter P l) as Hle.
  destruct (decide (P x)) as [HP|HP]; cbn [length].
  - rewrite Forall_cons, <- IH. split; [intros; split; [done|lia]|intros [_ ?]; lia].
  - split; [lia|]. intros [? _]%Forall_cons. done.
Qed.

Lemma compress_all_false {A B} (l : list B) (r : list A) :
  compress (map (fun _ => false) l) r = [].
Proof.
  revert r. induction l as [|x l IH]; intros [|y r]; cbn; auto.
Qed.

Lemma compress_all_true {A B} (l : list B) (r : list A) :
  length l = length r -> compress (map (fun _ => true) l) r = r.
Proof.
  revert r. induction l as [|x l IH]; intros [|y r] Hlen; cbn in *; try done.
  f_equal. apply IH. lia.
Qed.

Lemma mask_at_zero (img : matrix Z) (py px : Z) :
  Forall (Forall (fun v => v = 0)) img -> mask_at img py px = 0.
Proof.
  intros Himg. unfold mask_at.
  destruct (nth_in_or_default (Z.to_nat py) img []) as [Hin | ->].
  - rewrite Forall_forall in Himg. apply list_elem_of_In, Himg in Hin.
    destruct (nth_in_or_default (Z.to_nat px) (nth (Z.to_nat py) img []) 0)
      as [Hin' | ->]; [|reflexivity].
    rewrite Forall_forall in Hin. by apply Hin, list_elem_of_In.
  - by destruct (Z.to_nat px).
Qed.

Lemma vote_of_point_zero_mask {F : Type} `{Float64 F} (ppm : matrix F)
    (img : matrix Z) (c : list F) :
  Forall (Forall (fun v => v = 0)) img -> vote_of_point ppm img c = 0.
Proof.
  intros Himg. unfold vote_of_point. cbv zeta.
  destruct (in_frame _ _ _ _); [|reflexivity].
  by rewrite mask_at_zero.
Qed.

(** X2.  Whatever the voter returns, the occupancy of a voxel is the
    number of views whose vote for it is 1. *)
Theorem occupancy_counts_the_views_voting_one {F : Type} `{Float64 F}
    (images_masks : list (matrix Z)) (ppms : list (matrix F))
    (voxel_points : matrix F) (votes : matrix Z) (i : nat) :
  get_voxel_points_projection_is_in_images_mask images_masks ppms voxel_points
    = Ok votes ->
  (i < shape1 votes)%nat ->
  get_voxel_points_occupancy votes !! i
  = Some (Z.of_nat (length (filter (fun row => row !! i = Some 1) votes))).
Proof.
  intros Hvotes Hi.
  pose proof (voter_binary _ _ _ _ Hvotes) as Hbin.
  destruct (voter_rect _ _ _ _ Hvotes) as [_ Hrect].
  unfold get_voxel_points_occupancy, np_sum_axis0.
  rewrite (foldl_add_lookup votes _ i 0 (map (fun row => nth i row 0) votes)).
  - f_equal. rewrite Z.add_0_l, sum_binary_count.
    + f_equal. f_equal. apply list_filter_iff. intros row.
      destruct (row !! i) as [v|] eqn:Hv.
      * rewrite (nth_lookup_Some _ _ _ _ Hv). split; congruence.
      * rewrite nth_lookup, Hv. cbn. split; [lia|done].
    + rewrite Forall_forall in Hbin, Hrect. apply Forall_forall. intros row Hrow.
      specialize (Hbin row Hrow). specialize (Hrect row Hrow). cbv beta in Hrect.
      destruct (lookup_lt_is_Some_2 row i ltac:(lia)) as [v Hv].
      cbv beta. rewrite (nth_lookup_Some _ _ _ _ Hv).
      rewrite Forall_forall in Hbin. apply Hbin. by eapply list_elem_of_lookup_2.
  - by apply lookup_replicate_2.
  - apply Forall2_fmap_r, Forall_Forall2_diag.
    eapply Forall_impl; [exact Hrect|]. intros row Hrow. cbv beta in Hrow.
    destruct (lookup_lt_is_Some_2 row i ltac:(lia)) as [v Hv].
    unfold compose. by rewrite (nth_lookup_Some _ _ _ _ Hv).
Qed.

Lemma occupancy_counts_the_views_voting_one_witness :
  get_voxel_points_occupancy [[1; 1; 1; 0]; [1; 1; 1; 0]] !! 2%nat
  = Some (Z.of_nat (length (filter (fun row : list Z => row !! 2%nat = Some 1)
                                   [[1; 1; 1; 0]; [1; 1; 1; 0]]))).
Proof.
  apply (occupancy_counts_the_views_voting_one
           [sample_mask; sample_mask] [qmat sample_ppm; qmat sample_ppm]
           (qmat sample_points)).
  - reflexivity.
  - cbn. lia.
Defined.

(** X3.  Voting, counting and filtering, composed.  For masks, 3 by 4
    matrices and a grid of homogeneous points, the three functions
    succeed one after the other, and the points that the filter keeps
    at the threshold [t] are, in their order, the points of the grid
    for which at least [t] views vote 1. *)
Theorem carving_keeps_points_with_enough_votes {F : Type} `{Float64 F}
    (images_masks : list (matrix Z)) (ppms : list (matrix F))
    (voxel_points : matrix F) (M : nat) (t : Z) :
  Forall is_rect images_masks -> Forall (rect 3 4) ppms ->
  rect 4 M voxel_points -> images_masks <> [] -> ppms <> [] ->
  exists votes kept,
    get_voxel_points_projection_is_in_images_mask images_masks ppms voxel_points
      = Ok votes /\
    get_voxel_points_by_minimum_occupancy voxel_points
      (get_voxel_points_occupancy votes) t = Ok kept /\
    transpose kept
    = filter (fun c =>
                t <= Z.of_nat (length (filter (fun p => vote_of_point p.1 p.2 c = 1)
                                              (zip ppms images_masks))))
             (transpose voxel_points).
Proof.
  intros Hmasks Hppms Hgrid Hm Hp.
  destruct (carve_at_threshold images_masks ppms voxel_points M t)
    as (votes & kept & Hv & _ & Hk & _ & Ht); try done.
  by exists votes, kept.
Qed.

Lemma carving_keeps_points_with_enough_votes_witness :
  exists votes kept,
    get_voxel_points_projection_is_in_images_mask
      [sample_mask] [qmat sample_ppm] (qmat sample_points) = Ok votes /\
    get_voxel_points_by_minimum_occupancy (qmat sample_points)
      (get_voxel_points_occupancy votes) 1 = Ok kept /\
    transpose kept
    = filter (fun c =>
                1 <= Z.of_nat (length (filter (fun p => vote_of_point p.1 p.2 c = 1)
                                              (zip [qmat sample_ppm] [sample_mask]))))
             (transpose (qmat sample_points)).
Proof.
  apply (carving_keeps_points_with_enough_votes
           [sample_mask] [qmat sample_ppm] (qmat sample_points) 4 1).
  - repeat constructor.
  - repeat constructor.
  - split; [reflexivity|]. repeat constructor.
  - discriminate.
  - discriminate.
Defined.

(** X4.  At a threshold equal to the number of views, the filter keeps
    exactly the points for which every view votes 1: the intersection
    of the silhouette cones. *)
Theorem full_occupancy_keeps_unanimous_points {F : Type} `{Float64 F}
    (images_masks : list (matrix Z)) (ppms : list (matrix F))
    (voxel_points : matrix F) (M : nat) :
  Forall is_rect images_masks -> Forall (rect 3 4) ppms ->
  rect 4 M voxel_points -> images_masks <> [] -> ppms <> [] ->
  exists votes kept,
    get_voxel_points_projection_is_in_images_mask images_masks ppms voxel_points
      = Ok votes /\
    get_voxel_points_by_minimum_occupancy voxel_points
      (get_voxel_points_occupancy votes) (Z.of_nat (length votes)) = Ok kept /\
    transpose kept
    = filter (fun c => Forall (fun p => vote_of_point p.1 p.2 c = 1)
                              (zip ppms images_masks))
             (transpose voxel_points).
Proof.
  intros Hmasks Hppms Hgrid Hm Hp.
  assert (Hlen : forall votes,
             get_voxel_points_projection_is_in_images_mask images_masks ppms
               voxel_points = Ok votes ->
             length votes = length (zip ppms images_masks)).
  { intros votes. erewrite voter_pointwise by done. intros [= <-].
    by rewrite length_map. }
  destruct (carve_at_threshold images_masks ppms voxel_points M
              (Z.of_nat (length (zip ppms images_masks))))
    as (votes & kept & Hv & _ & Hk & _ & Ht); try done.
  exists votes, kept. rewrite (Hlen _ Hv). split; [done|]. split; [done|].
  rewrite Ht. apply list_filter_iff. intros c. split.
  - intros Hle. by apply Nat2Z.inj_le, length_filter_all in Hle.
  - intros Hall. apply Nat2Z.inj_le. by apply length_filter_all.
Qed.

Lemma full_occupancy_keeps_unanimous_points_witness :
  exists votes kept,
    get_voxel_points_projection_is_in_images_mask
      [sample_mask; sample_mask] [qmat sample_ppm; qmat sample_ppm]
      (qmat sample_points) = Ok votes /\
    get_voxel_points_by_minimum_occupancy (qmat sample_points)
      (get_voxel_points_occupancy votes) (Z.of_nat (length votes)) = Ok kept /\
    transpose kept
    = filter (fun c => Forall (fun p => vote_of_point p.1 p.2 c = 1)
                              (zip [qmat sample_ppm; qmat sample_ppm]
                                   [sample_mask; sample_mask]))
             (transpose (qmat sample_points)).
Proof.
  apply (full_occupancy_keeps_unanimous_points
           [sample_mask; sample_mask] [qmat sample_ppm; qmat sample_ppm]
           (qmat sample_points) 4).
  - repeat constructor.
  - repeat constructor.
  - split; [reflexivity|]. repeat constructor.
  - discriminate.
  - discriminate.
Defined.

(** X5.  One empty silhouette carves everything away: when the mask of
    some view that takes part in the vote is zero everywhere, no point
    reaches an occupancy equal to the number of views, and the filter
    at that threshold returns four rows with no column. *)
Theorem empty_silhouette_carves_everything {F : Type} `{Float64 F}
    (images_masks : list (matrix Z)) (ppms : list (matrix F))
    (voxel_points : matrix F) (M k : nat) (img : matrix Z) :
  Forall is_rect images_masks -> Forall (rect 3 4) ppms ->
  rect 4 M voxel_points ->
  images_masks !! k = Some img -> (k < length ppms)%nat ->
  Forall (Forall (fun v => v = 0)) img ->
  exists votes,
    get_voxel_points_projection_is_in_images_mask images_masks ppms voxel_points
      = Ok votes /\
    get_voxel_points_by_minimum_occupancy voxel_points
      (get_voxel_points_occupancy votes) (Z.of_nat (length votes))
    = Ok [[]; []; []; []].
Proof.
  intros Hmasks Hppms Hgrid Himg Hk Hzero.
  assert (Hm : images_masks <> []) by (intros ->; by rewrite lookup_nil in Himg).
  assert (Hp : ppms <> []) by (intros ->; cbn in Hk; lia).
  destruct (carve_at_threshold images_masks ppms voxel_points M
              (Z.of_nat (length (zip ppms images_masks))))
    as (votes & kept & Hv & _ & Hkept & Hform & _); try done.
  exists votes. split; [done|].
  assert (Hlen : length votes = length (zip ppms images_masks)).
  { revert Hv. erewrite voter_pointwise by done. intros [= <-].
    by rewrite length_map. }
  rewrite Hlen, Hkept, Hform. f_equal.
  destruct (lookup_lt_is_Some_2 ppms k Hk) as [ppm Hppm].
  assert (Hpair : zip ppms images_masks !! k = Some (ppm, img)).
  { by rewrite lookup_zip_with, Hppm, Himg. }
  match goal with
  | |- context [map ?f (transpose voxel_points)] =>
      rewrite (map_ext f (fun _ => false));
        [|intros c; apply bool_decide_eq_false_2]
  end.
  - destruct Hgrid as [Hrows _].
    destruct voxel_points as [|r0 [|r1 [|r2 [|r3 [|? ?]]]]]; try done.
    cbn [map]. by rewrite !compress_all_false.
  - intros Hle. apply Nat2Z.inj_le, length_filter_all in Hle.
    rewrite Forall_lookup in Hle. specialize (Hle k _ Hpair). cbn in Hle.
    by rewrite vote_of_point_zero_mask in Hle.
Qed.

Lemma empty_silhouette_carves_everything_witness :
  exists votes,
    get_voxel_points_projection_is_in_images_mask
      [sample_mask; [[0; 0; 0]; [0; 0; 0]]] [qmat sample_ppm; qmat sample_ppm]
      (qmat sample_points) = Ok votes /\
    get_voxel_points_by_minimum_occupancy (qmat sample_points)
      (get_voxel_points_occupancy votes) (Z.of_nat (length votes))
    = Ok [[]; []; []; []].
Proof.
  apply (empty_silhouette_carves_everything
           [sample_mask; [[0; 0; 0]; [0; 0; 0]]] [qmat sample_ppm; qmat sample_ppm]
           (qmat sample_points) 4 1 [[0; 0; 0]; [0; 0; 0]]).
  - repeat constructor.
  - repeat constructor.
  - split; [reflexivity|]. repeat constructor.
  - reflexivity.
  - cbn. lia.
  - repeat constructor.
Defined.

Lemma mapM_fmap_result {A B C} (f : A -> result B) (g : B -> C) (l : list A) :
  mapM (fun x => g <$> f x) l = map g <$> mapM f l.
Proof.
  induction l as [|x l IH]; [reflexivity|].
  cbn. destruct (f x) as [y|e]; cbn; [|reflexivity].
  rewrite IH. by destruct (mapM f l).
Qed.

Lemma mapM_ext_result {A B} (f f' : A -> result B) (l : list A) :
  (forall x, f x = f' x) -> mapM f l = mapM f' l.
Proof.
  intros Hf. induction l as [|x l IH]; [reflexivity|].
  cbn. by rewrite Hf, IH.
Qed.

Lemma shape1_map_map {A B} (g : A -> B) (m : matrix A) :
  shape1 (map (map g) m) = shape1 m.
Proof. destruct m; unfold shape1; cbn; [reflexivity|apply length_map]. Qed.

Lemma at_index_map {A B} (g : A -> B) (l : list A) (i : nat) :
  at_index (map g l) i = g <$> at_index l i.
Proof. unfold at_index. rewrite list_lookup_fmap. by destruct (l !! i). Qed.

(** Indexing an image whose items went through [g] gives the items of
    the image, through [g]; the errors are the same. *)
Lemma np_getitem2_map {A B} (g : A -> B) (img : matrix A) (ys xs : list Z) :
  np_getitem2 (map (map g) img) ys xs = map g <$> np_getitem2 img ys xs.
Proof.
  unfold np_getitem2. destruct (length ys =? length xs)%nat; [|reflexivity].
  rewrite <- mapM_fmap_result. apply mapM_ext_result. intros [y x].
  rewrite shape1_map_map. unfold shape0. rewrite length_map.
  destruct (py_index (length img) y) as [r|e]; [|reflexivity].
  destruct (py_index (shape1 img) x) as [c|e]; [|reflexivity].
  rewrite !result_bind_ok, at_index_map.
  destruct (at_index img r) as [row|e]; [|reflexivity].
  cbn -[at_index]. apply at_index_map.
Qed.

Lemma points_in_mask_of_view_support {F : Type} `{Float64 F} (g : Z -> Z)
    (ppm : matrix F) (img : matrix Z) (voxel_points : matrix F) :
  (forall v, g v = 0 <-> v = 0) ->
  points_in_mask_of_view ppm (map (map g) img) voxel_points
  = points_in_mask_of_view ppm img voxel_points.
Proof.
  intros Hg. unfold points_in_mask_of_view. cbv zeta.
  rewrite shape1_map_map. unfold shape0. rewrite length_map.
  repeat match goal with
         | |- (?m ≫= _) = (?m ≫= _) =>
             destruct m as [?|?]; [rewrite !result_bind_ok|reflexivity]
         end.
  rewrite np_getitem2_map.
  destruct (np_getitem2 img _ _) as [res|e]; [|reflexivity].
  cbn [fmap result_fmap]. rewrite !result_bind_ok, !map_map.
  f_equal. apply map_ext. intros v. do 2 f_equal.
  destruct (Z.eqb_spec v 0) as [->|Hv].
  - apply Z.eqb_eq. by apply Hg.
  - apply Z.eqb_neq. intros Hgv. apply Hv. by apply Hg.
Qed.

(** X6.  Only the support of a mask matters.  Whatever the inputs,
    sending the values of the masks through a function that keeps zero
    and nothing else at zero (255 to 1, say) changes neither the votes
    nor the error. *)
Theorem votes_depend_on_mask_support_only {F : Type} `{Float64 F} (g : Z -> Z)
    (images_masks : list (matrix Z)) (ppms : list (matrix F))
    (voxel_points : matrix F) :
  (forall v, g v = 0 <-> v = 0) ->
  get_voxel_points_projection_is_in_images_mask
    (map (map (map g)) images_masks) ppms voxel_points
  = get_voxel_points_projection_is_in_images_mask images_masks ppms voxel_points.
Proof.
  intros Hg. unfold get_voxel_points_projection_is_in_images_mask.
  f_equal. revert images_masks.
  induction ppms as [|ppm ppms IH]; intros [|img masks]; try reflexivity.
  cbn. rewrite points_in_mask_of_view_support by done.
  destruct (points_in_mask_of_view ppm img voxel_points); [|reflexivity].
  cbn. by rewrite IH.
Qed.

Lemma votes_depend_on_mask_support_only_witness :
  get_voxel_points_projection_is_in_images_mask
    (map (map (map Z.sgn)) [sample_mask]) [qmat sample_ppm] (qmat sample_points)
  = get_voxel_points_projection_is_in_images_mask
      [sample_mask] [qmat sample_ppm] (qmat sample_points).
Proof.
  apply (votes_depend_on_mask_support_only Z.sgn).
  intros v. lia.
Defined.

Lemma compress_nil_r {A} (mask : list bool) : compress mask (@nil A) = [].
Proof. by destruct mask. Qed.

Lemma compress_length_eq {A B} (mask : list bool) (l : list A) (l' : list B) :
  length l = length l' -> length (compress mask l) = length (compress mask l').
Proof.
  revert l l'. induction mask as [|b mask IH]; intros [|x l] [|y l'] Hlen;
    cbn in *; try done.
  destruct b; cbn; auto.
Qed.

Lemma compress_compress_leb {A} (t1 t2 : Z) (occ : list Z) (l : list A) :
  t1 <= t2 ->
  compress (map (fun o => t2 <=? o) (compress (map (fun o => t1 <=? o) occ) occ))
           (compress (map (fun o => t1 <=? o) occ) l)
  = compress (map (fun o => t2 <=? o) occ) l.
Proof.
  intros Hle. revert l. induction occ as [|o occ IH]; intros l; [reflexivity|].
  destruct l as [|x l].
  - by rewrite !compress_nil_r.
  - cbn [map compress]. destruct (Z.leb_spec t1 o) as [H1 | H1].
    + cbn [map compress]. rewrite IH. reflexivity.
    + rewrite IH. destruct (Z.leb_spec t2 o); [lia|reflexivity].
Qed.

(** X7.  Carving in stages.  For a grid of [M] columns, [M] occupancy
    counts and thresholds [t1 <= t2]: the points kept at [t2] are a
    subsequence of those kept at [t1], and filtering at [t2] what was
    kept at [t1], with the counts that were kept, gives what filtering
    the grid at [t2] gives. *)
Theorem raising_the_threshold_refines {F : Type} `{Float64 F}
    (voxel_points : matrix F) (occupancy : list Z) (t1 t2 : Z) (n M : nat) :
  (0 < n)%nat -> rect n M voxel_points -> length occupancy = M -> t1 <= t2 ->
  exists kept1 kept2,
    get_voxel_points_by_minimum_occupancy voxel_points occupancy t1 = Ok kept1 /\
    get_voxel_points_by_minimum_occupancy voxel_points occupancy t2 = Ok kept2 /\
    sublist (transpose kept2) (transpose kept1) /\
    get_voxel_points_by_minimum_occupancy kept1
      (compress (map (fun o => t1 <=? o) occupancy) occupancy) t2 = Ok kept2.
Proof.
  intros Hn [Hlen Hrows] Hocc Hle.
  unfold get_voxel_points_by_minimum_occupancy, np_compress_cols.
  assert (Hshape : shape1 voxel_points = M /\
                   exists r m, voxel_points = r :: m /\ length r = M).
  { destruct voxel_points as [|r m]; [cbn in Hlen; lia|].
    apply Forall_cons in Hrows as [Hr _]. split; [done|]. by exists r, m. }
  destruct Hshape as [Hshape (r & m & Hvp & Hr)].
  rewrite !length_map, Hocc, Hshape, Nat.eqb_refl.
  do 2 eexists. split; [reflexivity|]. split; [reflexivity|]. split.
  - rewrite !transpose_compress.
    rewrite <- (compress_compress_leb t1 t2 occupancy (transpose voxel_points)) by done.
    apply compress_sublist.
  - assert (Hk : length (compress (map (fun o => t1 <=? o) occupancy) occupancy)
                 = shape1 (map (compress (map (fun o => t1 <=? o) occupancy))
                               voxel_points)).
    { rewrite Hvp. unfold shape1. cbn [map hd].
      apply compress_length_eq. congruence. }
    rewrite Hk, Nat.eqb_refl. f_equal. rewrite map_map. apply map_ext.
    intros row. by apply compress_compress_leb.
Qed.

Lemma raising_the_threshold_refines_witness :
  exists kept1 kept2,
    get_voxel_points_by_minimum_occupancy (qmat sample_points) [2; 0; 1; 3] 1
      = Ok kept1 /\
    get_voxel_points_by_minimum_occupancy (qmat sample_points) [2; 0; 1; 3] 2
      = Ok kept2 /\
    sublist (transpose kept2) (transpose kept1) /\
    get_voxel_points_by_minimum_occupancy kept1
      (compress (map (fun o => 1 <=? o) [2; 0; 1; 3]) [2; 0; 1; 3]) 2 = Ok kept2.
Proof.
  apply (raising_the_threshold_refines (qmat sample_points) [2; 0; 1; 3] 1 2 4 4).
  - lia.
  - split; [reflexivity|]. repeat constructor.
  - reflexivity.
  - lia.
Defined.

(** X8.  The two ends of the threshold.  After the voter and the
    count, a threshold of 0 returns the grid as it is, and a threshold
    above the number of views returns four rows with no column. *)
Theorem threshold_extremes {F : Type} `{Float64 F}
    (images_masks : list (matrix Z)) (ppms : list (matrix F))
    (voxel_points : matrix F) (M : nat) :
  Forall is_rect images_masks -> Forall (rect 3 4) ppms ->
  rect 4 M voxel_points -> images_masks <> [] -> ppms <> [] ->
  exists votes,
    get_voxel_points_projection_is_in_images_mask images_masks ppms voxel_points
      = Ok votes /\
    get_voxel_points_by_minimum_occupancy voxel_points
      (get_voxel_points_occupancy votes) 0 = Ok voxel_points /\
    get_voxel_points_by_minimum_occupancy voxel_points
      (get_voxel_points_occupancy votes) (Z.of_nat (length votes) + 1)
    = Ok [[]; []; []; []].
Proof.
  intros Hmasks Hppms Hgrid Hm Hp.
  assert (Hcols : length (transpose voxel_points) = M)
    by (apply (transpose_length 4 M); [lia|done]).
  destruct (carve_at_threshold images_masks ppms voxel_points M 0)
    as (votes & kept & Hv & _ & Hkept & Hform & _); try done.
  assert (Hlen : length votes = length (zip ppms images_masks)).
  { revert Hv. erewrite voter_pointwise by done. intros [= <-].
    by rewrite length_map. }
  destruct (carve_at_threshold images_masks ppms voxel_points M
              (Z.of_nat (length votes) + 1))
    as (votes' & kept' & Hv' & _ & Hkept' & Hform' & _); try done.
  assert (votes' = votes) as -> by congruence.
  exists votes. split; [done|]. split.
  - rewrite Hkept, Hform. f_equal.
    match goal with
    | |- context [map ?f (transpose voxel_points)] =>
        rewrite (map_ext f (fun _ => true));
          [|intros c; apply bool_decide_eq_true_2; lia]
    end.
    destruct Hgrid as [_ Hrows].
    transitivity (map id voxel_points); [|apply map_id].
    apply map_ext_in. intros row Hin. apply compress_all_true.
    rewrite Forall_forall in Hrows. rewrite Hcols. symmetry.
    by apply Hrows, list_elem_of_In.
  - rewrite Hkept', Hform'. f_equal.
    match goal with
    | |- context [map ?f (transpose voxel_points)] =>
        rewrite (map_ext f (fun _ => false));
          [|intros c; apply bool_decide_eq_false_2]
    end.
    + destruct Hgrid as [Hrows _].
      destruct voxel_points as [|r0 [|r1 [|r2 [|r3 [|? ?]]]]]; try done.
      cbn [map]. by rewrite !compress_all_false.
    + pose proof (length_filter (fun p : matrix F * matrix Z =>
                                   vote_of_point p.1 p.2 c = 1)
                                (zip ppms images_masks)) as Hle.
      rewrite Hlen. lia.
Qed.

Lemma threshold_extremes_witness :
  exists votes,
    get_voxel_points_projection_is_in_images_mask
      [sample_mask] [qmat sample_ppm] (qmat sample_points) = Ok votes /\
    get_voxel_points_by_minimum_occupancy (qmat sample_points)
      (get_voxel_points_occupancy votes) 0 = Ok (qmat sample_points) /\
    get_voxel_points_by_minimum_occupancy (qmat sample_points)
      (get_voxel_points_occupancy votes) (Z.of_nat (length votes) + 1)
    = Ok [[]; []; []; []].
Proof.
  apply (threshold_extremes [sample_mask] [qmat sample_ppm] (qmat sample_points) 4).
  - repeat constructor.
  - repeat constructor.
  - split; [reflexivity|]. repeat constructor.
  - discriminate.
  - discriminate.
Defined.

(* ===================================================================== *)
(** * Further properties of the scaling *)
(* ===================================================================== *)

Lemma min_max_scale_ok {F : Type} `{Float64 F} (arr : list Z) (m Mx : Z) (lo hi : F) :
  In m arr -> In Mx arr -> (forall v, In v arr -> m <= v <= Mx) ->
  _min_max_scale arr lo hi
  = Ok (map (fun v => f_add lo (f_div (f_mul (f_of_int (v - m)) (f_sub hi lo))
                                      (f_of_int (Mx - m)))) arr).
Proof.
  intros Hm HM Hb. unfold _min_max_scale.
  rewrite (np_min_ok _ m), result_bind_ok; [|done|intros v Hv; by apply Hb].
  rewrite (np_max_ok _ Mx), result_bind_ok; [|done|intros v Hv; by apply Hb].
  reflexivity.
Qed.

Lemma b64_zero_scaled_over_zero_is_nan (lo d : float) :
  Prim2SF (lo + (0 * d) / 0)%float = S754_nan.
Proof.
  rewrite FloatAxioms.add_spec, FloatAxioms.div_spec, FloatAxioms.mul_spec.
  change (Prim2SF 0%float) with (S754_zero false).
  destruct (Prim2SF d) as [sd|sd| |sd md ed];
    destruct (Prim2SF lo) as [sl|sl| |sl ml el]; reflexivity.
Qed.

Lemma b64_is_nan_spec (x : float) :
  Prim2SF x = S754_nan -> PrimFloat.is_nan x = true.
Proof.
  intros Hx. unfold PrimFloat.is_nan. rewrite FloatAxioms.eqb_spec, Hx.
  reflexivity.
Qed.

(** X11.  The scaling of a constant array.  When all the items of a
    non-empty array are equal, the divisor [max - min] is zero and
    nothing is raised: in exact arithmetic and in binary64 alike, for
    any bounds, every item of the result is NaN. *)
Theorem min_max_scale_constant_is_nan (arr : list Z) (v : Z) :
  arr <> [] -> Forall (eq v) arr ->
  (forall lo hi : xq,
     _min_max_scale arr lo hi = Ok (map (fun _ => NaN) arr)) /\
  (forall lo hi : float,
     exists out,
       _min_max_scale arr lo hi = Ok out /\
       length out = length arr /\
       Forall (fun x => PrimFloat.is_nan x = true) out).
Proof.
  intros Hne Hall.
  assert (Hin : In v arr).
  { destruct arr as [|x arr]; [done|].
    apply Forall_cons in Hall as [<- _]. by left. }
  assert (Hb : forall w, In w arr -> v <= w <= v).
  { intros w Hw. rewrite Forall_forall in Hall.
    apply list_elem_of_In, Hall in Hw. lia. }
  assert (Hdiag : forall w, In w arr -> w - v = 0).
  { intros w Hw. specialize (Hb w Hw). lia. }
  split.
  - intros lo hi. rewrite (min_max_scale_ok arr v v) by done. f_equal.
    apply map_ext_in. intros w Hw. rewrite (Hdiag w Hw), Z.sub_diag.
    cbn [f_add f_div f_mul f_sub f_of_int xq_float64].
    unfold xq_sub. change (inject_Z 0) with 0%Q.
    destruct hi as [h| | |], lo as [l| | |]; cbn; try reflexivity.
    all: destruct (Qcompare_spec (0 * (h + - l)) 0) as [Hc | Hc | Hc];
      try reflexivity; exfalso; lra.
  - intros lo hi. eexists. split; [by apply (min_max_scale_ok arr v v)|].
    split; [by rewrite length_map|].
    apply Forall_map, Forall_forall. intros w Hw%list_elem_of_In.
    rewrite (Hdiag w Hw), Z.sub_diag.
    apply b64_is_nan_spec, b64_zero_scaled_over_zero_is_nan.
Qed.

Lemma min_max_scale_constant_is_nan_witness :
  (forall lo hi : xq,
     _min_max_scale [7; 7; 7] lo hi = Ok (map (fun _ => NaN) [7; 7; 7])) /\
  (forall lo hi : float,
     exists out,
       _min_max_scale [7; 7; 7] lo hi = Ok out /\
       length out = length [7; 7; 7] /\
       Forall (fun x => PrimFloat.is_nan x = true) out).
Proof.
  apply (min_max_scale_constant_is_nan [7; 7; 7] 7).
  - discriminate.
  - repeat constructor.
Defined.

(* ===================================================================== *)
(** * Further properties of cropping and padding *)
(* ===================================================================== *)

(** Slicing off what was put around a list gives the list. *)
Lemma py_slice_padded {A} (l pre post : list A) (lead trail : Z) (n : nat) :
  0 <= lead -> 0 <= trail ->
  length pre = Z.to_nat lead -> length post = Z.to_nat trail ->
  n = (length l + Z.to_nat lead + Z.to_nat trail)%nat ->
  py_slice (pre ++ l ++ post) lead (Z.of_nat n - trail) = l.
Proof.
  intros Hl Ht Hpre Hpost ->. unfold py_slice.
  assert (Hlen : length (pre ++ l ++ post)
                 = (length l + Z.to_nat lead + Z.to_nat trail)%nat)
    by (rewrite !length_app; lia).
  rewrite Hlen.
  destruct (py_slice_len_crop (length l + Z.to_nat lead + Z.to_nat trail) lead trail)
    as [-> ->]; [lia..|].
  rewrite <- Hpre, drop_app_length.
  replace (length l + length pre + Z.to_nat trail - length pre - Z.to_nat trail)%nat
    with (length l) by lia.
  apply take_app_length.
Qed.

Lemma mapM_map_ok {A B C D} (f : B -> result C) (h : A -> B) (g : A -> D)
    (k : D -> C) (l : list A) :
  (forall x, x ∈ l -> f (h x) = Ok (k (g x))) ->
  mapM f (map h l) = Ok (map k (map g l)).
Proof.
  induction l as [|x l IH]; intros Hf; [reflexivity|].
  cbn. rewrite (Hf x) by left. cbn.
  rewrite IH; [reflexivity|]. intros y Hy. apply Hf. by right.
Qed.

(** X12.  Padding and then cropping by the same margins is the
    identity.  For well-formed images of three channels and of one
    size, and margins that are not negative, the padding succeeds and
    returns images of three dimensions, and cropping them by the same
    margins gives back the original images, pixel for pixel. *)
Theorem pad_then_crop_is_identity (images : list image)
    (top bottom left right : Z) (H W : nat) :
  Forall (fun im => image_wf im /\ im_rows im = H /\ im_cols im = W /\
                    im_chans im = 3%nat)
         images ->
  0 <= top -> 0 <= bottom -> 0 <= left -> 0 <= right ->
  exists padded,
    get_images_to_original_dimensions (map Arr3 images) top bottom left right
      = Ok (map Arr3 padded) /\
    get_cropped_images padded top bottom left right = images.
Proof.
  intros Himgs Ht Hb Hl Hr.
  set (t := Z.to_nat top). set (b := Z.to_nat bottom).
  set (l := Z.to_nat left). set (r := Z.to_nat right).
  set (pad := fun img : image => mat_with_border img t b l r [0; 0; 0]).
  exists (map pad images). split.
  - unfold get_images_to_original_dimensions. apply mapM_map_ok.
    intros img Himg. rewrite Forall_forall in Himgs.
    destruct (Himgs img Himg) as (_ & _ & _ & Hc).
    by apply cv_copyMakeBorder_bgr.
  - destruct images as [|img0 rest]; [reflexivity|].
    unfold get_cropped_images.
    change (map pad (img0 :: rest)) with (pad img0 :: map pad rest) at 1.
    cbv iota beta.
    assert (H0 : im_rows img0 = H /\ im_cols img0 = W).
    { apply Forall_cons in Himgs as [(_ & ? & ? & _) _]. done. }
    destruct H0 as [Hr0 Hc0].
    rewrite map_map. transitivity (map id (img0 :: rest)); [|apply map_id].
    apply map_ext_in. intros img Himg. rewrite Forall_forall in Himgs.
    destruct (Himgs img (proj2 (list_elem_of_In _ _) Himg))
      as ([Hrows Hitems] & HrH & HcW & _).
    destruct img as [rows cols chans items].
    cbn [im_rows im_cols im_chans im_items] in *.
    unfold pad, mat_with_border, np_slice2, id.
    cbn [im_rows im_cols im_chans im_items]. rewrite Hr0, Hc0. subst rows cols.
    rewrite !HrH.
    destruct (py_slice_len_crop (H + t + b) top bottom) as [_ ->]; [lia..|].
    destruct (py_slice_len_crop (W + l + r) left right) as [_ ->]; [lia..|].
    f_equal; [lia|lia|].
    rewrite (py_slice_padded (map _ items));
      [|done|done|by rewrite length_replicate..|rewrite length_map; lia].
    rewrite map_map. transitivity (map id items); [|apply map_id].
    apply map_ext_in. intros row Hrow. unfold id.
    rewrite Forall_forall in Hitems.
    destruct (Hitems row (proj2 (list_elem_of_In _ _) Hrow)) as [Hw _].
    apply py_slice_padded; [done|done|by rewrite length_replicate..|lia].
Qed.

Lemma pad_then_crop_is_identity_witness :
  exists padded,
    get_images_to_original_dimensions (map Arr3 [sample_bgr_image]) 1 2 0 1
      = Ok (map Arr3 padded) /\
    get_cropped_images padded 1 2 0 1 = [sample_bgr_image].
Proof.
  apply (pad_then_crop_is_identity [sample_bgr_image] 1 2 0 1 3 2).
  - repeat constructor.
  - lia.
  - lia.
  - lia.
  - lia.
Defined.

(** What is found at a position of a list of which [lead] items at the
    front and [trail] at the back were cut off and replaced by [x]. *)
Lemma lookup_crop_pad {A B} (f : A -> B) (l : list A) (x : B) (lead trail i : nat) :
  (lead + trail <= length l)%nat -> (i < length l)%nat ->
  (replicate lead x ++ map f (take (length l - lead - trail) (drop lead l))
     ++ replicate trail x) !! i
  = if (lead <=? i)%nat && (i <? length l - trail)%nat then f <$> l !! i else Some x.
Proof.
  intros Hfit Hi.
  destruct (Nat.leb_spec lead i) as [Hlead | Hlead]; cbn [andb].
  - rewrite lookup_app_r by (rewrite length_replicate; lia).
    rewrite length_replicate.
    destruct (Nat.ltb_spec i (length l - trail)) as [Htrail | Htrail].
    + rewrite lookup_app_l
        by (rewrite length_map, length_take, length_drop; lia).
      rewrite list_lookup_fmap, lookup_take_lt, lookup_drop by lia.
      do 2 f_equal. lia.
    + rewrite lookup_app_r
        by (rewrite length_map, length_take, length_drop; lia).
      apply lookup_replicate_2.
      rewrite length_map, length_take, length_drop. lia.
  - rewrite lookup_app_l by (rewrite length_replicate; lia).
    by apply lookup_replicate_2.
Qed.

(** X13.  What cropping and then padding leaves of an image.  Under
    the conditions of the round trip on the dimensions (well-formed
    images of three channels and of one size, margins that are not
    negative and fit), the result holds, at every position inside the
    crop window, the pixel of the original image, and everywhere else
    a pixel of three zeros. *)
Theorem crop_then_pad_blacks_out_the_margins (images : list image)
    (top bottom left right : Z) (H W : nat) :
  Forall (fun im => image_wf im /\ im_rows im = H /\ im_cols im = W /\
                    im_chans im = 3%nat)
         images ->
  0 <= top -> 0 <= bottom -> 0 <= left -> 0 <= right ->
  top + bottom <= Z.of_nat H -> left + right <= Z.of_nat W ->
  exists out,
    get_images_to_original_dimensions
      (map Arr3 (get_cropped_images images top bottom left right))
      top bottom left right
      = Ok (map Arr3 out) /\
    forall k img, images !! k = Some img ->
      exists o, out !! k = Some o /\
        forall i j, (i < H)%nat -> (j < W)%nat ->
          let inside :=
            (Z.to_nat top <= i < H - Z.to_nat bottom)%nat /\
            (Z.to_nat left <= j < W - Z.to_nat right)%nat in
          (inside -> entry (im_items o) i j = entry (im_items img) i j) /\
          (~ inside -> entry (im_items o) i j = Some [0; 0; 0]).
Proof.
  intros Himgs Ht Hb Hl Hr Hfit_r Hfit_c.
  set (t := Z.to_nat top). set (b := Z.to_nat bottom).
  set (l := Z.to_nat left). set (r := Z.to_nat right).
  set (crop := fun img => np_slice2 img top (Z.of_nat H - bottom)
                                        left (Z.of_nat W - right)).
  set (pad := fun img : image => mat_with_border img t b l r [0; 0; 0]).
  assert (Hcrop : get_cropped_images images top bottom left right = map crop images).
  { destruct images as [|img0 rest]; [reflexivity|].
    apply Forall_cons in Himgs as [(_ & Hr0 & Hc0 & _) _].
    unfold get_cropped_images. by rewrite Hr0, Hc0. }
  exists (map pad (map crop images)). split.
  - rewrite Hcrop. unfold get_images_to_original_dimensions. apply mapM_map_ok.
    intros im (img & -> & Himg)%list_elem_of_fmap.
    rewrite Forall_forall in Himgs. destruct (Himgs img Himg) as (_ & _ & _ & Hc).
    by apply cv_copyMakeBorder_bgr.
  - intros k img Hk. exists (pad (crop img)). split.
    { by rewrite !list_lookup_fmap, Hk. }
    rewrite Forall_lookup in Himgs.
    destruct (Himgs k img Hk) as ([Hrows Hitems] & HrH & HcW & HcC).
    destruct img as [rows cols chans items].
    cbn [im_rows im_cols im_chans im_items] in *. subst rows cols chans.
    intros i j Hi Hj.
    assert (Hentry :
      entry (im_items (pad (crop (Image (length items) W 3 items)))) i j
      = if ((t <=? i)%nat && (i <? length items - b)%nat)
           && ((l <=? j)%nat && (j <? W - r)%nat)
        then entry items i j else Some [0; 0; 0]).
    { unfold pad, mat_with_border, crop, np_slice2.
      cbn [im_rows im_cols im_chans im_items].
      unfold py_slice at 2.
      destruct (py_slice_len_crop (length items) top bottom) as [-> Hlr]; [lia..|].
      rewrite HrH in Hlr at 2. rewrite Hlr.
      destruct (py_slice_len_crop W left right) as [_ ->]; [lia..|].
      fold t b l r.
      replace (W - l - r + l + r)%nat with W by lia.
      rewrite map_map. unfold entry.
      rewrite (lookup_crop_pad _ items) by lia.
      destruct (lookup_lt_is_Some_2 items i ltac:(lia)) as [row Hrow].
      destruct (Forall_lookup_1 _ _ _ _ Hitems Hrow) as [Hlen _].
      rewrite Hrow.
      destruct ((t <=? i)%nat && (i <? length items - b)%nat);
        cbn [andb fmap option_fmap option_map mbind option_bind].
      - unfold py_slice. rewrite Hlen.
        destruct (py_slice_len_crop W left right) as [-> ->]; [lia..|]. fold l r.
        pose proof (lookup_crop_pad id row [0; 0; 0] l r j) as Hl2.
        rewrite Hlen, map_id in Hl2. rewrite Hl2 by lia.
        destruct (lookup_lt_is_Some_2 row j ltac:(lia)) as [p Hp]. by rewrite Hp.
      - by rewrite lookup_replicate_2 by lia. }
    cbv zeta. rewrite Hentry. fold t b l r. rewrite <- HrH.
    destruct (Nat.leb_spec t i), (Nat.ltb_spec i (length items - b)),
             (Nat.leb_spec l j), (Nat.ltb_spec j (W - r)); cbn [andb];
      (split; [intros Hin|intros Hout]);
      first [reflexivity | lia | exfalso; apply Hout; lia].
Qed.

Lemma crop_then_pad_blacks_out_the_margins_witness :
  exists out,
    get_images_to_original_dimensions
      (map Arr3 (get_cropped_images [sample_bgr_image] 1 1 0 1)) 1 1 0 1
      = Ok (map Arr3 out) /\
    forall k img, [sample_bgr_image] !! k = Some img ->
      exists o, out !! k = Some o /\
        forall i j, (i < 3)%nat -> (j < 2)%nat ->
          let inside :=
            (Z.to_nat 1 <= i < 3 - Z.to_nat 1)%nat /\
            (Z.to_nat 0 <= j < 2 - Z.to_nat 1)%nat in
          (inside -> entry (im_items o) i j = entry (im_items img) i j) /\
          (~ inside -> entry (im_items o) i j = Some [0; 0; 0]).
Proof.
  apply (crop_then_pad_blacks_out_the_margins [sample_bgr_image] 1 1 0 1 3 2).
  - repeat constructor.
  - lia.
  - lia.
  - lia.
  - lia.
  - cbn. lia.
  - cbn. lia.
Defined.

Lemma cv_copyMakeBorder_negative (src : ndarray) (top bottom left right : Z)
    (value : list Z) :
  top < 0 \/ bottom < 0 \/ left < 0 \/ right < 0 ->
  cv_copyMakeBorder_constant src top bottom left right value = Raise CvError.
Proof.
  intros Hneg. unfold cv_copyMakeBorder_constant.
  assert (Hm : (exists m, cv_mat src = Ok m) \/ cv_mat src = Raise CvError).
  { destruct src as [g|img]; cbn [cv_mat]; [left; by eexists|].
    destruct (1 <=? im_chans img)%nat; [left; by eexists|by right]. }
  destruct Hm as [[m ->] | ->]; [|reflexivity].
  rewrite result_bind_ok.
  replace ((0 <=? top) && (0 <=? bottom) && (0 <=? left) && (0 <=? right))
    with false; [reflexivity|].
  symmetry. apply not_true_is_false. rewrite !andb_true_iff, !Z.leb_le. lia.
Qed.

Lemma mapM_ok_exists {A B} (f : A -> result B) (l : list A) :
  (forall x, x ∈ l -> exists y, f x = Ok y) ->
  exists out, mapM f l = Ok out /\ length out = length l.
Proof.
  induction l as [|x l IH]; intros Hf; [by exists []|].
  destruct (Hf x) as [y Hy]; [by left|].
  destruct IH as (out & Hout & Hlen); [intros z Hz; apply Hf; by right|].
  exists (y :: out). cbn. rewrite Hy. cbn. rewrite Hout. cbn. by rewrite Hlen.
Qed.

(** X14.  When the padding fails.  On a list of images of three
    channels that is not empty, whatever their sizes and pixels,
    [get_images_to_original_dimensions] returns as many arrays exactly
    when no margin is negative, and raises OpenCV's error exactly when
    one is. *)
Theorem padding_fails_exactly_on_a_negative_margin (images : list image)
    (top bottom left right : Z) :
  images <> [] -> Forall (fun im => im_chans im = 3%nat) images ->
  ((exists out,
      get_images_to_original_dimensions (map Arr3 images) top bottom left right
        = Ok out /\
      length out = length images)
   <-> 0 <= top /\ 0 <= bottom /\ 0 <= left /\ 0 <= right) /\
  (get_images_to_original_dimensions (map Arr3 images) top bottom left right
     = Raise CvError
   <-> top < 0 \/ bottom < 0 \/ left < 0 \/ right < 0).
Proof.
  intros Hne Hch. unfold get_images_to_original_dimensions.
  destruct (decide (0 <= top /\ 0 <= bottom /\ 0 <= left /\ 0 <= right))
    as [Hpos | Hneg].
  - destruct (mapM_ok_exists
                (fun img => cv_copyMakeBorder_constant img top bottom left right
                              [0; 0; 0]) (map Arr3 images)) as (out & Hout & Hlen).
    { intros a (img & -> & Himg)%list_elem_of_fmap.
      rewrite Forall_forall in Hch. eexists.
      apply cv_copyMakeBorder_bgr; [by apply Hch|lia..]. }
    rewrite Hout. rewrite length_map in Hlen.
    split; split; try done; [by exists out|lia].
  - assert (Hn : top < 0 \/ bottom < 0 \/ left < 0 \/ right < 0) by lia.
    destruct images as [|img rest]; [done|].
    cbn [map mapM]. rewrite cv_copyMakeBorder_negative by done.
    split; split; try done. by intros (out & Hout & _).
Qed.

Lemma padding_fails_exactly_on_a_negative_margin_witness :
  ((exists out,
      get_images_to_original_dimensions (map Arr3 [sample_bgr_image]) 0 (-1) 0 0
        = Ok out /\
      length out = length [sample_bgr_image])
   <-> 0 <= 0 /\ 0 <= -1 /\ 0 <= 0 /\ 0 <= 0) /\
  (get_images_to_original_dimensions (map Arr3 [sample_bgr_image]) 0 (-1) 0 0
     = Raise CvError
   <-> 0 < 0 \/ -1 < 0 \/ 0 < 0 \/ 0 < 0).
Proof.
  apply (padding_fails_exactly_on_a_negative_margin [sample_bgr_image] 0 (-1) 0 0).
  - discriminate.
  - repeat constructor.
Defined.

(* ===================================================================== *)
(** * Properties of the selection of a channel and of the segmentation *)
(* ===================================================================== *)

Lemma py_index_mod (n : nat) (i : Z) :
  - Z.of_nat n <= i < Z.of_nat n ->
  py_index n i = Ok (Z.to_nat (i mod Z.of_nat n)).
Proof.
  intros Hi. unfold py_index.
  destruct (Z.leb_spec 0 i); cbn [andb].
  - destruct (Z.ltb_spec i (Z.of_nat n)); [|lia].
    by rewrite Z.mod_small by lia.
  - destruct (Z.leb_spec (- Z.of_nat n) i); [|lia].
    destruct (Z.ltb_spec i 0); [|lia]. cbn [andb]. do 2 f_equal.
    apply Z.mod_unique with (q := -1); lia.
Qed.

Lemma py_index_out_of_range (n : nat) (i : Z) :
  i < - Z.of_nat n \/ Z.of_nat n <= i -> py_index n i = Raise IndexError.
Proof.
  intros Hi. unfold py_index.
  destruct (Z.leb_spec 0 i), (Z.ltb_spec i (Z.of_nat n)),
           (Z.leb_spec (- Z.of_nat n) i), (Z.ltb_spec i 0);
    cbn [andb]; (reflexivity || lia).
Qed.

Lemma entry_map {A B} (f : A -> B) (m : matrix A) (i j : nat) :
  entry (map (map f) m) i j = f <$> entry m i j.
Proof.
  unfold entry. rewrite list_lookup_fmap.
  destruct (m !! i) as [row|]; [|reflexivity]. cbn. apply list_lookup_fmap.
Qed.

(** X15.  The selection of a channel.  For well-formed images of [C]
    channels and an index with [-C <= channel < C], every image gives a
    well-formed array of its height and width that holds, at each
    position, the item of the pixel at the index [channel mod C]: a
    negative index counts from the last channel. *)
Theorem channel_of_every_pixel (images : list image) (channel : Z) (C : nat) :
  Forall (fun im => image_wf im /\ im_chans im = C) images ->
  - Z.of_nat C <= channel < Z.of_nat C ->
  exists out,
    get_images_channel images channel = Ok out /\
    Forall2 (fun im g =>
               gray_wf g /\ g_rows g = im_rows im /\ g_cols g = im_cols im /\
               forall i j px, entry (im_items im) i j = Some px ->
                 entry (g_items g) i j
                 = px !! Z.to_nat (channel mod Z.of_nat C))
            images out.
Proof.
  intros Himgs Hch.
  set (c := Z.to_nat (channel mod Z.of_nat C)).
  assert (Hc : (c < C)%nat).
  { unfold c. pose proof (Z.mod_pos_bound channel (Z.of_nat C) ltac:(lia)). lia. }
  set (pick := fun im : image =>
         {| g_rows := im_rows im; g_cols := im_cols im;
            g_items := map (map (fun px => nth c px 0)) (im_items im) |}).
  exists (map pick images). split.
  - unfold get_images_channel. apply mapM_ok_map.
    intros im Him. rewrite Forall_forall in Himgs.
    destruct (Himgs im Him) as [[_ Hitems] HC].
    unfold np_last_axis_item. rewrite HC, py_index_mod, result_bind_ok by done.
    fold c.
    rewrite (mapM_ok_map _ (map (fun px => nth c px 0))); [reflexivity|].
    intros row Hrow. apply mapM_ok_map. intros px Hpx.
    rewrite Forall_forall in Hitems. destruct (Hitems row Hrow) as [_ Hpxs].
    rewrite Forall_forall in Hpxs. specialize (Hpxs px Hpx). cbv beta in Hpxs.
    unfold at_index.
    destruct (lookup_lt_is_Some_2 px c ltac:(lia)) as [v Hv].
    by rewrite Hv, (nth_lookup_Some _ _ _ _ Hv).
  - apply Forall2_fmap_r, Forall_Forall2_diag.
    eapply Forall_impl; [exact Himgs|]. intros im [[Hrows Hitems] HC].
    unfold pick. cbn [g_rows g_cols g_items].
    split; [|split; [reflexivity|split; [reflexivity|]]].
    + split; cbn [g_rows g_cols g_items]; [by rewrite length_map|].
      apply Forall_map. eapply Forall_impl; [exact Hitems|].
      intros row [Hrow _]. cbv beta. by rewrite length_map.
    + intros i j px Hpx. cbn [g_items]. rewrite entry_map, Hpx. cbn.
      assert (Hlen : length px = C).
      { unfold entry in Hpx. destruct (im_items im !! i) as [row|] eqn:Hrow;
          [|discriminate]. cbn in Hpx.
        destruct (Forall_lookup_1 _ _ _ _ Hitems Hrow) as [_ Hpxs].
        rewrite <- HC. by apply (Forall_lookup_1 _ _ _ _ Hpxs Hpx). }
      destruct (lookup_lt_is_Some_2 px c ltac:(lia)) as [v Hv].
      by rewrite Hv, (nth_lookup_Some _ _ _ _ Hv).
Qed.

Lemma channel_of_every_pixel_witness :
  exists out,
    get_images_channel [sample_image] (-1) = Ok out /\
    Forall2 (fun im g =>
               gray_wf g /\ g_rows g = im_rows im /\ g_cols g = im_cols im /\
               forall i j px, entry (im_items im) i j = Some px ->
                 entry (g_items g) i j
                 = px !! Z.to_nat (-1 mod Z.of_nat 1))
            [sample_image] out.
Proof.
  apply (channel_of_every_pixel [sample_image] (-1) 1).
  - repeat constructor.
  - cbn. lia.
Defined.

(** X16.  A channel out of range.  When the index is not within
    [-C .. C - 1] for the [C] channels of the first image, no array is
    returned: the index error of NumPy is raised, also for an image
    that has no pixel. *)
Theorem channel_out_of_range_raises (img : image) (rest : list image) (channel : Z) :
  channel < - Z.of_nat (im_chans img) \/ Z.of_nat (im_chans img) <= channel ->
  get_images_channel (img :: rest) channel = Raise IndexError.
Proof.
  intros Hch. unfold get_images_channel. cbn [mapM].
  unfold np_last_axis_item. by rewrite py_index_out_of_range.
Qed.

Lemma channel_out_of_range_raises_witness :
  get_images_channel (Image 0 0 3 [] :: [sample_image]) 3 = Raise IndexError.
Proof.
  apply (channel_out_of_range_raises (Image 0 0 3 []) [sample_image] 3).
  cbn. lia.
Defined.

Lemma zip_with_land_diag (px : list Z) : zip_with Z.land px px = px.
Proof.
  induction px as [|x px IH]; [reflexivity|].
  cbn. by rewrite Z.land_diag, IH.
Qed.

(** The items that [cv.bitwise_and(img, img, mask=mask)] writes. *)
Lemma bitwise_and_self_items (items : list (matrix Z)) (mitems : matrix Z) :
  zip_with (fun rows mrow =>
              zip_with (fun pxs m =>
                          if m =? 0 then map (fun _ => 0) pxs.1
                          else zip_with Z.land pxs.1 pxs.2)
                       (zip rows.1 rows.2) mrow)
           (zip items items) mitems
  = zip_with (zip_with (fun px m => if m =? 0 then map (fun _ => 0) px else px))
             items mitems.
Proof.
  revert mitems. induction items as [|row items IH]; intros [|mrow mitems];
    try reflexivity.
  cbn [zip_with]. rewrite IH. f_equal. cbn [fst snd]. clear.
  revert mrow. induction row as [|px row IH]; intros [|m mrow]; try reflexivity.
  cbn [zip_with fst snd]. by rewrite IH, zip_with_land_diag.
Qed.

Lemma mat_and_masked_self (m : image) (mask : gray) :
  mat_and_masked m m mask
  = {| im_rows := im_rows m; im_cols := im_cols m; im_chans := im_chans m;
       im_items :=
         zip_with (zip_with (fun px k => if k =? 0 then map (fun _ => 0) px else px))
                  (im_items m) (g_items mask) |}.
Proof. unfold mat_and_masked. by rewrite bitwise_and_self_items. Qed.

Lemma cv_bitwise_and_self_ok (a : ndarray) (m : image) (mask : gray) :
  cv_mat a = Ok m -> (cv_dims a <= 2)%nat ->
  g_rows mask = im_rows m -> g_cols mask = im_cols m ->
  cv_bitwise_and_masked a a mask = Ok (cv_ndarray (mat_and_masked m m mask)).
Proof.
  intros Hm Hd Hr Hc. unfold cv_bitwise_and_masked.
  rewrite Hm, !result_bind_ok, Hr, Hc, !Nat.eqb_refl.
  by replace (cv_dims a <=? 2)%nat with true by (symmetry; by apply Nat.leb_le).
Qed.

Lemma cv_bitwise_and_self_inv (a out : ndarray) (mask : gray) :
  cv_bitwise_and_masked a a mask = Ok out ->
  exists m,
    cv_mat a = Ok m /\ (cv_dims a <= 2)%nat /\
    g_rows mask = im_rows m /\ g_cols mask = im_cols m /\
    out = cv_ndarray (mat_and_masked m m mask).
Proof.
  unfold cv_bitwise_and_masked. destruct (cv_mat a) as [m|e]; [|discriminate].
  rewrite !result_bind_ok, !Nat.eqb_refl.
  destruct (Nat.leb_spec (cv_dims a) 2) as [Hd|?]; [|discriminate].
  cbn [andb].
  destruct (Nat.eqb_spec (g_rows mask) (im_rows m)) as [Hr|?]; [|discriminate].
  destruct (Nat.eqb_spec (g_cols mask) (im_cols m)) as [Hc|?]; [|discriminate].
  intros [= <-]. by exists m.
Qed.

Lemma map_zip_with1 {A B C D} (f : C -> D) (g : A -> B -> C) (l : list A)
    (k : list B) :
  map f (zip_with g l k) = zip_with (fun x y => f (g x y)) l k.
Proof.
  revert k. induction l as [|x l IH]; intros [|y k]; try reflexivity.
  cbn. by rewrite IH.
Qed.

Lemma map_zip_with2 {A B C D} (f : C -> D) (g : A -> B -> C) (L : matrix A)
    (K : matrix B) :
  map (map f) (zip_with (zip_with g) L K)
  = zip_with (zip_with (fun x y => f (g x y))) L K.
Proof.
  revert K. induction L as [|l L IH]; intros [|k K]; try reflexivity.
  cbn. by rewrite IH, map_zip_with1.
Qed.

(** Doing again, with the same second list, what left its result
    unchanged at every item. *)
Lemma zip_with_again {A B C D} (f : C -> B -> D) (g : A -> B -> C)
    (g' : A -> B -> D) (l : list A) (k : list B) :
  (forall x y, f (g x y) y = g' x y) ->
  zip_with f (zip_with g l k) k = zip_with g' l k.
Proof.
  intros Hg. revert k. induction l as [|x l IH]; intros [|y k]; try reflexivity.
  cbn. by rewrite Hg, IH.
Qed.

(** The conjunction under a mask, done again on its own result. *)
Lemma cv_bitwise_and_again (a : ndarray) (m : image) (mask : gray) :
  cv_mat a = Ok m -> (cv_dims a <= 2)%nat ->
  g_rows mask = im_rows m -> g_cols mask = im_cols m ->
  cv_bitwise_and_masked (cv_ndarray (mat_and_masked m m mask))
                        (cv_ndarray (mat_and_masked m m mask)) mask
  = Ok (cv_ndarray (mat_and_masked m m mask)).
Proof.
  intros Hm Hd Hr Hc. rewrite mat_and_masked_self.
  unfold cv_ndarray at 1 2. cbn [im_rows im_cols im_chans im_items].
  destruct (Nat.eqb_spec (im_chans m) 1) as [H1 | H1].
  - erewrite cv_bitwise_and_self_ok;
      [|cbn [cv_mat]; reflexivity|cbn [cv_dims]; lia|exact Hr|exact Hc].
    f_equal. rewrite mat_and_masked_self. unfold cv_ndarray.
    cbn [im_rows im_cols im_chans im_items g_items]. rewrite H1.
    cbn [Nat.eqb]. do 2 f_equal.
    rewrite !map_zip_with2.
    apply zip_with_again. intros row mrow.
    apply zip_with_again. intros px k.
    destruct (k =? 0); [by destruct px|reflexivity].
  - assert (Ha : (1 <=? im_chans m)%nat = true /\
                 (im_chans m <=? CV_CN_MAX)%nat = true).
    { destruct a as [g|img]; cbn [cv_mat cv_dims] in Hm, Hd.
      - injection Hm as <-. done.
      - destruct (1 <=? im_chans img)%nat eqn:H0; [|discriminate].
        injection Hm as <-. split; [done|].
        destruct (im_chans img <=? CV_CN_MAX)%nat; [done|lia]. }
    destruct Ha as [Ha1 Ha2].
    rewrite (cv_bitwise_and_self_ok _
               {| im_rows := im_rows m; im_cols := im_cols m; im_chans := im_chans m;
                  im_items :=
                    zip_with (zip_with (fun px k =>
                                          if k =? 0 then map (fun _ => 0) px else px))
                             (im_items m) (g_items mask) |} mask);
      try done.
    + f_equal. rewrite mat_and_masked_self. unfold cv_ndarray.
      cbn [im_rows im_cols im_chans im_items].
      destruct (Nat.eqb_spec (im_chans m) 1); [done|]. do 2 f_equal.
      apply zip_with_again. intros row mrow.
      apply zip_with_again. intros px k.
      destruct (k =? 0); [by rewrite map_map|reflexivity].
    + cbn [cv_mat im_chans]. by rewrite Ha1.
    + cbn [cv_dims im_chans]. by rewrite Ha2.
Qed.

(** The segmentation of an image of three channels. *)
Lemma cv_bitwise_and_bgr (img : image) (mask : gray) :
  im_chans img = 3%nat ->
  g_rows mask = im_rows img -> g_cols mask = im_cols img ->
  cv_bitwise_and_masked (Arr3 img) (Arr3 img) mask
  = Ok (Arr3 {| im_rows := im_rows img; im_cols := im_cols img; im_chans := 3;
                im_items :=
                  zip_with (zip_with (fun px k =>
                                        if k =? 0 then map (fun _ => 0) px else px))
                           (im_items img) (g_items mask) |}).
Proof.
  intros H3 Hr Hc.
  rewrite (cv_bitwise_and_self_ok _ img); try done.
  - rewrite mat_and_masked_self. unfold cv_ndarray.
    cbn [im_chans]. by rewrite H3.
  - cbn [cv_mat]. by rewrite H3.
  - cbn [cv_dims]. rewrite H3. cbn. lia.
Qed.

(** X17.  What the segmentation keeps.  For images of three channels,
    when every mask has the height and the width of its image,
    [get_segmented_images] returns one image of three dimensions per
    pair, of the shape of the original, that holds the original pixel
    where the mask is not zero and a pixel of zeros where it is zero;
    images or masks beyond the shorter list are left out. *)
Theorem segmentation_keeps_the_pixels_under_the_mask
    (images : list image) (masks : list gray) :
  (forall k im mk, images !! k = Some im -> masks !! k = Some mk ->
     im_chans im = 3%nat /\ g_rows mk = im_rows im /\ g_cols mk = im_cols im) ->
  exists out,
    get_segmented_images (map Arr3 images) masks = Ok (map Arr3 out) /\
    length out = min (length images) (length masks) /\
    forall k im mk, images !! k = Some im -> masks !! k = Some mk ->
      exists o,
        out !! k = Some o /\
        im_rows o = im_rows im /\ im_cols o = im_cols im /\
        im_chans o = 3%nat /\
        forall i j px m,
          entry (im_items im) i j = Some px -> entry (g_items mk) i j = Some m ->
          entry (im_items o) i j
          = Some (if m =? 0 then map (fun _ => 0) px else px).
Proof.
  intros Hdims.
  set (seg := fun p : image * gray =>
         {| im_rows := im_rows p.1; im_cols := im_cols p.1; im_chans := 3;
            im_items :=
              zip_with (zip_with (fun px m =>
                                    if m =? 0 then map (fun _ => 0) px else px))
                       (im_items p.1) (g_items p.2) |}).
  exists (map seg (zip images masks)). split; [|split].
  - unfold get_segmented_images.
    rewrite (mapM_ok_map _ (fun p : ndarray * gray =>
                              match p.1 with
                              | Arr3 im => Arr3 (seg (im, p.2))
                              | Arr2 _ => p.1
                              end)).
    + f_equal. rewrite !map_map. clear. revert masks.
      induction images as [|im images IH]; intros [|mk masks]; try reflexivity.
      cbn. by rewrite IH.
    + intros [a mk] (k & a' & mk' & [= -> ->] & Ha & Hmk)%elem_of_lookup_zip_with.
      rewrite list_lookup_fmap in Ha.
      destruct (images !! k) as [im|] eqn:Him; [|discriminate].
      injection Ha as <-.
      destruct (Hdims k im mk' Him Hmk) as (H3 & Hr & Hc).
      by apply cv_bitwise_and_bgr.
  - by rewrite length_map, length_zip_with.
  - intros k im mk Him Hmk. exists (seg (im, mk)). split.
    { by rewrite list_lookup_fmap, lookup_zip_with, Him, Hmk. }
    do 3 (split; [reflexivity|]).
    intros i j px m Hpx Hm. unfold seg, entry in *.
    cbn [im_items fst snd].
    rewrite lookup_zip_with.
    destruct (im_items im !! i) as [row|]; [|discriminate].
    destruct (g_items mk !! i) as [mrow|]; [|discriminate].
    cbn in *. by rewrite lookup_zip_with, Hpx, Hm.
Qed.

Lemma segmentation_keeps_the_pixels_under_the_mask_witness :
  exists out,
    get_segmented_images (map Arr3 [sample_bgr_image])
      [Gray 3 2 [[1; 0]; [0; 255]; [0; 0]]]
      = Ok (map Arr3 out) /\
    length out = min (length [sample_bgr_image])
                     (length [Gray 3 2 [[1; 0]; [0; 255]; [0; 0]]]) /\
    forall k im mk,
      [sample_bgr_image] !! k = Some im ->
      [Gray 3 2 [[1; 0]; [0; 255]; [0; 0]]] !! k = Some mk ->
      exists o,
        out !! k = Some o /\
        im_rows o = im_rows im /\ im_cols o = im_cols im /\
        im_chans o = 3%nat /\
        forall i j px m,
          entry (im_items im) i j = Some px -> entry (g_items mk) i j = Some m ->
          entry (im_items o) i j
          = Some (if m =? 0 then map (fun _ => 0) px else px).
Proof.
  apply (segmentation_keeps_the_pixels_under_the_mask
           [sample_bgr_image] [Gray 3 2 [[1; 0]; [0; 255]; [0; 0]]]).
  intros [|k] im mk Him Hmk; [|discriminate].
  injection Him as <-. injection Hmk as <-. repeat split; reflexivity.
Defined.

(** X18.  The segmentation is idempotent.  Whatever arrays it
    returns, of two dimensions for images of one channel and of three
    otherwise, segmenting them again with the same masks succeeds and
    returns them unchanged. *)
Theorem segmentation_is_idempotent (images out : list ndarray) (masks : list gray) :
  get_segmented_images images masks = Ok out ->
  get_segmented_images out masks = Ok out.
Proof.
  unfold get_segmented_images. revert masks out.
  induction images as [|im images IH]; intros [|mk masks] out Hout;
    try (injection Hout as <-; reflexivity).
  cbn in Hout. cbn.
  destruct (cv_bitwise_and_masked im im mk) as [o|e] eqn:Ho; [|discriminate].
  destruct (mapM _ (zip images masks)) as [os|e] eqn:Hos; [|discriminate].
  cbn in Hout. injection Hout as <-.
  destruct (cv_bitwise_and_self_inv _ _ _ Ho) as (m & Hm & Hd & Hr & Hc & ->).
  cbn [zip_with mapM].
  rewrite (cv_bitwise_and_again im m mk) by done.
  cbn. by rewrite (IH masks os Hos).
Qed.

Lemma segmentation_is_idempotent_witness :
  get_segmented_images
    [Arr2 (Gray 3 2 [[1; 0]; [0; 4]; [0; 0]]);
     Arr3 (Image 3 2 3 [[[1; 2; 3]; [0; 0; 0]];
                        [[0; 0; 0]; [10; 11; 12]];
                        [[0; 0; 0]; [0; 0; 0]]])]
    [Gray 3 2 [[1; 0]; [0; 255]; [0; 0]]; Gray 3 2 [[1; 0]; [0; 255]; [0; 0]]]
  = Ok [Arr2 (Gray 3 2 [[1; 0]; [0; 4]; [0; 0]]);
        Arr3 (Image 3 2 3 [[[1; 2; 3]; [0; 0; 0]];
                           [[0; 0; 0]; [10; 11; 12]];
                           [[0; 0; 0]; [0; 0; 0]]])].
Proof.
  apply (segmentation_is_idempotent
           [Arr3 sample_image; Arr3 sample_bgr_image] _
           [Gray 3 2 [[1; 0]; [0; 255]; [0; 0]]; Gray 3 2 [[1; 0]; [0; 255]; [0; 0]]]).
  reflexivity.
Defined.

(* ===================================================================== *)
(** * Properties of the axes of the rectilinear grid *)
(* ===================================================================== *)

(** A slice [a[:stop:step]] or [a[::step]] with a positive step that
    selects [k] items. *)
Lemma py_slice_step_from_start {A} (row : list A) (stop : option Z) (step : Z)
    (k : nat) (f : nat -> A) :
  0 < step ->
  match stop with Some s => 0 <= s | None => True end ->
  (let b := match stop with
            | None => Z.of_nat (length row)
            | Some s => Z.min s (Z.of_nat (length row))
            end in
   0 < b /\ (b - 1) / step + 1 = Z.of_nat k) ->
  (forall i, (i < k)%nat -> row !! (i * Z.to_nat step)%nat = Some (f i)) ->
  py_slice_step row None stop step = Ok (map f (seq 0 k)).
Proof.
  intros Hstep Hstop [Hb Hk] Hrow.
  unfold py_slice_step, py_slice_indices.
  destruct (Z.eqb_spec step 0) as [?|_]; [lia|].
  assert (Ha : py_adjust_bound (Z.of_nat (length row)) step None true = 0).
  { unfold py_adjust_bound. by destruct (Z.ltb_spec step 0); [lia|]. }
  assert (Hb' : py_adjust_bound (Z.of_nat (length row)) step stop false
                = match stop with
                  | None => Z.of_nat (length row)
                  | Some s => Z.min s (Z.of_nat (length row))
                  end).
  { unfold py_adjust_bound. destruct (Z.ltb_spec step 0); [lia|].
    destruct stop as [s|]; [|reflexivity].
    by destruct (Z.ltb_spec s 0); [lia|]. }
  cbv zeta. rewrite Ha, Hb'.
  destruct (Z.ltb_spec step 0); [lia|].
  match goal with |- context [0 <? ?b] => destruct (Z.ltb_spec 0 b); [|lia] end.
  rewrite Z.sub_0_r, Hk, Nat2Z.id, result_bind_ok.
  rewrite (mapM_ok_map _ (fun z => f (Z.to_nat (z / step)))).
  - f_equal. rewrite map_map. apply map_ext. intros i.
    by rewrite Z.add_0_l, Z.div_mul, Nat2Z.id by lia.
  - intros z (i & -> & Hi)%list_elem_of_fmap.
    apply elem_of_seq in Hi. rewrite Z.add_0_l, Z.div_mul, Nat2Z.id by lia.
    unfold at_index.
    replace (Z.to_nat (Z.of_nat i * step)) with (i * Z.to_nat step)%nat by lia.
    by rewrite Hrow by lia.
Qed.

(** X19.  The axes that the saver takes from a grid.  For the grid of
    size [S >= 1] that [get_voxel_grid_points] builds, in any
    arithmetic, the three slices of [save_voxels_as_rectilinear_grid]
    succeed and give [S] values each: [x] the scaled z values, [y] the
    scaled x values and [z] the scaled y values of the grid.  The grid
    is their product with [x] varying fastest: the point at position
    [n] has its coordinates at the indices [n mod S] of [x],
    [(n / S) mod S] of [y] and [n / S^2] of [z]. *)
Theorem rectilinear_axes_of_the_grid {F : Type} `{Float64 F} (S : Z)
    (x_min x_max y_min y_max z_min z_max : F) :
  1 <= S ->
  exists g x y z,
    get_voxel_grid_points S x_min x_max y_min y_max z_min z_max = Ok g /\
    rectilinear_grid_axes g S = Ok (x, y, z) /\
    x = map (grid_scale S z_min z_max) (np_arange S) /\
    y = map (grid_scale S x_min x_max) (np_arange S) /\
    z = map (grid_scale S y_min y_max) (np_arange S) /\
    forall n : nat, (n < Z.to_nat (S ^ 3))%nat ->
      entry g 2 n = x !! Z.to_nat (Z.of_nat n mod S) /\
      entry g 0 n = y !! Z.to_nat ((Z.of_nat n / S) mod S) /\
      entry g 1 n = z !! Z.to_nat (Z.of_nat n / (S * S)).
Proof.
  intros HS.
  set (ar := np_arange S).
  set (fx := np_flatten3 (mesh (fun x _ _ : Z => x) ar ar ar)).
  set (fy := np_flatten3 (mesh (fun _ y _ : Z => y) ar ar ar)).
  set (fz := np_flatten3 (mesh (fun _ _ z : Z => z) ar ar ar)).
  assert (Hlen : forall h, length (np_flatten3 (mesh h ar ar ar)) = Z.to_nat (S ^ 3)).
  { intros h. rewrite length_flatten_mesh. unfold ar. rewrite length_np_arange. nia. }
  assert (Hat : forall (h : Z -> Z -> Z -> Z) (n : nat), (n < Z.to_nat (S ^ 3))%nat ->
            np_flatten3 (mesh h ar ar ar) !! n
            = Some (h ((Z.of_nat n / S) mod S) (Z.of_nat n / (S * S))
                      (Z.of_nat n mod S))).
  { intros h n Hn. by apply lookup_flat_grid. }
  assert (Hseq : forall (G : Z -> F),
            map (fun i : nat => G (Z.of_nat i)) (seq 0 (Z.to_nat S)) = map G ar).
  { intros G. unfold ar, np_arange. by rewrite map_map. }
  assert (HS3 : S ^ 3 = S * S * S) by ring.
  exists [map (grid_scale S x_min x_max) fx; map (grid_scale S y_min y_max) fy;
          map (grid_scale S z_min z_max) fz;
          replicate (Z.to_nat (S ^ 3)) (f_of_int 1)].
  do 3 eexists. split; [by apply get_voxel_grid_points_ok|].
  split; [|split; [reflexivity|split; [reflexivity|split; [reflexivity|]]]].
  - unfold rectilinear_grid_axes.
    change (np_row ?m 0) with (Ok (map (grid_scale S x_min x_max) fx)).
    rewrite result_bind_ok.
    rewrite (py_slice_step_from_start _ _ _ (Z.to_nat S)
               (fun i => grid_scale S x_min x_max (Z.of_nat i))).
    2:{ lia. }
    2:{ nia. }
    2:{ rewrite length_map. unfold fx. rewrite Hlen.
        replace (Z.min (S * S) (Z.of_nat (Z.to_nat (S ^ 3)))) with (S * S) by nia.
        split; [nia|]. rewrite Z2Nat.id by lia.
        replace (S * S - 1) with ((S - 1) * S + (S - 1)) by ring.
        rewrite Z.div_add_l, Z.div_small by lia. lia. }
    2:{ intros i Hi. rewrite list_lookup_fmap. unfold fx. rewrite Hat by nia.
        cbn. do 2 f_equal.
        replace (Z.of_nat (i * Z.to_nat S)) with (Z.of_nat i * S) by lia.
        rewrite Z.div_mul by lia. apply Z.mod_small. lia. }
    rewrite result_bind_ok.
    change (np_row ?m 1) with (Ok (map (grid_scale S y_min y_max) fy)).
    rewrite result_bind_ok.
    rewrite (py_slice_step_from_start _ _ _ (Z.to_nat S)
               (fun i => grid_scale S y_min y_max (Z.of_nat i))).
    2:{ nia. }
    2:{ done. }
    2:{ rewrite length_map. unfold fy. rewrite Hlen.
        split; [nia|]. rewrite !Z2Nat.id by nia.
        replace (S ^ 3 - 1) with ((S - 1) * (S * S) + (S * S - 1)) by ring.
        rewrite Z.div_add_l, Z.div_small by nia. lia. }
    2:{ intros i Hi. rewrite list_lookup_fmap. unfold fy. rewrite Hat by nia.
        cbn. do 2 f_equal.
        replace (Z.of_nat (i * Z.to_nat (S * S))) with (Z.of_nat i * (S * S)) by nia.
        apply Z.div_mul. nia. }
    rewrite result_bind_ok.
    change (np_row ?m 2) with (Ok (map (grid_scale S z_min z_max) fz)).
    rewrite result_bind_ok.
    rewrite (py_slice_step_from_start _ _ _ (Z.to_nat S)
               (fun i => grid_scale S z_min z_max (Z.of_nat i))).
    2:{ lia. }
    2:{ lia. }
    2:{ rewrite length_map. unfold fz. rewrite Hlen.
        replace (Z.min S (Z.of_nat (Z.to_nat (S ^ 3)))) with S by nia.
        split; [lia|]. rewrite Z.div_1_r. lia. }
    2:{ intros i Hi. rewrite list_lookup_fmap. unfold fz. rewrite Hat by nia.
        cbn. do 2 f_equal. rewrite Nat.mul_1_r. apply Z.mod_small. lia. }
    rewrite result_bind_ok. by rewrite !Hseq.
  - intros n Hn.
    assert (Hk : 0 <= Z.of_nat n mod S < S) by (apply Z.mod_pos_bound; lia).
    assert (Hj : 0 <= (Z.of_nat n / S) mod S < S) by (apply Z.mod_pos_bound; lia).
    assert (Hi : 0 <= Z.of_nat n / (S * S) < S).
    { split; [apply Z.div_pos; nia|]. apply Z.div_lt_upper_bound; nia. }
    unfold entry. cbn [lookup list_lookup mbind option_bind].
    rewrite !list_lookup_fmap. unfold fx, fy, fz. rewrite !Hat by done.
    unfold ar. rewrite !lookup_np_arange by lia. cbn.
    by rewrite !Z2Nat.id by lia.
Qed.

Lemma rectilinear_axes_of_the_grid_witness :
  exists g x y z,
    get_voxel_grid_points 2 (Fin 0) (Fin 1) (Fin 10) (Fin 20) (Fin (-1)) (Fin 1)
      = Ok g /\
    rectilinear_grid_axes g 2 = Ok (x, y, z) /\
    x = map (grid_scale 2 (Fin (-1)) (Fin 1)) (np_arange 2) /\
    y = map (grid_scale 2 (Fin 0) (Fin 1)) (np_arange 2) /\
    z = map (grid_scale 2 (Fin 10) (Fin 20)) (np_arange 2) /\
    forall n : nat, (n < Z.to_nat (2 ^ 3))%nat ->
      entry g 2 n = x !! Z.to_nat (Z.of_nat n mod 2) /\
      entry g 0 n = y !! Z.to_nat ((Z.of_nat n / 2) mod 2) /\
      entry g 1 n = z !! Z.to_nat (Z.of_nat n / (2 * 2)).
Proof.
  apply (rectilinear_axes_of_the_grid 2 (Fin 0) (Fin 1) (Fin 10) (Fin 20)
           (Fin (-1)) (Fin 1)).
  lia.
Defined.

(* ===================================================================== *)
(** * Further properties of cropping, and of the voter in the store *)
(* ===================================================================== *)

Lemma lookup_py_slice_crop {A} (l : list A) (lead trail : Z) (i : nat) :
  0 <= lead -> 0 <= trail -> lead + trail <= Z.of_nat (length l) ->
  (i < length l - Z.to_nat lead - Z.to_nat trail)%nat ->
  py_slice l lead (Z.of_nat (length l) - trail) !! i = l !! (i + Z.to_nat lead)%nat.
Proof.
  intros Hl Ht Hfit Hi. unfold py_slice.
  destruct (py_slice_len_crop (length l) lead trail) as [-> ->]; [done..|].
  rewrite lookup_take_lt, lookup_drop by lia. f_equal. lia.
Qed.

(** X20.  What cropping keeps.  For well-formed images of one size
    [H] by [W] and margins that are not negative and fit, every image
    is cut to a well-formed image of [H - top - bottom] rows and
    [W - left - right] columns, with the same channels, whose pixel at
    [(i, j)] is the pixel of the original at [(i + top, j + left)]. *)
Theorem crop_takes_the_window (images : list image)
    (top bottom left right : Z) (H W C : nat) :
  Forall (fun im => image_wf im /\ im_rows im = H /\ im_cols im = W /\ im_chans im = C)
         images ->
  0 <= top -> 0 <= bottom -> 0 <= left -> 0 <= right ->
  top + bottom <= Z.of_nat H -> left + right <= Z.of_nat W ->
  length (get_cropped_images images top bottom left right) = length images /\
  forall k img, images !! k = Some img ->
    exists o,
      get_cropped_images images top bottom left right !! k = Some o /\
      image_wf o /\
      im_rows o = (H - Z.to_nat top - Z.to_nat bottom)%nat /\
      im_cols o = (W - Z.to_nat left - Z.to_nat right)%nat /\
      im_chans o = C /\
      forall i j, (i < H - Z.to_nat top - Z.to_nat bottom)%nat ->
                  (j < W - Z.to_nat left - Z.to_nat right)%nat ->
        entry (im_items o) i j
        = entry (im_items img) (i + Z.to_nat top) (j + Z.to_nat left).
Proof.
  intros Himgs Ht Hb Hl Hr Hfit_r Hfit_c.
  set (crop := fun img => np_slice2 img top (Z.of_nat H - bottom)
                                        left (Z.of_nat W - right)).
  assert (Hcrop : get_cropped_images images top bottom left right = map crop images).
  { destruct images as [|img0 rest]; [reflexivity|].
    apply Forall_cons in Himgs as [(_ & Hr0 & Hc0 & _) _].
    unfold get_cropped_images. by rewrite Hr0, Hc0. }
  rewrite Hcrop. split; [by rewrite length_map|].
  intros k img Hk. exists (crop img). split; [by rewrite list_lookup_fmap, Hk|].
  rewrite Forall_lookup in Himgs.
  destruct (Himgs k img Hk) as ([Hrows Hitems] & HrH & HcW & HcC).
  destruct img as [rows cols chans items].
  cbn [im_rows im_cols im_chans im_items] in *. subst rows cols chans.
  unfold crop, np_slice2. cbn [im_rows im_cols im_chans im_items].
  clear Hcrop crop Himgs Hk. subst H.
  destruct (py_slice_len_crop (length items) top bottom) as [_ Hlr]; [lia..|].
  destruct (py_slice_len_crop W left right) as [_ Hlc]; [lia..|].
  rewrite Hlr, Hlc.
  split; [|split; [reflexivity|split; [reflexivity|split; [reflexivity|]]]].
  - split; cbn [im_rows im_cols im_chans im_items].
    + rewrite length_map, length_py_slice_crop by lia. lia.
    + apply Forall_map, py_slice_Forall.
      eapply Forall_impl; [exact Hitems|]. intros row [Hrow Hpxs]. cbv beta.
      rewrite <- Hrow at 1. rewrite length_py_slice_crop by lia.
      split; [lia|by apply py_slice_Forall].
  - intros i j Hi Hj. unfold entry. rewrite list_lookup_fmap.
    rewrite lookup_py_slice_crop by lia.
    destruct (lookup_lt_is_Some_2 items (i + Z.to_nat top) ltac:(lia)) as [row Hrow].
    rewrite Hrow. cbn.
    destruct (Forall_lookup_1 _ _ _ _ Hitems Hrow) as [Hlen _].
    rewrite <- Hlen at 1. apply lookup_py_slice_crop; lia.
Qed.

Lemma crop_takes_the_window_witness :
  length (get_cropped_images [sample_image] 1 1 0 1) = length [sample_image] /\
  forall k img, [sample_image] !! k = Some img ->
    exists o,
      get_cropped_images [sample_image] 1 1 0 1 !! k = Some o /\
      image_wf o /\
      im_rows o = (3 - Z.to_nat 1 - Z.to_nat 1)%nat /\
      im_cols o = (2 - Z.to_nat 0 - Z.to_nat 1)%nat /\
      im_chans o = 1%nat /\
      forall i j, (i < 3 - Z.to_nat 1 - Z.to_nat 1)%nat ->
                  (j < 2 - Z.to_nat 0 - Z.to_nat 1)%nat ->
        entry (im_items o) i j
        = entry (im_items img) (i + Z.to_nat 1) (j + Z.to_nat 0).
Proof.
  apply (crop_takes_the_window [sample_image] 1 1 0 1 3 2 1).
  - repeat constructor.
  - lia.
  - lia.
  - lia.
  - lia.
  - cbn. lia.
  - cbn. lia.
Defined.

(** X21.  The voter returns a new array.  In the store, when the
    locations it is given hold masks, matrices and a grid, the voter
    only adds objects to the store, and its outcome is that of the
    function on the values: the same error, or a location that did not
    exist before the call, hence none of its inputs, which holds the
    matrix of votes. *)
Theorem voter_returns_a_new_array {F : Type} `{Float64 F}
    (s : list (Ref.obj F)) (lmasks lppms : list Ref.loc) (lv : Ref.loc)
    (masks : list (matrix Z)) (ppms : list (matrix F)) (points : matrix F) :
  holds_ints s lmasks masks -> holds_floats s lppms ppms ->
  s !! lv = Some (Ref.OFloat points) ->
  exists t,
    let run := Ref.get_voxel_points_projection_is_in_images_mask lmasks lppms lv s in
    run.2 = s ++ t /\
    match get_voxel_points_projection_is_in_images_mask masks ppms points with
    | Ok votes =>
        exists l, run.1 = Ok l /\ (length s <= l)%nat /\
                  (s ++ t) !! l = Some (Ref.OInt votes)
    | Raise e => run.1 = Raise e
    end.
Proof.
  intros Hmasks Hppms Hlv.
  destruct (ref_voter_adequate s lmasks lppms lv masks ppms points Hmasks Hppms Hlv)
    as (t & Hrun & Hres).
  exists t. cbv zeta in *. split; [exact Hrun|].
  destruct (get_voxel_points_projection_is_in_images_mask masks ppms points)
    as [votes|e]; [|exact Hres].
  destruct Hres as (l & Hl & Hlook). exists l. split; [exact Hl|]. split; [|exact Hlook].
  destruct (framed_voter (length s) lmasks lppms lv s (le_n _)) as (_ & _ & Hfresh).
  by apply Hfresh.
Qed.

Lemma voter_returns_a_new_array_witness :
  exists t,
    let s := [Ref.OFloat (qmat sample_ppm); Ref.OInt sample_mask;
              Ref.OFloat (qmat sample_points)] in
    let run := Ref.get_voxel_points_projection_is_in_images_mask
                 [1; 1]%nat [0; 0]%nat 2%nat s in
    run.2 = s ++ t /\
    match get_voxel_points_projection_is_in_images_mask
            [sample_mask; sample_mask] [qmat sample_ppm; qmat sample_ppm]
            (qmat sample_points) with
    | Ok votes =>
        exists l, run.1 = Ok l /\ (length s <= l)%nat /\
                  (s ++ t) !! l = Some (Ref.OInt votes)
    | Raise e => run.1 = Raise e
    end.
Proof.
  apply (voter_returns_a_new_array
           [Ref.OFloat (qmat sample_ppm); Ref.OInt sample_mask;
            Ref.OFloat (qmat sample_points)]
           [1; 1]%nat [0; 0]%nat 2%nat
           [sample_mask; sample_mask] [qmat sample_ppm; qmat sample_ppm]
           (qmat sample_points)).
  - repeat constructor.
  - repeat constructor.
  - reflexivity.
Defined.
